(** * hiop: RAJA sparse-triplet matrices

    A shallow embedding of [hiopMatrixRajaSparseTriplet] and
    [hiopMatrixRajaSymSparseTriplet] (the sparse-matrix core of the HiOp
    interior-point solver), together with the properties of the kernels.

    Conventions of the embedding.
    - C++ [int] indices are integers of [Z]; on the inputs considered every
      index sum stays inside the asserted bounds.
    - C++ [double] values are real numbers of [R]: arithmetic is exact.
    - A [RAJA::forall] over [RangeSegment(lo, hi)] is its sequential
      execution for [i = lo, ..., hi-1]; the accumulations it performs are
      atomic in the source, so each parallel run equals some sequential one.
    - A computation either returns, stops at a failed [assert], or faults
      (an access outside a buffer, a read of a cell never written, a wild
      pointer): see [outcome]. *)

From Stdlib Require Import String ZArith List Sorted Reals Lra Lia Bool.
Import ListNotations.

Local Open Scope Z_scope.

(** ** Outcomes of a call *)

Inductive outcome (A : Type) : Type :=
| Ok (a : A)
| AssertFailed
| Fault.

Arguments Ok {A} a.
Arguments AssertFailed {A}.
Arguments Fault {A}.

Definition bind {A B : Type} (m : outcome A) (k : A -> outcome B) : outcome B :=
  match m with
  | Ok a => k a
  | AssertFailed => AssertFailed
  | Fault => Fault
  end.

Notation "x <- m ;; k" := (bind m (fun x => k))
  (at level 61, m at next level, right associativity).
Notation "' pat <- m ;; k" := (bind m (fun x => match x with pat => k end))
  (at level 61, pat pattern, m at next level, right associativity).

(** ** Build configuration: the preprocessor symbols the code tests *)

Record build : Type := {
  HIOP_USE_GPU : bool;
  HIOP_DEEPCHECKS : bool;
  NDEBUG : bool
}.

(** [assert(b)] of <cassert>: compiled out under [NDEBUG]. *)
Definition assert_ (cfg : build) (b : bool) : outcome unit :=
  if NDEBUG cfg then Ok tt else if b then Ok tt else AssertFailed.

(** An [assert] inside [#ifdef HIOP_DEEPCHECKS]. *)
Definition deep_assert (cfg : build) (b : bool) : outcome unit :=
  if HIOP_DEEPCHECKS cfg then assert_ cfg b else Ok tt.

(** ** Raw arrays, indexed by [int] *)

Section Arrays.
Context {T : Type}.

(** [a[i]] as an rvalue; outside the buffer the access faults. *)
Definition rd (a : list T) (i : Z) : outcome T :=
  if i <? 0 then Fault
  else match nth_error a (Z.to_nat i) with
       | Some v => Ok v
       | None => Fault
       end.

Fixpoint set_nth (a : list T) (n : nat) (v : T) : list T :=
  match a, n with
  | [], _ => []
  | _ :: a', O => v :: a'
  | x :: a', S n' => x :: set_nth a' n' v
  end.

(** [a[i] = v]; outside the buffer the access faults. *)
Definition wr (a : list T) (i : Z) (v : T) : outcome (list T) :=
  if i <? 0 then Fault
  else if Nat.ltb (Z.to_nat i) (length a) then Ok (set_nth a (Z.to_nat i) v)
  else Fault.
End Arrays.

(** A cell that may never have been written ([None]): reading it faults. *)
Definition rd_cell {T : Type} (a : list (option T)) (i : Z) : outcome T :=
  c <- rd a i ;;
  match c with
  | Some v => Ok v
  | None => Fault
  end.

(** ** Loops *)

Section Loops.
Context {St : Type}.

Fixpoint iter_range (n : nat) (i : Z) (body : Z -> St -> outcome St) (s : St)
  : outcome St :=
  match n with
  | O => Ok s
  | S n' => s' <- body i s ;; iter_range n' (i + 1) body s'
  end.

(** [for (i = lo; i < hi; i++) body], also [RAJA::forall] over
    [RangeSegment(lo, hi)]. *)
Definition for_range (lo hi : Z) (body : Z -> St -> outcome St) (s : St)
  : outcome St :=
  iter_range (Z.to_nat (hi - lo)) lo body s.
End Loops.

(** ** Memory: Umpire allocations

    The resource manager is used through [allocate], [deallocate] and
    [copy].  An allocation is a block of cells in a named memory space; a
    pointer is the identity of its allocation, so two pointers alias exactly
    when they are equal.  Fresh memory is not initialised. *)

Inductive cells : Type :=
| IntCells (l : list (option Z))
| DblCells (l : list (option R)).

Record block : Type := {
  blk_space : string;
  blk_cells : cells
}.

Definition ptr : Type := nat.

(** A deallocated block stays in the heap as [None]. *)
Definition heap : Type := list (option block).

Definition lookup (h : heap) (p : ptr) : outcome block :=
  match nth_error h p with
  | Some (Some b) => Ok b
  | _ => Fault
  end.

(** The [int] array behind a pointer. *)
Definition ints (h : heap) (p : ptr) : outcome (list (option Z)) :=
  b <- lookup h p ;;
  match blk_cells b with
  | IntCells l => Ok l
  | DblCells _ => Fault
  end.

(** The [double] array behind a pointer. *)
Definition dbls (h : heap) (p : ptr) : outcome (list (option R)) :=
  b <- lookup h p ;;
  match blk_cells b with
  | DblCells l => Ok l
  | IntCells _ => Fault
  end.

(** Replaces the cells of a live block. *)
Definition put (h : heap) (p : ptr) (c : cells) : outcome heap :=
  b <- lookup h p ;;
  Ok (set_nth h p (Some {| blk_space := blk_space b; blk_cells := c |})).

(** [static_cast<int*>(alloc.allocate(n * sizeof(int)))]: a negative [n]
    wraps to a size no allocator serves. *)
Definition allocate_ints (space : string) (n : Z) (h : heap) : outcome (ptr * heap) :=
  if n <? 0 then Fault
  else Ok (length h,
           h ++ [Some {| blk_space := space;
                         blk_cells := IntCells (repeat None (Z.to_nat n)) |}]).

Definition allocate_dbls (space : string) (n : Z) (h : heap) : outcome (ptr * heap) :=
  if n <? 0 then Fault
  else Ok (length h,
           h ++ [Some {| blk_space := space;
                         blk_cells := DblCells (repeat None (Z.to_nat n)) |}]).

Definition deallocate (p : ptr) (h : heap) : outcome heap :=
  _ <- lookup h p ;;
  Ok (set_nth h p None).

(** [resmgr.copy(dst, src)]: the whole source allocation is copied to the
    start of the destination, which must be large enough and of the same
    element type. *)
Definition copy_cells {T : Type} (dst src : list T) : outcome (list T) :=
  if Nat.leb (length src) (length dst)
  then Ok (src ++ skipn (length src) dst)
  else Fault.

Definition copy (dst src : ptr) (h : heap) : outcome heap :=
  d <- lookup h dst ;;
  s <- lookup h src ;;
  match blk_cells d, blk_cells s with
  | IntCells ld, IntCells ls => l <- copy_cells ld ls ;; put h dst (IntCells l)
  | DblCells ld, DblCells ls => l <- copy_cells ld ls ;; put h dst (DblCells l)
  | _, _ => Fault
  end.

Definition load_int (h : heap) (p : ptr) (i : Z) : outcome Z :=
  a <- ints h p ;; rd_cell a i.

Definition load_dbl (h : heap) (p : ptr) (i : Z) : outcome R :=
  a <- dbls h p ;; rd_cell a i.

(** [assert(e)] where evaluating [e] reads memory: under [NDEBUG] the
    reads do not happen either. *)
Definition assert_m (cfg : build) (e : outcome bool) : outcome unit :=
  if NDEBUG cfg then Ok tt else b <- e ;; assert_ cfg b.

(** ** The objects *)

(** [hiopMatrixRajaSparseTriplet::RowStartsInfo]. *)
Record RowStartsInfo : Type := {
  num_rows_ : Z;
  rs_mem_space_ : string;
  idx_start_ : ptr
}.

(** [hiopMatrixRajaSparseTriplet]; [hiopMatrixRajaSymSparseTriplet] derives
    from it and adds no member.  [row_starts_host] is [None] for [NULL]. *)
Record hiopMatrixRajaSparseTriplet : Type := {
  nrows : Z;
  ncols : Z;
  nnz : Z;
  iRow_ : ptr;
  jCol_ : ptr;
  values_ : ptr;
  iRow_host_ : ptr;
  jCol_host_ : ptr;
  values_host_ : ptr;
  row_starts_host : option RowStartsInfo;
  mem_space_ : string
}.

(** The dense operand [hiopMatrixDense], seen through [m()], [n()] and
    [local_buffer()]: a flat row-major buffer. *)
Record hiopMatrixDense : Type := {
  W_m : Z;
  W_n : Z;
  local_buffer : list R
}.

(** [RAJA::View<double, RAJA::Layout<2>> WM(buffer, m, n)]: [WM(i, j)] is
    the cell [i * n + j] of the buffer; the view checks no bound. *)
Definition View (n i j : Z) : Z := i * n + j.

(** [WM(i, j) += v]. *)
Definition View_add (n : Z) (buf : list R) (i j : Z) (v : R) : outcome (list R) :=
  old <- rd buf (View n i j) ;;
  wr buf (View n i j) (old + v)%R.

Definition set_buffer (W : hiopMatrixDense) (buf : list R) : hiopMatrixDense :=
  {| W_m := W_m W; W_n := W_n W; local_buffer := buf |}.

(** ** hiopMatrixRajaSparseTriplet *)

(** The constructor.  The base [hiopMatrixSparse(rows, cols, _nnz)] stores
    the three sizes.  Every name is taken to be a registered allocator. *)
Definition new_hiopMatrixRajaSparseTriplet (cfg : build)
    (rows cols _nnz : Z) (memspace : string) (h : heap)
  : outcome (hiopMatrixRajaSparseTriplet * heap) :=
  nz <- (if (rows =? 0) || (cols =? 0)
         then _ <- assert_ cfg (_nnz =? 0) ;; Ok 0
         else Ok _nnz) ;;
  let mem_space := if HIOP_USE_GPU cfg then memspace else "HOST"%string in
  '(iRow, h1) <- allocate_ints mem_space nz h ;;
  '(jCol, h2) <- allocate_ints mem_space nz h1 ;;
  '(values, h3) <- allocate_dbls mem_space nz h2 ;;
  if String.eqb mem_space "DEVICE"
  then
    '(iRow_host, h4) <- allocate_ints "HOST" nz h3 ;;
    '(jCol_host, h5) <- allocate_ints "HOST" nz h4 ;;
    '(values_host, h6) <- allocate_dbls "HOST" nz h5 ;;
    Ok ({| nrows := rows; ncols := cols; nnz := nz;
           iRow_ := iRow; jCol_ := jCol; values_ := values;
           iRow_host_ := iRow_host; jCol_host_ := jCol_host;
           values_host_ := values_host;
           row_starts_host := None; mem_space_ := mem_space |}, h6)
  else
    Ok ({| nrows := rows; ncols := cols; nnz := nz;
           iRow_ := iRow; jCol_ := jCol; values_ := values;
           iRow_host_ := iRow; jCol_host_ := jCol; values_host_ := values;
           row_starts_host := None; mem_space_ := mem_space |}, h3).

Definition setToConstant (M : hiopMatrixRajaSparseTriplet) (c : R) (h : heap)
  : outcome heap :=
  dd <- dbls h (values_ M) ;;
  dd' <- for_range 0 (nnz M) (fun i dd => wr dd i (Some c)) dd ;;
  put h (values_ M) (DblCells dd').

Definition setToZero (M : hiopMatrixRajaSparseTriplet) (h : heap) : outcome heap :=
  setToConstant M 0%R h.

(** [timesVec(beta, y, alpha, x)] on raw buffers: [y] and [x] do not
    overlap. *)
Definition timesVec (cfg : build) (h : heap) (M : hiopMatrixRajaSparseTriplet)
    (beta : R) (y : list R) (alpha : R) (x : list R) : outcome (list R) :=
  y1 <- for_range 0 (nrows M)
          (fun i y => yi <- rd y i ;; wr y i (yi * beta)%R) y ;;
  for_range 0 (nnz M)
    (fun i y =>
       r <- load_int h (iRow_ M) i ;;
       _ <- assert_ cfg (r <? nrows M) ;;
       c <- load_int h (jCol_ M) i ;;
       _ <- assert_ cfg (c <? ncols M) ;;
       xc <- rd x c ;;
       v <- load_dbl h (values_ M) i ;;
       yr <- rd y r ;;
       wr y r (yr + alpha * xc * v)%R) y1.

Definition transTimesVec (cfg : build) (h : heap) (M : hiopMatrixRajaSparseTriplet)
    (beta : R) (y : list R) (alpha : R) (x : list R) : outcome (list R) :=
  y1 <- for_range 0 (ncols M)
          (fun i y => yi <- rd y i ;; wr y i (yi * beta)%R) y ;;
  for_range 0 (nnz M)
    (fun i y =>
       r <- load_int h (iRow_ M) i ;;
       _ <- assert_ cfg (r <? nrows M) ;;
       c <- load_int h (jCol_ M) i ;;
       _ <- assert_ cfg (c <? ncols M) ;;
       xr <- rd x r ;;
       v <- load_dbl h (values_ M) i ;;
       yc <- rd y c ;;
       wr y c (yc + alpha * xr * v)%R) y1.

Definition transAddToSymDenseMatrixUpperTriangle (cfg : build) (h : heap)
    (M : hiopMatrixRajaSparseTriplet) (row_start col_start : Z) (alpha : R)
    (W : hiopMatrixDense) : outcome hiopMatrixDense :=
  _ <- assert_ cfg ((0 <=? row_start) && (row_start + ncols M <=? W_m W)) ;;
  _ <- assert_ cfg ((0 <=? col_start) && (col_start + nrows M <=? W_n W)) ;;
  _ <- assert_ cfg (W_n W =? W_m W) ;;
  buf <- for_range 0 (nnz M)
           (fun it buf =>
              c <- load_int h (jCol_ M) it ;;
              r <- load_int h (iRow_ M) it ;;
              let i := c + row_start in
              let j := r + col_start in
              _ <- deep_assert cfg ((i <? W_m W) && (j <? W_n W)) ;;
              _ <- deep_assert cfg ((0 <=? i) && (0 <=? j)) ;;
              _ <- deep_assert cfg (i <=? j) ;;
              v <- load_dbl h (values_ M) it ;;
              View_add (W_n W) buf i j (alpha * v)%R)
           (local_buffer W) ;;
  Ok (set_buffer W buf).

Definition max_abs_value (h : heap) (M : hiopMatrixRajaSparseTriplet) : outcome R :=
  for_range 0 (nnz M)
    (fun i norm =>
       v <- load_dbl h (values_ M) i ;;
       Ok (Rmax norm (Rabs v)))
    0%R.

Definition copyToDev (M : hiopMatrixRajaSparseTriplet) (h : heap) : outcome heap :=
  if String.eqb (mem_space_ M) "DEVICE"
  then
    h1 <- copy (iRow_ M) (iRow_host_ M) h ;;
    h2 <- copy (jCol_ M) (jCol_host_ M) h1 ;;
    copy (values_ M) (values_host_ M) h2
  else Ok h.

Definition copyFromDev (M : hiopMatrixRajaSparseTriplet) (h : heap) : outcome heap :=
  if String.eqb (mem_space_ M) "DEVICE"
  then
    h1 <- copy (iRow_host_ M) (iRow_ M) h ;;
    h2 <- copy (jCol_host_ M) (jCol_ M) h1 ;;
    copy (values_host_ M) (values_ M) h2
  else Ok h.

(** *** The row-start index *)

Definition new_RowStartsInfo (n_rows : Z) (memspace : string) (h : heap)
  : outcome (RowStartsInfo * heap) :=
  '(p, h') <- allocate_ints memspace (n_rows + 1) h ;;
  Ok ({| num_rows_ := n_rows; rs_mem_space_ := memspace; idx_start_ := p |}, h').

Definition delete_RowStartsInfo (rsi : RowStartsInfo) (h : heap) : outcome heap :=
  deallocate (idx_start_ rsi) h.

(** The deep check inside the scan: the triplet at [it] continues the
    row-major order of the one before it. *)
Definition check_sorted_at (cfg : build) (h : heap)
    (M : hiopMatrixRajaSparseTriplet) (it : Z) : outcome unit :=
  if HIOP_DEEPCHECKS cfg then
    if 1 <=? it then
      _ <- assert_m cfg (p <- load_int h (iRow_host_ M) (it - 1) ;;
                         c <- load_int h (iRow_host_ M) it ;;
                         Ok (p <=? c)) ;;
      p <- load_int h (iRow_host_ M) (it - 1) ;;
      c <- load_int h (iRow_host_ M) it ;;
      if p =? c then
        assert_m cfg (pc <- load_int h (jCol_host_ M) (it - 1) ;;
                      cc <- load_int h (jCol_host_ M) it ;;
                      Ok (pc <? cc))
      else Ok tt
    else Ok tt
  else Ok tt.

(** [while (it_triplet < nnz && iRow_host_[it_triplet] == i - 1)]: the state
    is the cursor and the cells of the index under construction.  Each turn
    advances the cursor, so [nnz - it_triplet] turns are all there can be. *)
Fixpoint scan_row (cfg : build) (h : heap) (M : hiopMatrixRajaSparseTriplet)
    (fuel : nat) (i : Z) (it_triplet : Z) (idx : list (option Z))
  : outcome (Z * list (option Z)) :=
  match fuel with
  | O => Ok (it_triplet, idx)
  | S fuel' =>
      if it_triplet <? nnz M then
        r <- load_int h (iRow_host_ M) it_triplet ;;
        if r =? i - 1 then
          _ <- check_sorted_at cfg h M it_triplet ;;
          cur <- rd_cell idx i ;;
          idx' <- wr idx i (Some (cur + 1)) ;;
          scan_row cfg h M fuel' i (it_triplet + 1) idx'
        else Ok (it_triplet, idx)
      else Ok (it_triplet, idx)
  end.

(** One turn of [for (int i = 1; i <= nrows; i++)] in
    [allocAndBuildRowStarts]. *)
Definition build_row (cfg : build) (h : heap) (M : hiopMatrixRajaSparseTriplet)
    (i : Z) (st : Z * list (option Z)) : outcome (Z * list (option Z)) :=
  let '(it_triplet, idx) := st in
  prev <- rd_cell idx (i - 1) ;;
  idx' <- wr idx i (Some prev) ;;
  '(it', idx'') <-
     scan_row cfg h M (Z.to_nat (nnz M - it_triplet)) i it_triplet idx' ;;
  _ <- assert_m cfg (cur <- rd_cell idx'' i ;; Ok (cur =? it')) ;;
  Ok (it', idx'').

(** [allocAndBuildRowStarts].  The index is built in the cells of the
    fresh host block (nothing else points to it), stored, copied to the
    block in the matrix's memory space, and the host block is released. *)
Definition allocAndBuildRowStarts (cfg : build) (M : hiopMatrixRajaSparseTriplet)
    (h : heap) : outcome (RowStartsInfo * heap) :=
  _ <- assert_ cfg (0 <=? nrows M) ;;
  '(rsi, h1) <- new_RowStartsInfo (nrows M) "HOST" h ;;
  '(rsi_dev, h2) <- new_RowStartsInfo (nrows M) (mem_space_ M) h1 ;;
  if nrows M <=? 0 then
    h3 <- delete_RowStartsInfo rsi h2 ;;
    Ok (rsi_dev, h3)
  else
    idx0 <- ints h2 (idx_start_ rsi) ;;
    idx1 <- wr idx0 0 (Some 0) ;;
    '(it_triplet, idx) <- for_range 1 (nrows M + 1) (build_row cfg h2 M) (0, idx1) ;;
    _ <- assert_ cfg (it_triplet =? nnz M) ;;
    h3 <- put h2 (idx_start_ rsi) (IntCells idx) ;;
    h4 <- copy (idx_start_ rsi_dev) (idx_start_ rsi) h3 ;;
    h5 <- delete_RowStartsInfo rsi h4 ;;
    Ok (rsi_dev, h5).

(** [M.row_starts_host = rsi]. *)
Definition set_row_starts_host (M : hiopMatrixRajaSparseTriplet) (rsi : RowStartsInfo)
  : hiopMatrixRajaSparseTriplet :=
  {| nrows := nrows M; ncols := ncols M; nnz := nnz M;
     iRow_ := iRow_ M; jCol_ := jCol_ M; values_ := values_ M;
     iRow_host_ := iRow_host_ M; jCol_host_ := jCol_host_ M;
     values_host_ := values_host_ M;
     row_starts_host := Some rsi; mem_space_ := mem_space_ M |}.

(** [if (row_starts_host == NULL) row_starts_host = allocAndBuildRowStarts()]:
    the cache of the (logically const) matrix. *)
Definition prepareRowStarts (cfg : build) (M : hiopMatrixRajaSparseTriplet)
    (h : heap) : outcome (hiopMatrixRajaSparseTriplet * RowStartsInfo * heap) :=
  match row_starts_host M with
  | Some rsi => Ok (M, rsi, h)
  | None =>
      '(rsi, h') <- allocAndBuildRowStarts cfg M h ;;
      Ok (set_row_starts_host M rsi, rsi, h')
  end.

(** *** The weighted products *)

(** The merge-join [while (ki < end_i && kj < end_j)] over two row slices;
    [end_i] and [end_j] are the two limits the condition reads from the
    (unchanging) row-start indexes.  Each turn advances [ki] or [kj], so
    [(end_i - ki) + (end_j - kj)] turns are all there can be. *)
Fixpoint merge_join (cfg : build) (h : heap) (DM : list R)
    (jCol1 values1 : ptr) (nnz1 : Z) (jCol2 values2 : ptr) (nnz2 : Z)
    (jColD : ptr) (end_i end_j : Z)
    (fuel : nat) (ki kj : Z) (acc : R) : outcome R :=
  match fuel with
  | O => Ok acc
  | S fuel' =>
      if (ki <? end_i) && (kj <? end_j) then
        _ <- assert_ cfg (ki <? nnz1) ;;
        _ <- assert_ cfg (kj <? nnz2) ;;
        ci <- load_int h jCol1 ki ;;
        cj <- load_int h jCol2 kj ;;
        if ci =? cj then
          vi <- load_dbl h values1 ki ;;
          cd <- load_int h jColD ki ;;
          d <- rd DM cd ;;
          vj <- load_dbl h values2 kj ;;
          merge_join cfg h DM jCol1 values1 nnz1 jCol2 values2 nnz2 jColD
            end_i end_j fuel' (ki + 1) (kj + 1) (acc + vi / d * vj)%R
        else if ci <? cj then
          merge_join cfg h DM jCol1 values1 nnz1 jCol2 values2 nnz2 jColD
            end_i end_j fuel' (ki + 1) kj acc
        else
          merge_join cfg h DM jCol1 values1 nnz1 jCol2 values2 nnz2 jColD
            end_i end_j fuel' ki (kj + 1) acc
      else Ok acc
  end.

(** The whole loop, from its first test on: the first limit is read, the
    second one only when the first comparison holds. *)
Definition weighted_dotprod (cfg : build) (h : heap) (DM : list R)
    (jCol1 values1 : ptr) (nnz1 : Z) (idx1 : ptr)
    (jCol2 values2 : ptr) (nnz2 : Z) (idx2 : ptr)
    (jColD : ptr) (i j : Z) : outcome R :=
  ki <- load_int h idx1 i ;;
  kj <- load_int h idx2 j ;;
  end_i <- load_int h idx1 (i + 1) ;;
  if ki <? end_i then
    end_j <- load_int h idx2 (j + 1) ;;
    merge_join cfg h DM jCol1 values1 nnz1 jCol2 values2 nnz2 jColD end_i end_j
      (Z.to_nat ((end_i - ki) + (end_j - kj))) ki kj 0%R
  else Ok 0%R.

Definition addMDinvMtransToDiagBlockOfSymDeMatUTri (cfg : build)
    (M : hiopMatrixRajaSparseTriplet) (rowAndCol_dest_start : Z) (alpha : R)
    (D : list R) (W : hiopMatrixDense) (h : heap)
  : outcome (hiopMatrixRajaSparseTriplet * heap * hiopMatrixDense) :=
  let row_dest_start := rowAndCol_dest_start in
  let col_dest_start := rowAndCol_dest_start in
  _ <- assert_ cfg ((0 <=? row_dest_start) && (row_dest_start + nrows M <=? W_m W)) ;;
  _ <- assert_ cfg ((0 <=? col_dest_start) && (col_dest_start + nrows M <=? W_n W)) ;;
  _ <- assert_ cfg (Z.of_nat (length D) =? ncols M) ;;
  '(M', rsi, h') <- prepareRowStarts cfg M h ;;
  let idx_start := idx_start_ rsi in
  buf <- for_range 0 (nrows M)
           (fun i buf =>
              lo <- load_int h' idx_start i ;;
              hi <- load_int h' idx_start (i + 1) ;;
              acc <- for_range lo hi
                       (fun k acc =>
                          v <- load_dbl h' (values_ M) k ;;
                          c <- load_int h' (jCol_ M) k ;;
                          d <- rd D c ;;
                          Ok (acc + v / d * v)%R)
                       0%R ;;
              buf1 <- View_add (W_n W) buf (i + row_dest_start) (i + col_dest_start)
                        (alpha * acc)%R ;;
              for_range (i + 1) (nrows M)
                (fun j buf =>
                   acc <- weighted_dotprod cfg h' D
                            (jCol_ M) (values_ M) (nnz M) idx_start
                            (jCol_ M) (values_ M) (nnz M) idx_start
                            (jCol_ M) i j ;;
                   View_add (W_n W) buf (i + row_dest_start) (j + col_dest_start)
                     (alpha * acc)%R)
                buf1)
           (local_buffer W) ;;
  Ok (M', h', set_buffer W buf).

(** *** Calls that print

    [addMDinvNtransToSymDeMatUTri] writes to the standard output; what it
    has printed stays printed when the call stops at an assertion, so the
    output is threaded outside the [outcome]. *)

Definition io (A : Type) : Type := list string -> list string * outcome A.

Definition io_bind {A B : Type} (m : io A) (k : A -> io B) : io B :=
  fun out =>
    match m out with
    | (out', Ok a) => k a out'
    | (out', AssertFailed) => (out', AssertFailed)
    | (out', Fault) => (out', Fault)
    end.

Definition lift {A : Type} (o : outcome A) : io A := fun out => (out, o).

Definition printf (s : string) : io unit := fun out => (out ++ [s], Ok tt).

Fixpoint iter_range_io {St : Type} (n : nat) (i : Z) (body : Z -> St -> io St)
    (s : St) : io St :=
  match n with
  | O => lift (Ok s)
  | S n' => io_bind (body i s) (fun s' => iter_range_io n' (i + 1) body s')
  end.

Definition for_range_io {St : Type} (lo hi : Z) (body : Z -> St -> io St) (s : St)
  : io St :=
  iter_range_io (Z.to_nat (hi - lo)) lo body s.

Definition newline : string := String (Ascii.ascii_of_nat 10) EmptyString.

Definition lower_triangular_warning : string :=
  ("[warning] lower triangular element updated in addMDinvNtransToSymDeMatUTri"
     ++ newline)%string.

(** The body of the loop over [j] in [addMDinvNtransToSymDeMatUTri]: the
    entry [(i, j)] of the block. *)
Definition accumulate_pair (cfg : build) (h : heap) (D : list R)
    (M1 : hiopMatrixRajaSparseTriplet) (rsi1 : RowStartsInfo)
    (M2 : hiopMatrixRajaSparseTriplet) (rsi2 : RowStartsInfo)
    (W : hiopMatrixDense) (row_dest_start col_dest_start : Z) (alpha : R)
    (i j : Z) (buf : list R) : io (list R) :=
  io_bind (lift (weighted_dotprod cfg h D
                   (jCol_ M1) (values_ M1) (nnz M1) (idx_start_ rsi1)
                   (jCol_ M2) (values_ M2) (nnz M2) (idx_start_ rsi2)
                   (jCol_ M1) i j))
  (fun acc =>
  io_bind
    (if HIOP_DEEPCHECKS cfg then
       io_bind
         (if j + col_dest_start <? i + row_dest_start
          then printf lower_triangular_warning
          else lift (Ok tt))
         (fun _ =>
            lift (assert_ cfg (i + row_dest_start <=? j + col_dest_start)))
     else lift (Ok tt))
    (fun _ =>
       lift (View_add (W_n W) buf (i + row_dest_start)
               (j + col_dest_start) (alpha * acc)%R))).

(** [M2mat] is a [hiopMatrixRajaSparseTriplet] (the [dynamic_cast]
    succeeds) and an object other than [M1]. *)
Definition addMDinvNtransToSymDeMatUTri (cfg : build)
    (M1 : hiopMatrixRajaSparseTriplet) (row_dest_start col_dest_start : Z)
    (alpha : R) (D : list R) (M2 : hiopMatrixRajaSparseTriplet)
    (W : hiopMatrixDense) (h : heap)
  : io (hiopMatrixRajaSparseTriplet * hiopMatrixRajaSparseTriplet * heap
        * hiopMatrixDense) :=
  let m1 := nrows M1 in
  let nx := ncols M1 in
  let m2 := nrows M2 in
  io_bind (lift (
    _ <- assert_ cfg (nx =? ncols M2) ;;
    _ <- assert_ cfg (Z.of_nat (length D) =? nx) ;;
    _ <- assert_ cfg ((0 <=? row_dest_start) && (row_dest_start + m1 <=? W_m W)) ;;
    _ <- assert_ cfg ((0 <=? col_dest_start) && (col_dest_start + m2 <=? W_n W)) ;;
    '(M1', rsi1, h1) <- prepareRowStarts cfg M1 h ;;
    '(M2', rsi2, h2) <- prepareRowStarts cfg M2 h1 ;;
    Ok (M1', rsi1, M2', rsi2, h2)))
  (fun '(M1', rsi1, M2', rsi2, h2) =>
  io_bind
    (for_range_io 0 m1
       (fun i buf =>
          for_range_io 0 m2
            (accumulate_pair cfg h2 D M1 rsi1 M2 rsi2 W
               row_dest_start col_dest_start alpha i)
            buf)
       (local_buffer W))
    (fun buf => lift (Ok (M1', M2', h2, set_buffer W buf)))).

(** *** Release, copies and the order check *)

(** The destructor.  [delete row_starts_host] does nothing on [NULL]. *)
Definition delete_hiopMatrixRajaSparseTriplet (M : hiopMatrixRajaSparseTriplet)
    (h : heap) : outcome heap :=
  h0 <- match row_starts_host M with
        | Some rsi => delete_RowStartsInfo rsi h
        | None => Ok h
        end ;;
  h1 <- deallocate (iRow_ M) h0 ;;
  h2 <- deallocate (jCol_ M) h1 ;;
  h3 <- deallocate (values_ M) h2 ;;
  if String.eqb (mem_space_ M) "DEVICE"
  then
    h4 <- deallocate (iRow_host_ M) h3 ;;
    h5 <- deallocate (jCol_host_ M) h4 ;;
    deallocate (values_host_ M) h5
  else Ok h3.

(** [addToSymDenseMatrixUpperTriangle]: the loop reads the positions from
    [iRow_] and [jCol_] and the value from [values_host_]. *)
Definition addToSymDenseMatrixUpperTriangle (cfg : build) (h : heap)
    (M : hiopMatrixRajaSparseTriplet) (row_start col_start : Z) (alpha : R)
    (W : hiopMatrixDense) : outcome hiopMatrixDense :=
  _ <- assert_ cfg ((0 <=? row_start) && (row_start + nrows M <=? W_m W)) ;;
  _ <- assert_ cfg ((0 <=? col_start) && (col_start + ncols M <=? W_n W)) ;;
  _ <- assert_ cfg (W_n W =? W_m W) ;;
  buf <- for_range 0 (nnz M)
           (fun it buf =>
              r <- load_int h (iRow_ M) it ;;
              c <- load_int h (jCol_ M) it ;;
              let i := r + row_start in
              let j := c + col_start in
              _ <- deep_assert cfg ((i <? W_m W) && (j <? W_n W)) ;;
              _ <- deep_assert cfg ((0 <=? i) && (0 <=? j)) ;;
              _ <- deep_assert cfg (i <=? j) ;;
              v <- load_dbl h (values_host_ M) it ;;
              View_add (W_n W) buf i j (alpha * v)%R)
           (local_buffer W) ;;
  Ok (set_buffer W buf).

(** [for (int i = 1; i < nnz; i++)] of [checkIndexesAreOrdered], from the
    index [i] on, for [n] more turns: it returns at the first pair out of
    order. *)
Fixpoint ordered_from (h : heap) (M : hiopMatrixRajaSparseTriplet) (n : nat) (i : Z)
  : outcome bool :=
  match n with
  | O => Ok true
  | S n' =>
      ri <- load_int h (iRow_host_ M) i ;;
      rp <- load_int h (iRow_host_ M) (i - 1) ;;
      if ri <? rp then Ok false
      else if ri =? rp then
        ci <- load_int h (jCol_host_ M) i ;;
        cp <- load_int h (jCol_host_ M) (i - 1) ;;
        if ci <? cp then Ok false else ordered_from h M n' (i + 1)
      else ordered_from h M n' (i + 1)
  end.

(** [checkIndexesAreOrdered], compiled under [HIOP_DEEPCHECKS]: it refreshes
    the host mirror, which it then reads. *)
Definition checkIndexesAreOrdered (M : hiopMatrixRajaSparseTriplet) (h : heap)
  : outcome (bool * heap) :=
  h' <- copyFromDev M h ;;
  if nnz M =? 0 then Ok (true, h')
  else
    b <- ordered_from h' M (Z.to_nat (nnz M - 1)) 1 ;;
    Ok (b, h').

Definition alloc_clone (cfg : build) (M : hiopMatrixRajaSparseTriplet) (h : heap)
  : outcome (hiopMatrixRajaSparseTriplet * heap) :=
  new_hiopMatrixRajaSparseTriplet cfg (nrows M) (ncols M) (nnz M) (mem_space_ M) h.

(** [new_copy].  Under [HIOP_DEEPCHECKS] it starts with
    [assert(this->checkIndexesAreOrdered())], whose call (and effect on the
    host mirror) [NDEBUG] removes with the assertion. *)
Definition new_copy (cfg : build) (M : hiopMatrixRajaSparseTriplet) (h : heap)
  : outcome (hiopMatrixRajaSparseTriplet * heap) :=
  h0 <- (if HIOP_DEEPCHECKS cfg then
           if NDEBUG cfg then Ok h
           else
             '(b, h') <- checkIndexesAreOrdered M h ;;
             _ <- assert_ cfg b ;;
             Ok h'
         else Ok h) ;;
  '(cp, h1) <- new_hiopMatrixRajaSparseTriplet cfg (nrows M) (ncols M) (nnz M)
                 (mem_space_ M) h0 ;;
  h2 <- copy (iRow_ cp) (iRow_ M) h1 ;;
  h3 <- copy (jCol_ cp) (jCol_ M) h2 ;;
  h4 <- copy (values_ cp) (values_ M) h3 ;;
  h5 <- copy (iRow_host_ cp) (iRow_host_ M) h4 ;;
  h6 <- copy (jCol_host_ cp) (jCol_host_ M) h5 ;;
  h7 <- copy (values_host_ cp) (values_host_ M) h6 ;;
  Ok (cp, h7).

(** *** The overloads on [hiopVector]

    A vector is seen through [get_size()] and [local_data()]: a buffer of
    [get_size()] values.  Both casts to [hiopVectorRajaPar] succeed. *)

Definition get_size (v : list R) : Z := Z.of_nat (length v).

Module OnVectors.

Definition timesVec (cfg : build) (h : heap) (M : hiopMatrixRajaSparseTriplet)
    (beta : R) (y : list R) (alpha : R) (x : list R) : outcome (list R) :=
  _ <- assert_ cfg (get_size x =? ncols M) ;;
  _ <- assert_ cfg (get_size y =? nrows M) ;;
  timesVec cfg h M beta y alpha x.

Definition transTimesVec (cfg : build) (h : heap) (M : hiopMatrixRajaSparseTriplet)
    (beta : R) (y : list R) (alpha : R) (x : list R) : outcome (list R) :=
  _ <- assert_ cfg (get_size x =? nrows M) ;;
  _ <- assert_ cfg (get_size y =? ncols M) ;;
  transTimesVec cfg h M beta y alpha x.

End OnVectors.

(** *** Printing

    [print] writes through [fprintf]; each call is recorded with its
    stream, its format and its arguments, and what has been written stays
    written when a later access faults. *)

Inductive FILE : Type :=
| stdout
| opened (fd : nat).

Inductive fprintf_arg : Type :=
| arg_int (z : Z)
| arg_double (r : R)
| arg_string (s : string).

Definition fprintf_call : Type := FILE * string * list fprintf_arg.

Definition fio (A : Type) : Type :=
  list fprintf_call -> list fprintf_call * outcome A.

Definition fio_bind {A B : Type} (m : fio A) (k : A -> fio B) : fio B :=
  fun out =>
    match m out with
    | (out', Ok a) => k a out'
    | (out', AssertFailed) => (out', AssertFailed)
    | (out', Fault) => (out', Fault)
    end.

Definition fio_lift {A : Type} (o : outcome A) : fio A := fun out => (out, o).

Definition fprintf (file : FILE) (fmt : string) (args : list fprintf_arg) : fio unit :=
  fun out => (out ++ [(file, fmt, args)], Ok tt).

(** [for (int it = i; ...; it++) fprintf(file, fmt, item(it))], for [n]
    turns. *)
Fixpoint print_items (file : FILE) (fmt : string) (item : Z -> outcome fprintf_arg)
    (n : nat) (i : Z) : fio unit :=
  match n with
  | O => fio_lift (Ok tt)
  | S n' =>
      fio_bind (fio_lift (item i))
        (fun a =>
           fio_bind (fprintf file fmt [a])
             (fun _ => print_items file fmt item n' (i + 1)))
  end.

(** [print(file, msg, maxRows, maxCols, rank)]; [None] is [NULL].  The
    object is local: [myrank_] is 0 and [numranks] is 1. *)
Definition print (M : hiopMatrixRajaSparseTriplet) (file : option FILE)
    (msg : option string) (maxRows maxCols rank : Z) (h : heap) : fio heap :=
  let myrank_ := 0 in
  let numranks := 1 in
  fio_bind (fio_lift (copyFromDev M h))
    (fun h' =>
       let file := match file with None => stdout | Some f => f end in
       let max_elems := if 0 <=? maxRows then maxRows else nnz M in
       let max_elems := Z.min max_elems (nnz M) in
       if (myrank_ =? rank) || (rank =? -1) then
         fio_bind
           (match msg with
            | None =>
                if 1 <? numranks then
                  fprintf file
                    ("matrix of size %lld %lld and nonzeros %lld, printing %d elems (on rank=%d)"
                       ++ newline)
                    [arg_int (nrows M); arg_int (ncols M); arg_int (nnz M);
                     arg_int max_elems; arg_int myrank_]
                else
                  fprintf file
                    ("matrix of size %lld %lld and nonzeros %lld, printing %d elems"
                       ++ newline)
                    [arg_int (nrows M); arg_int (ncols M); arg_int (nnz M);
                     arg_int max_elems]
            | Some s => fprintf file "%s " [arg_string s]
            end)
           (fun _ =>
         fio_bind (fprintf file "iRow_host_=[" [])
           (fun _ =>
         fio_bind
           (print_items file "%d; "
              (fun it => r <- load_int h' (iRow_host_ M) it ;; Ok (arg_int (r + 1)))
              (Z.to_nat max_elems) 0)
           (fun _ =>
         fio_bind (fprintf file ("];" ++ newline) [])
           (fun _ =>
         fio_bind (fprintf file "jCol_host_=[" [])
           (fun _ =>
         fio_bind
           (print_items file "%d; "
              (fun it => c <- load_int h' (jCol_host_ M) it ;; Ok (arg_int (c + 1)))
              (Z.to_nat max_elems) 0)
           (fun _ =>
         fio_bind (fprintf file ("];" ++ newline) [])
           (fun _ =>
         fio_bind (fprintf file "v=[" [])
           (fun _ =>
         fio_bind
           (print_items file "%22.16e; "
              (fun it => v <- load_dbl h' (values_host_ M) it ;; Ok (arg_double v))
              (Z.to_nat max_elems) 0)
           (fun _ =>
         fio_bind (fprintf file ("];" ++ newline) [])
           (fun _ => fio_lift (Ok h')))))))))))
       else fio_lift (Ok h')).

(** ** hiopMatrixRajaSymSparseTriplet: only the upper triangle is stored *)

Module Sym.

Definition timesVec (cfg : build) (h : heap) (M : hiopMatrixRajaSparseTriplet)
    (beta : R) (y : list R) (alpha : R) (x : list R) : outcome (list R) :=
  _ <- assert_ cfg (ncols M =? nrows M) ;;
  y1 <- for_range 0 (nrows M)
          (fun i y => yi <- rd y i ;; wr y i (yi * beta)%R) y ;;
  for_range 0 (nnz M)
    (fun i y =>
       r <- load_int h (iRow_ M) i ;;
       _ <- assert_ cfg (r <? nrows M) ;;
       c <- load_int h (jCol_ M) i ;;
       _ <- assert_ cfg (c <? ncols M) ;;
       xc <- rd x c ;;
       v <- load_dbl h (values_ M) i ;;
       yr <- rd y r ;;
       y' <- wr y r (yr + alpha * xc * v)%R ;;
       if negb (r =? c) then
         xr <- rd x r ;;
         yr' <- rd y' r ;;
         wr y' r (yr' + alpha * xr * v)%R
       else Ok y') y1.

Definition transAddToSymDenseMatrixUpperTriangle (cfg : build) (h : heap)
    (M : hiopMatrixRajaSparseTriplet) (row_start col_start : Z) (alpha : R)
    (W : hiopMatrixDense) : outcome hiopMatrixDense :=
  _ <- assert_ cfg ((0 <=? row_start) && (row_start + ncols M <=? W_m W)) ;;
  _ <- assert_ cfg ((0 <=? col_start) && (col_start + nrows M <=? W_n W)) ;;
  _ <- assert_ cfg (W_n W =? W_m W) ;;
  buf <- for_range 0 (nnz M)
           (fun it buf =>
              r <- load_int h (iRow_ M) it ;;
              c <- load_int h (jCol_ M) it ;;
              _ <- assert_ cfg (r <=? c) ;;
              let i := r + row_start in
              let j := c + col_start in
              _ <- assert_ cfg ((i <? W_m W) && (j <? W_n W)) ;;
              _ <- assert_ cfg ((0 <=? i) && (0 <=? j)) ;;
              _ <- assert_ cfg (i <=? j) ;;
              v <- load_dbl h (values_ M) it ;;
              View_add (W_n W) buf j i (alpha * v)%R)
           (local_buffer W) ;;
  Ok (set_buffer W buf).

Section LocalSizes.

(** [get_local_size_m()] and [get_local_size_n()] of the dense matrix: the
    sizes of the part this process holds, which [hiopMatrixDense] above does
    not carry. *)
Variables get_local_size_m get_local_size_n : hiopMatrixDense -> Z.

Definition addToSymDenseMatrixUpperTriangle (cfg : build) (h : heap)
    (M : hiopMatrixRajaSparseTriplet) (row_start col_start : Z) (alpha : R)
    (W : hiopMatrixDense) : outcome hiopMatrixDense :=
  _ <- assert_ cfg ((0 <=? row_start) && (row_start + nrows M <=? W_m W)) ;;
  _ <- assert_ cfg ((0 <=? col_start) && (col_start + ncols M <=? W_n W)) ;;
  _ <- assert_ cfg (W_n W =? W_m W) ;;
  buf <- for_range 0 (nnz M)
           (fun it buf =>
              r <- load_int h (iRow_ M) it ;;
              c <- load_int h (jCol_ M) it ;;
              _ <- assert_ cfg (r <=? c) ;;
              let i := r + row_start in
              let j := c + col_start in
              _ <- assert_ cfg ((i <? W_m W) && (j <? W_n W)) ;;
              _ <- assert_ cfg ((0 <=? i) && (0 <=? j)) ;;
              _ <- assert_ cfg (i <=? j) ;;
              v <- load_dbl h (values_ M) it ;;
              View_add (get_local_size_n W) buf i j (alpha * v)%R)
           (local_buffer W) ;;
  Ok (set_buffer W buf).

End LocalSizes.



(** The overload of [timesVec] on [hiopVector]. *)
Module OnVectors.

Definition timesVec (cfg : build) (h : heap) (M : hiopMatrixRajaSparseTriplet)
    (beta : R) (y : list R) (alpha : R) (x : list R) : outcome (list R) :=
  _ <- assert_ cfg (ncols M =? nrows M) ;;
  _ <- assert_ cfg (get_size x =? ncols M) ;;
  _ <- assert_ cfg (get_size y =? nrows M) ;;
  timesVec cfg h M beta y alpha x.

End OnVectors.

End Sym.

(** ** MatrixTestsRajaSparseTriplet: the helpers that read a matrix

    The accessors [m()], [n()], [numberOfNonzeros()], [i_row_host()],
    [j_col_host()] and [M_host()] return the members [nrows], [ncols],
    [nnz], [iRow_host_], [jCol_host_] and [values_host_]; the cast of the
    argument to [hiopMatrixRajaSparseTriplet] succeeds. *)

Module MatrixTestsRajaSparseTriplet.

Definition getMatrixData (A : hiopMatrixRajaSparseTriplet) (h : heap)
  : outcome (ptr * heap) :=
  h' <- copyFromDev A h ;;
  Ok (values_host_ A, h').

Definition getRowIndices (A : hiopMatrixRajaSparseTriplet) (h : heap)
  : outcome (ptr * heap) :=
  h' <- copyFromDev A h ;;
  Ok (iRow_host_ A, h').

Definition getColumnIndices (A : hiopMatrixRajaSparseTriplet) (h : heap)
  : outcome (ptr * heap) :=
  h' <- copyFromDev A h ;;
  Ok (jCol_host_ A, h').

(** [new local_ordinal_type[n]] followed by [memset] to zero; a negative
    length is refused. *)
Definition new_zeroed (n : Z) : outcome (list Z) :=
  if n <? 0 then Fault else Ok (repeat 0 (Z.to_nat n)).

Definition numNonzerosPerRow (A : hiopMatrixRajaSparseTriplet) (h : heap)
  : outcome (list Z * heap) :=
  h' <- copyFromDev A h ;;
  sparsity_pattern <- new_zeroed (nrows A) ;;
  sparsity_pattern' <-
    for_range 0 (nnz A)
      (fun i sp =>
         r <- load_int h' (iRow_host_ A) i ;;
         cur <- rd sp r ;;
         wr sp r (cur + 1))
      sparsity_pattern ;;
  Ok (sparsity_pattern', h').

Definition numNonzerosPerCol (A : hiopMatrixRajaSparseTriplet) (h : heap)
  : outcome (list Z * heap) :=
  h' <- copyFromDev A h ;;
  sparsity_pattern <- new_zeroed (ncols A) ;;
  sparsity_pattern' <-
    for_range 0 (nnz A)
      (fun i sp =>
         c <- load_int h' (jCol_host_ A) i ;;
         cur <- rd sp c ;;
         wr sp c (cur + 1))
      sparsity_pattern ;;
  Ok (sparsity_pattern', h').

End MatrixTestsRajaSparseTriplet.

(** * Vocabulary of the properties

    The definitions below belong to the statements and the proofs, not to
    the program: what it means for the memory to hold a matrix, the sums the
    kernels are compared with, and the operands of the concrete scenarios. *)

(** ** Memory *)

Local Open Scope R_scope.

(** A block as [allocate] returns it: [n] cells, none of them written. *)
Definition fresh_int_block (space : string) (n : Z) : block :=
  {| blk_space := space; blk_cells := IntCells (repeat None (Z.to_nat n)) |}.

Definition fresh_dbl_block (space : string) (n : Z) : block :=
  {| blk_space := space; blk_cells := DblCells (repeat None (Z.to_nat n)) |}.

Definition fresh_ints (space : string) (n : Z) : option block :=
  Some (fresh_int_block space n).

Definition fresh_dbls (space : string) (n : Z) : option block :=
  Some (fresh_dbl_block space n).

(** The memory space the constructor settles on. *)
Definition effective_space (cfg : build) (memspace : string) : string :=
  if HIOP_USE_GPU cfg then memspace else "HOST"%string.

(** ** Triplets, and what the memory holds *)

Local Open Scope Z_scope.

(** A stored entry: row index, column index, value. *)
Definition triplet : Type := Z * Z * R.

Definition t_row (t : triplet) : Z := fst (fst t).

Definition t_col (t : triplet) : Z := snd (fst t).

Definition t_val (t : triplet) : R := snd t.

(** The device arrays of [M] hold the triplets [ts], in this order. *)
Definition stores (h : heap) (M : hiopMatrixRajaSparseTriplet) (ts : list triplet)
  : Prop :=
  nnz M = Z.of_nat (length ts) /\
  ints h (iRow_ M) = Ok (map Some (map t_row ts)) /\
  ints h (jCol_ M) = Ok (map Some (map t_col ts)) /\
  dbls h (values_ M) = Ok (map Some (map t_val ts)).

(** The host mirror of [M] holds the positions of [ts]. *)
Definition host_stores (h : heap) (M : hiopMatrixRajaSparseTriplet)
    (ts : list triplet) : Prop :=
  nnz M = Z.of_nat (length ts) /\
  ints h (iRow_host_ M) = Ok (map Some (map t_row ts)) /\
  ints h (jCol_host_ M) = Ok (map Some (map t_col ts)).

(** Every triplet lies inside the [nrows] x [ncols] shape. *)
Definition in_shape (M : hiopMatrixRajaSparseTriplet) (ts : list triplet) : Prop :=
  Forall (fun t => 0 <= t_row t < nrows M /\ 0 <= t_col t < ncols M) ts.

Local Open Scope R_scope.

(** The contents of the six arrays of [M]: the device arrays hold [dev],
    the host mirror holds [host], and the sizes agree pairwise. *)
Definition array_contents : Type :=
  list (option Z) * list (option Z) * list (option R).

(** The arrays of [M] have these contents in [h]. *)
Definition holds (h : heap) (M : hiopMatrixRajaSparseTriplet)
    (dev host : array_contents) : Prop :=
  let '(ir, jc, vs) := dev in
  let '(ir', jc', vs') := host in
  ints h (iRow_ M) = Ok ir /\ ints h (jCol_ M) = Ok jc /\
  dbls h (values_ M) = Ok vs /\
  ints h (iRow_host_ M) = Ok ir' /\ ints h (jCol_host_ M) = Ok jc' /\
  dbls h (values_host_ M) = Ok vs' /\
  length ir' = length ir /\ length jc' = length jc /\ length vs' = length vs.

(** The six pointers of [M] are six different allocations. *)
Definition independent_mirror (M : hiopMatrixRajaSparseTriplet) : Prop :=
  NoDup [iRow_ M; jCol_ M; values_ M; iRow_host_ M; jCol_host_ M; values_host_ M].

(** The host pointers of [M] are its device pointers. *)
Definition aliased_mirror (M : hiopMatrixRajaSparseTriplet) : Prop :=
  iRow_host_ M = iRow_ M /\ jCol_host_ M = jCol_ M /\ values_host_ M = values_ M.

(** ** Order and row offsets *)

Local Open Scope Z_scope.

(** Row-major order without repeated positions: by row, then by column. *)
Definition lex_lt (t u : triplet) : Prop :=
  t_row t < t_row u \/ (t_row t = t_row u /\ t_col t < t_col u).

(** Each triplet is before the next one in that order. *)
Definition row_major_sorted (ts : list triplet) : Prop := Sorted lex_lt ts.

Local Open Scope R_scope.

(** Strictly increasing columns. *)
Definition cols_increasing (l : list triplet) : Prop :=
  StronglySorted (fun t u => (t_col t < t_col u)%Z) l.

(** The triplets of row [i]. *)
Definition row_of (ts : list triplet) (i : Z) : list triplet :=
  filter (fun t => (t_row t =? i)%Z) ts.

Local Open Scope Z_scope.

(** The number of triplets whose row is below [i]. *)
Definition count_lt (ts : list triplet) (i : Z) : Z :=
  Z.of_nat (length (filter (fun t => t_row t <? i) ts)).

(** The offsets of the rows [0 .. n]. *)
Definition row_offsets (ts : list triplet) (n : nat) : list Z :=
  map (fun i => count_lt ts (Z.of_nat i)) (seq 0 (S n)).

(** The block that holds the finished index. *)
Definition index_block (M : hiopMatrixRajaSparseTriplet) (ts : list triplet)
  : option block :=
  Some {| blk_space := mem_space_ M;
          blk_cells := IntCells (map Some (row_offsets ts (Z.to_nat (nrows M)))) |}.

(** A cached index, when there is one, is the index of the triplets. *)
Definition cache_valid (h : heap) (M : hiopMatrixRajaSparseTriplet)
    (ts : list triplet) : Prop :=
  match row_starts_host M with
  | None => True
  | Some rsi =>
      1 <= nrows M ->
      ints h (idx_start_ rsi) = Ok (map Some (row_offsets ts (Z.to_nat (nrows M))))
  end.

(** ** Vectors *)

Local Open Scope R_scope.

(** [y[i] += v]. *)
Definition add_at (y : list R) (i : Z) (v : R) : list R :=
  set_nth y (Z.to_nat i) (nth (Z.to_nat i) y 0 + v).

(** Phase (a): [y[i] *= beta] for [i] in [[0, n)]. *)
Definition scale_prefix (n : Z) (beta : R) (y : list R) : list R :=
  map (fun v => v * beta) (firstn (Z.to_nat n) y) ++ skipn (Z.to_nat n) y.

(** Phase (b): for every triplet in turn,
    [y[tgt] += alpha * x[src] * value]. *)
Definition scatter_add (tgt src : triplet -> Z) (alpha : R) (x : list R)
    (ts : list triplet) (y : list R) : list R :=
  fold_left
    (fun y t => add_at y (tgt t) (alpha * nth (Z.to_nat (src t)) x 0 * t_val t))
    ts y.

(** What the scatter-add pass adds to the entry [i] of the output. *)
Definition contribution (tgt src : triplet -> Z) (alpha : R) (x : list R)
    (ts : list triplet) (i : Z) : R :=
  fold_right
    (fun t s =>
       (if (tgt t =? i)%Z then alpha * nth (Z.to_nat (src t)) x 0 * t_val t else 0) + s)
    0 ts.

(** The scatter-add pass of the symmetric [timesVec] as the code runs it:
    both terms of a triplet go to the entry of its row. *)
Definition sym_scatter_add (alpha : R) (x : list R) (ts : list triplet)
    (y : list R) : list R :=
  fold_left
    (fun y t =>
       let y1 := add_at y (t_row t) (alpha * nth (Z.to_nat (t_col t)) x 0 * t_val t) in
       if negb (t_row t =? t_col t)%Z
       then add_at y1 (t_row t) (alpha * nth (Z.to_nat (t_row t)) x 0 * t_val t)
       else y1)
    ts y.

(** What that pass adds to the entry [i]. *)
Definition sym_contribution (alpha : R) (x : list R) (ts : list triplet) (i : Z) : R :=
  fold_right
    (fun t s =>
       (if (t_row t =? i)%Z
        then alpha * nth (Z.to_nat (t_col t)) x 0 * t_val t
             + (if (t_row t =? t_col t)%Z then 0
                else alpha * nth (Z.to_nat (t_row t)) x 0 * t_val t)
        else 0) + s)
    0 ts.

(** The inner product of two vectors. *)
Fixpoint dot (u v : list R) : R :=
  match u, v with
  | a :: u', b :: v' => a * b + dot u' v'
  | _, _ => 0
  end.

(** The bilinear form of the stored triplets: the sum over the triplets of
    [u[tgt] * alpha * x[src] * value]. *)
Definition bilinear (tgt src : triplet -> Z) (alpha : R) (u x : list R)
    (ts : list triplet) : R :=
  fold_right
    (fun t s =>
       nth (Z.to_nat (tgt t)) u 0 * (alpha * nth (Z.to_nat (src t)) x 0 * t_val t) + s)
    0 ts.

(** The maximum of the absolute values, as the reduction computes it. *)
Definition max_abs (vs : list R) : R :=
  fold_left (fun norm v => Rmax norm (Rabs v)) vs 0.

(** ** Weighted products *)

(** [sum_{k < n} f k]. *)
Fixpoint Rsum (n : nat) (f : Z -> R) : R :=
  match n with
  | O => 0
  | S n' => Rsum n' f + f (Z.of_nat n')
  end.

(** The entry [(i, k)] of the matrix the triplets stand for (repeated
    positions add up; sorted triplets have none). *)
Definition entry (ts : list triplet) (i k : Z) : R :=
  fold_right
    (fun t s => (if ((t_row t =? i) && (t_col t =? k))%Z then t_val t else 0) + s)
    0 ts.

(** The entry [(i, j)] of [A D^-1 B^T]: the sum over the columns [k] of
    [A[i,k] / D[k] * B[j,k]]. *)
Definition weighted_product (A B : list triplet) (D : list R) (ncols : Z) (i j : Z)
  : R :=
  Rsum (Z.to_nat ncols)
    (fun k => entry A i k / nth (Z.to_nat k) D 0 * entry B j k).

(** The entry of column [k] in a list of triplets of one row. *)
Definition col_entry (l : list triplet) (k : Z) : R :=
  fold_right (fun t s => (if (t_col t =? k)%Z then t_val t else 0) + s) 0 l.

(** What one triplet [t] meets in the row [lj]. *)
Definition match_sum (D : list R) (t : triplet) (lj : list triplet) : R :=
  fold_right
    (fun u s =>
       (if (t_col t =? t_col u)%Z
        then t_val t / nth (Z.to_nat (t_col t)) D 0 * t_val u else 0) + s)
    0 lj.

(** The sum over the pairs of equal column of two rows. *)
Definition join_sum (D : list R) (li lj : list triplet) : R :=
  fold_right (fun t s => match_sum D t lj + s) 0 li.

(** ** Blocks of the dense matrix *)

Local Open Scope Z_scope.

(** The dense matrix is [m] x [n] and its buffer has [m * n] cells. *)
Definition dense_ok (W : hiopMatrixDense) : Prop :=
  0 <= W_m W /\ 0 <= W_n W /\ Z.of_nat (length (local_buffer W)) = W_m W * W_n W.

(** The buffer [buf] is [buf0] with [f a b] added to each entry [(a, b)]. *)
Definition updated (W : hiopMatrixDense) (f : Z -> Z -> R) (buf : list R) : Prop :=
  length buf = length (local_buffer W) /\
  forall a b, 0 <= a < W_m W -> 0 <= b < W_n W ->
    nth (Z.to_nat (View (W_n W) a b)) buf 0%R
    = (nth (Z.to_nat (View (W_n W) a b)) (local_buffer W) 0 + f a b)%R.

(** What the triplets add to the entry [(a, b)] when the triplet [t] is
    placed at the entry [pos t] with the factor [alpha]. *)
Definition placed (pos : triplet -> Z * Z) (alpha : R) (ts : list triplet)
    (a b : Z) : R :=
  fold_right
    (fun t s =>
       ((if (a =? fst (pos t)) && (b =? snd (pos t)) then alpha * t_val t else 0)
        + s)%R)
    0%R ts.

(** The entries written once the rows below [i] are done and, in row [i],
    the columns below [j]: a block at [d] of [nr] rows, upper triangle. *)
Definition written (d nr i j a b : Z) : bool :=
  (d <=? a) && (a <=? b) && (b <? d + nr)
  && ((a <? d + i) || ((a =? d + i) && (b <? d + j))).

(** The whole upper triangle of the block. *)
Definition in_upper_block (d nr a b : Z) : bool :=
  (d <=? a) && (a <=? b) && (b <? d + nr).

(** The entries of the full block written once the rows below [i] are
    done and, in row [i], the columns below [j]. *)
Definition written_full (rs cs m2 i j a b : Z) : bool :=
  (rs <=? a) && (cs <=? b) && (b <? cs + m2)
  && ((a <? rs + i) || ((a =? rs + i) && (b <? cs + j))).

(** The whole block: [m1] rows from [rs], [m2] columns from [cs]. *)
Definition in_block (rs cs m1 m2 a b : Z) : bool :=
  (rs <=? a) && (a <? rs + m1) && (cs <=? b) && (b <? cs + m2).

(** The pair [(i, j)] of the block lands strictly below the diagonal. *)
Definition lower (rs cs i j : Z) : bool := j + cs <? i + rs.

(** The number of such pairs among the first [j] of row [i]. *)
Fixpoint lower_in_row (rs cs i : Z) (j : nat) : nat :=
  match j with
  | O => O
  | S j' => (lower_in_row rs cs i j' + if lower rs cs i (Z.of_nat j') then 1 else 0)%nat
  end.

(** The number of such pairs in the first [i] rows of [m2] columns. *)
Fixpoint lower_in_rows (rs cs : Z) (m2 : nat) (i : nat) : nat :=
  match i with
  | O => O
  | S i' => (lower_in_rows rs cs m2 i' + lower_in_row rs cs (Z.of_nat i') m2)%nat
  end.

(** The warnings a build prints for [k] such pairs. *)
Definition warnings (cfg : build) (k : nat) : list string :=
  if HIOP_DEEPCHECKS cfg then repeat lower_triangular_warning k else [].

(** The operands of [addMDinvNtransToSymDeMatUTri] meet its preconditions:
    two sorted matrices in memory, whose host mirrors agree with the device
    arrays, over the same columns as [D], and a block that fits in [W]. *)
Definition operands_ok (h : heap) (M1 : hiopMatrixRajaSparseTriplet)
    (ts1 : list triplet) (M2 : hiopMatrixRajaSparseTriplet) (ts2 : list triplet)
    (D : list R) (W : hiopMatrixDense) (rs cs : Z) : Prop :=
  (stores h M1 ts1 /\ host_stores h M1 ts1 /\ row_major_sorted ts1 /\
   in_shape M1 ts1 /\ 0 <= nrows M1 /\ cache_valid h M1 ts1) /\
  (stores h M2 ts2 /\ host_stores h M2 ts2 /\ row_major_sorted ts2 /\
   in_shape M2 ts2 /\ 0 <= nrows M2 /\ cache_valid h M2 ts2) /\
  ncols M1 = ncols M2 /\ Z.of_nat (length D) = ncols M1 /\
  dense_ok W /\
  (0 <= rs /\ rs + nrows M1 <= W_m W) /\ (0 <= cs /\ cs + nrows M2 <= W_n W).

(** ** Loops on lists *)

(** The fold a loop over the indices of a list amounts to. *)
Fixpoint foldM {St T : Type} (step : T -> St -> outcome St) (l : list T) (s : St)
  : outcome St :=
  match l with
  | [] => Ok s
  | t :: l' => s' <- step t s ;; foldM step l' s'
  end.

Local Open Scope R_scope.

(** One turn of the scatter loop, on a triplet instead of an index. *)
Definition scatter_step (cfg : build) (M : hiopMatrixRajaSparseTriplet)
    (tgt src : triplet -> Z) (alpha : R) (x : list R) (t : triplet) (y : list R)
  : outcome (list R) :=
  _ <- assert_ cfg (t_row t <? nrows M)%Z ;;
  _ <- assert_ cfg (t_col t <? ncols M)%Z ;;
  xs <- rd x (src t) ;;
  yt <- rd y (tgt t) ;;
  wr y (tgt t) (yt + alpha * xs * t_val t).

(** ** Concrete scenarios *)

(** A release build with GPU support, and a debug build without. *)
Definition gpu_build : build :=
  {| HIOP_USE_GPU := true; HIOP_DEEPCHECKS := false; NDEBUG := true |}.

Definition debug_build : build :=
  {| HIOP_USE_GPU := false; HIOP_DEEPCHECKS := true; NDEBUG := false |}.

(** A matrix in the host space whose three arrays hold the given triplets:
    what the constructor and the assembler's writes leave. *)
Definition host_block (c : cells) : option block :=
  Some {| blk_space := "HOST"; blk_cells := c |}.

Definition host_heap (ts : list triplet) : heap :=
  [ host_block (IntCells (map Some (map t_row ts)));
    host_block (IntCells (map Some (map t_col ts)));
    host_block (DblCells (map Some (map t_val ts))) ].

Definition host_matrix (rows cols : Z) (ts : list triplet)
  : hiopMatrixRajaSparseTriplet :=
  {| nrows := rows; ncols := cols; nnz := Z.of_nat (length ts);
     iRow_ := 0%nat; jCol_ := 1%nat; values_ := 2%nat;
     iRow_host_ := 0%nat; jCol_host_ := 1%nat; values_host_ := 2%nat;
     row_starts_host := None; mem_space_ := "HOST" |}.

Local Open Scope Z_scope.

(** A second matrix in the host space, behind the first one. *)
Definition second_host_matrix (rows cols : Z) (ts : list triplet)
  : hiopMatrixRajaSparseTriplet :=
  {| nrows := rows; ncols := cols; nnz := Z.of_nat (length ts);
     iRow_ := 3%nat; jCol_ := 4%nat; values_ := 5%nat;
     iRow_host_ := 3%nat; jCol_host_ := 4%nat; values_host_ := 5%nat;
     row_starts_host := None; mem_space_ := "HOST" |}.

(** The 2x2 dense matrix of zeros. *)
Definition W22 : hiopMatrixDense :=
  {| W_m := 2; W_n := 2; local_buffer := [0; 0; 0; 0]%R |}.

Local Open Scope R_scope.

(** The 2x3 matrix with triplets (0,0,2), (0,2,3), (1,1,4). *)
Definition A23 : list triplet :=
  [(0%Z, 0%Z, 2); (0%Z, 2%Z, 3); (1%Z, 1%Z, 4)].

(** The symmetric 2x2 matrix with upper triangle (0,0,1), (0,1,2), (1,1,3). *)
Definition S22 : list triplet :=
  [(0%Z, 0%Z, 1); (0%Z, 1%Z, 2); (1%Z, 1%Z, 3)].

(** The symmetric 1x1 matrix with the single entry (0,0,1). *)
Definition S11 : list triplet := [(0%Z, 0%Z, 1)].

Local Open Scope Z_scope.

(** The one-row matrix [[a]]. *)
Definition A11 (a : R) : list triplet := [(0, 0, a)].

(** The diagonal matrix [diag(2, 3)]. *)
Definition D22 : list triplet := [(0, 0, 2%R); (1, 1, 3%R)].

(** The 3-row scenario: positions (0,0), (0,1), (1,2), (2,0). *)
Definition P34 (v0 v1 v2 v3 : R) : list triplet :=
  [(0, 0, v0); (0, 1, v1); (1, 2, v2); (2, 0, v3)].

Local Open Scope Z_scope.

(** ** Ownership *)

(** The allocations a matrix object owns: the cached index when there is
    one, the three device arrays and, in the space DEVICE, the three host
    arrays. *)
Definition owned (M : hiopMatrixRajaSparseTriplet) : list ptr :=
  (match row_starts_host M with
   | Some rsi => [idx_start_ rsi]
   | None => []
   end)
  ++ [iRow_ M; jCol_ M; values_ M]
  ++ (if String.eqb (mem_space_ M) "DEVICE"
      then [iRow_host_ M; jCol_host_ M; values_host_ M]
      else []).

(** The pointer is to a block that has not been released. *)
Definition live (h : heap) (p : ptr) : Prop := exists b, lookup h p = Ok b.

(** ** Order with repeated positions, and the state of the mirror *)

(** Row-major order that admits repeated positions. *)
Definition lex_le (t u : triplet) : Prop :=
  t_row t < t_row u \/ (t_row t = t_row u /\ t_col t <= t_col u).

(** Each triplet is at or before the next one in that order. *)
Definition row_major_ordered (ts : list triplet) : Prop := Sorted lex_le ts.

(** The comparisons of [checkIndexesAreOrdered], on the list. *)
Fixpoint ordered_b (ts : list triplet) : bool :=
  match ts with
  | [] => true
  | p :: tl =>
      match tl with
      | [] => true
      | t :: _ =>
          if t_row t <? t_row p then false
          else if t_row t =? t_row p then
            if t_col t <? t_col p then false else ordered_b tl
          else ordered_b tl
      end
  end.

(** The host mirror of [M] holds the values of [ts]. *)
Definition host_values (h : heap) (M : hiopMatrixRajaSparseTriplet)
    (ts : list triplet) : Prop :=
  dbls h (values_host_ M) = Ok (map Some (map t_val ts)).

(** The mirror as the constructor lays it out: in the space DEVICE three
    more arrays of [nnz] cells, elsewhere the device arrays themselves. *)
Definition mirror_ok (h : heap) (M : hiopMatrixRajaSparseTriplet) : Prop :=
  if String.eqb (mem_space_ M) "DEVICE"
  then independent_mirror M /\
       exists hr hc hv,
         ints h (iRow_host_ M) = Ok hr /\ ints h (jCol_host_ M) = Ok hc /\
         dbls h (values_host_ M) = Ok hv /\
         Z.of_nat (length hr) = nnz M /\ Z.of_nat (length hc) = nnz M /\
         Z.of_nat (length hv) = nnz M
  else aliased_mirror M.

(** The 2x2 matrix whose two entries are stored bottom row first. *)
Definition U22 : list triplet := [(1, 0, 1%R); (0, 0, 1%R)].

(** ** Positions of the device arrays with other values *)

(** The triplets at the positions of [ts] with the values [vs]. *)
Definition with_values (ts : list triplet) (vs : list R) : list triplet :=
  map (fun p => (t_row (fst p), t_col (fst p), snd p)) (combine ts vs).


(** A matrix in the space DEVICE: the device arrays hold [ts], the host
    mirror holds the positions of [ts] and the values [hv]. *)
Definition device_block (c : cells) : option block :=
  Some {| blk_space := "DEVICE"; blk_cells := c |}.

Definition mirrored_heap (ts : list triplet) (hv : list R) : heap :=
  [ device_block (IntCells (map Some (map t_row ts)));
    device_block (IntCells (map Some (map t_col ts)));
    device_block (DblCells (map Some (map t_val ts)));
    host_block (IntCells (map Some (map t_row ts)));
    host_block (IntCells (map Some (map t_col ts)));
    host_block (DblCells (map Some hv)) ].

Definition device_matrix (rows cols : Z) (ts : list triplet)
  : hiopMatrixRajaSparseTriplet :=
  {| nrows := rows; ncols := cols; nnz := Z.of_nat (length ts);
     iRow_ := 0%nat; jCol_ := 1%nat; values_ := 2%nat;
     iRow_host_ := 3%nat; jCol_host_ := 4%nat; values_host_ := 5%nat;
     row_starts_host := None; mem_space_ := "DEVICE" |}.

(** ** The diagonal window *)







(** ** Counting the entries of a row or a column *)

(** The number of triplets whose key (row or column) is [i]. *)
Definition count_key (key : triplet -> Z) (ts : list triplet) (i : Z) : Z :=
  Z.of_nat (length (filter (fun t => key t =? i) ts)).

(** [sp[i]++]. *)
Definition bump (sp : list Z) (i : Z) : list Z :=
  set_nth sp (Z.to_nat i) (nth (Z.to_nat i) sp 0 + 1).

(** ** What [print] writes *)

(** The number of entries [print] shows: [maxRows] of them, all of them
    when [maxRows] is negative, never more than there are. *)
Definition shown (M : hiopMatrixRajaSparseTriplet) (maxRows : Z) : Z :=
  Z.min (if 0 <=? maxRows then maxRows else nnz M) (nnz M).

(** The first call: the sizes, or the caller's message. *)
Definition print_header (M : hiopMatrixRajaSparseTriplet) (file : FILE)
    (msg : option string) (maxRows : Z) : fprintf_call :=
  match msg with
  | None =>
      (file,
       ("matrix of size %lld %lld and nonzeros %lld, printing %d elems" ++ newline)%string,
       [arg_int (nrows M); arg_int (ncols M); arg_int (nnz M);
        arg_int (shown M maxRows)])
  | Some s => (file, "%s "%string, [arg_string s])
  end.

(** One array: its name, one call for each item, the closing bracket. *)
Definition print_array (file : FILE) (name fmt : string)
    (item : triplet -> fprintf_arg) (ts : list triplet) : list fprintf_call :=
  [(file, name, [])]
  ++ map (fun t => (file, fmt, [item t])) ts
  ++ [(file, ("];" ++ newline)%string, [])].

(** All that a call on rank 0 or -1 writes. *)
Definition printed (M : hiopMatrixRajaSparseTriplet) (file : FILE)
    (msg : option string) (maxRows : Z) (ts : list triplet) : list fprintf_call :=
  let l := firstn (Z.to_nat (shown M maxRows)) ts in
  [print_header M file msg maxRows]
  ++ print_array file "iRow_host_=[" "%d; " (fun t => arg_int (t_row t + 1)) l
  ++ print_array file "jCol_host_=[" "%d; " (fun t => arg_int (t_col t + 1)) l
  ++ print_array file "v=[" "%22.16e; " (fun t => arg_double (t_val t)) l.

(** The stream written to. *)
Definition stream_of (file : option FILE) : FILE :=
  match file with
  | None => stdout
  | Some f => f
  end.

(** ** What the scan of the rows has seen *)

(** The first [k] triplets have rows in [[0, b)] that do not decrease and,
    where the deep check applies, are in strict row-major order. *)
Definition prefix_ordered (deep : bool) (ts : list triplet) (b : Z) (k : nat) : Prop :=
  (forall j t, (j < k)%nat -> nth_error ts j = Some t -> 0 <= t_row t < b) /\
  (forall j a c, (S j < k)%nat ->
      nth_error ts j = Some a -> nth_error ts (S j) = Some c ->
      t_row a <= t_row c /\ (deep = true -> lex_lt a c)).

(** * Properties *)

(** ** Arrays and loops *)

Lemma set_nth_length {T : Type} (a : list T) (n : nat) (v : T) :
  length (set_nth a n v) = length a.
Proof.
  revert n. induction a as [|x a IH]; intros [|n]; simpl; auto.
Qed.

Lemma nth_set_nth_same {T : Type} (a : list T) (n : nat) (v d : T) :
  (n < length a)%nat -> nth n (set_nth a n v) d = v.
Proof.
  revert n. induction a as [|x a IH]; intros [|n] Hn; simpl in *; try lia; auto.
  apply IH. lia.
Qed.

Lemma nth_set_nth_other {T : Type} (a : list T) (n k : nat) (v d : T) :
  k <> n -> nth k (set_nth a n v) d = nth k a d.
Proof.
  revert n k. induction a as [|x a IH]; intros [|n] [|k] Hk; simpl; auto; try lia.
Qed.

Lemma rd_nth {T : Type} (a : list T) (i : Z) (d : T) :
  0 <= i < Z.of_nat (length a) -> rd a i = Ok (nth (Z.to_nat i) a d).
Proof.
  intros Hi. unfold rd.
  destruct (Z.ltb_spec i 0); [lia|].
  destruct (nth_error a (Z.to_nat i)) eqn:E.
  - erewrite nth_error_nth; eauto.
  - apply nth_error_None in E. lia.
Qed.

Lemma rd_nth_error {T : Type} (a : list T) (k : nat) (t : T) :
  nth_error a k = Some t -> rd a (Z.of_nat k) = Ok t.
Proof.
  intros E. unfold rd.
  destruct (Z.ltb_spec (Z.of_nat k) 0); [lia|].
  rewrite Nat2Z.id, E. reflexivity.
Qed.

Lemma wr_set_nth {T : Type} (a : list T) (i : Z) (v : T) :
  0 <= i < Z.of_nat (length a) -> wr a i v = Ok (set_nth a (Z.to_nat i) v).
Proof.
  intros Hi. unfold wr.
  destruct (Z.ltb_spec i 0); [lia|].
  destruct (Nat.ltb_spec (Z.to_nat i) (length a)); [reflexivity|lia].
Qed.

Lemma rd_cell_map_Some {T : Type} (l : list T) (k : nat) (t : T) :
  nth_error l k = Some t -> rd_cell (map Some l) (Z.of_nat k) = Ok t.
Proof.
  intros E. unfold rd_cell.
  rewrite (rd_nth_error (map Some l) k (Some t)); [reflexivity|].
  rewrite nth_error_map, E. reflexivity.
Qed.

Lemma iter_range_foldM {St T : Type} (body : Z -> St -> outcome St)
    (step : T -> St -> outcome St) (l : list T) :
  forall (lo : nat) (s : St),
    (forall k t s', nth_error l k = Some t ->
                    body (Z.of_nat (lo + k)) s' = step t s') ->
    iter_range (length l) (Z.of_nat lo) body s = foldM step l s.
Proof.
  induction l as [|t l IH]; intros lo s Hbody; simpl; [reflexivity|].
  rewrite <- (Hbody 0%nat t s eq_refl), Nat.add_0_r.
  destruct (body (Z.of_nat lo) s) as [s'| |]; simpl; try reflexivity.
  replace (Z.of_nat lo + 1) with (Z.of_nat (S lo)) by lia.
  apply IH. intros k t' s'' E.
  rewrite <- (Hbody (S k) t' s'' E). f_equal. lia.
Qed.

Lemma for_range_foldM {St T : Type} (body : Z -> St -> outcome St)
    (step : T -> St -> outcome St) (l : list T) (hi : Z) (s : St) :
  hi = Z.of_nat (length l) ->
  (forall k t s', nth_error l k = Some t ->
                  body (Z.of_nat k) s' = step t s') ->
  for_range 0 hi body s = foldM step l s.
Proof.
  intros -> Hbody. unfold for_range.
  rewrite Z.sub_0_r, Nat2Z.id.
  apply (iter_range_foldM body step l 0%nat s). exact Hbody.
Qed.

(** ** What a matrix object stores *)

Section Stores.
Variables (h : heap) (M : hiopMatrixRajaSparseTriplet) (ts : list triplet).
Hypothesis Hst : stores h M ts.

Lemma load_row (k : nat) (t : triplet) :
  nth_error ts k = Some t -> load_int h (iRow_ M) (Z.of_nat k) = Ok (t_row t).
Proof.
  intros E. destruct Hst as (_ & Hr & _). unfold load_int. rewrite Hr. simpl.
  apply rd_cell_map_Some. rewrite nth_error_map, E. reflexivity.
Qed.

Lemma load_col (k : nat) (t : triplet) :
  nth_error ts k = Some t -> load_int h (jCol_ M) (Z.of_nat k) = Ok (t_col t).
Proof.
  intros E. destruct Hst as (_ & _ & Hc & _). unfold load_int. rewrite Hc. simpl.
  apply rd_cell_map_Some. rewrite nth_error_map, E. reflexivity.
Qed.

Lemma load_val (k : nat) (t : triplet) :
  nth_error ts k = Some t -> load_dbl h (values_ M) (Z.of_nat k) = Ok (t_val t).
Proof.
  intros E. destruct Hst as (_ & _ & _ & Hv). unfold load_dbl. rewrite Hv. simpl.
  apply rd_cell_map_Some. rewrite nth_error_map, E. reflexivity.
Qed.
End Stores.

(** ** Matrix-vector products *)

Local Open Scope R_scope.

Lemma set_nth_app {T : Type} (pre suf : list T) (v w : T) :
  set_nth (pre ++ v :: suf) (length pre) w = pre ++ w :: suf.
Proof. induction pre as [|p pre IH]; simpl; [reflexivity|now rewrite IH]. Qed.

Lemma scale_loop_aux (beta : R) (n : nat) :
  forall pre suf : list R,
    (n <= length suf)%nat ->
    iter_range n (Z.of_nat (length pre))
      (fun i y => yi <- rd y i ;; wr y i (yi * beta)) (pre ++ suf)
    = Ok (pre ++ map (fun v => v * beta) (firstn n suf) ++ skipn n suf).
Proof.
  induction n as [|n IH]; intros pre suf Hn; simpl; [reflexivity|].
  destruct suf as [|v suf]; simpl in Hn; [lia|].
  rewrite (rd_nth_error (pre ++ v :: suf) (length pre) v)
    by (rewrite nth_error_app2, Nat.sub_diag by lia; reflexivity).
  simpl. rewrite wr_set_nth by (rewrite length_app; simpl; lia).
  rewrite Nat2Z.id, set_nth_app. simpl.
  replace (Z.of_nat (length pre) + 1)%Z
    with (Z.of_nat (length (pre ++ [v * beta]))) by (rewrite length_app; simpl; lia).
  replace (pre ++ v * beta :: suf) with ((pre ++ [v * beta]) ++ suf)
    by (rewrite <- app_assoc; reflexivity).
  rewrite IH by lia. rewrite <- app_assoc. reflexivity.
Qed.

Lemma scale_loop (n : Z) (beta : R) (y : list R) :
  (n <= Z.of_nat (length y))%Z ->
  for_range 0 n (fun i y => yi <- rd y i ;; wr y i (yi * beta)) y
  = Ok (scale_prefix n beta y).
Proof.
  intros Hn. unfold for_range, scale_prefix. rewrite Z.sub_0_r.
  apply (scale_loop_aux beta (Z.to_nat n) [] y). lia.
Qed.

Lemma scale_prefix_length (n : Z) (beta : R) (y : list R) :
  length (scale_prefix n beta y) = length y.
Proof.
  unfold scale_prefix.
  rewrite length_app, length_map, <- length_app, firstn_skipn. reflexivity.
Qed.

Lemma nth_scale_prefix (n : Z) (beta : R) (y : list R) (i : nat) :
  nth i (scale_prefix n beta y) 0 =
  if (i <? Z.to_nat n)%nat then nth i y 0 * beta else nth i y 0.
Proof.
  unfold scale_prefix.
  destruct (Nat.lt_ge_cases i (length (firstn (Z.to_nat n) y))) as [Hl|Hl].
  - rewrite app_nth1 by (rewrite length_map; lia).
    rewrite (nth_indep _ 0 (0 * beta)) by (rewrite length_map; lia).
    rewrite (map_nth (fun v => v * beta)), nth_firstn.
    rewrite length_firstn in Hl.
    destruct (Nat.ltb_spec i (Z.to_nat n)); [reflexivity|lia].
  - rewrite app_nth2 by (rewrite length_map; lia).
    rewrite length_map, nth_skipn.
    rewrite length_firstn in *.
    destruct (Nat.ltb_spec i (Z.to_nat n)) as [Hi|Hi].
    + rewrite !nth_overflow by lia. lra.
    + destruct (Nat.le_gt_cases (Z.to_nat n) (length y)).
      * f_equal. lia.
      * rewrite !nth_overflow by lia. reflexivity.
Qed.

Lemma add_at_length (y : list R) (i : Z) (v : R) :
  length (add_at y i v) = length y.
Proof. apply set_nth_length. Qed.

Lemma scatter_add_length tgt src alpha x ts y :
  length (scatter_add tgt src alpha x ts y) = length y.
Proof.
  unfold scatter_add. revert y.
  induction ts as [|t ts IH]; intros y; simpl; [reflexivity|].
  rewrite IH. apply add_at_length.
Qed.

Lemma assert_true (cfg : build) : assert_ cfg true = Ok tt.
Proof. unfold assert_. destruct (NDEBUG cfg); reflexivity. Qed.

Lemma assert_holds (cfg : build) (b : bool) : b = true -> assert_ cfg b = Ok tt.
Proof. intros ->. apply assert_true. Qed.

Lemma scatter_fold cfg M tgt src alpha x ts :
  forall y,
    Forall (fun t => (t_row t < nrows M)%Z /\ (t_col t < ncols M)%Z /\
                     (0 <= src t < Z.of_nat (length x))%Z /\
                     (0 <= tgt t < Z.of_nat (length y))%Z) ts ->
    foldM (scatter_step cfg M tgt src alpha x) ts y
    = Ok (scatter_add tgt src alpha x ts y).
Proof.
  induction ts as [|t ts IH]; intros y Hts; simpl; [reflexivity|].
  inversion Hts as [|? ? (Hr & Hc & Hs & Ht) Hts']; subst.
  unfold scatter_step at 1.
  destruct (Z.ltb_spec (t_row t) (nrows M)); [|lia].
  destruct (Z.ltb_spec (t_col t) (ncols M)); [|lia].
  rewrite assert_true. simpl.
  rewrite (rd_nth x (src t) 0) by lia. simpl.
  rewrite (rd_nth y (tgt t) 0) by lia. simpl.
  rewrite wr_set_nth by lia. simpl.
  apply IH.
  eapply Forall_impl; [|exact Hts'].
  intros t' (? & ? & ? & ?). unfold add_at in *.
  rewrite set_nth_length. auto.
Qed.

Lemma scale_prefix_all (n : Z) (beta : R) (y : list R) :
  (Z.of_nat (length y) <= n)%Z -> scale_prefix n beta y = map (fun v => v * beta) y.
Proof.
  intros Hn. unfold scale_prefix.
  rewrite firstn_all2, skipn_all2 by lia. apply app_nil_r.
Qed.

Lemma in_shape_scatter (M : hiopMatrixRajaSparseTriplet) (ts : list triplet)
    (tgt src : triplet -> Z) (nx ny : nat) :
  in_shape M ts ->
  (forall t, (0 <= t_row t < nrows M)%Z -> (0 <= t_col t < ncols M)%Z ->
             (0 <= src t < Z.of_nat nx)%Z /\ (0 <= tgt t < Z.of_nat ny)%Z) ->
  Forall (fun t => (t_row t < nrows M)%Z /\ (t_col t < ncols M)%Z /\
                   (0 <= src t < Z.of_nat nx)%Z /\
                   (0 <= tgt t < Z.of_nat ny)%Z) ts.
Proof.
  intros Hsh Hb. eapply Forall_impl; [|exact Hsh].
  intros t (Hr & Hc). destruct (Hb t Hr Hc). intuition lia.
Qed.

(** [timesVec] is the scaling pass followed by the scatter-add pass. *)
Lemma timesVec_run cfg h M ts beta y alpha x :
  stores h M ts -> in_shape M ts ->
  (ncols M <= Z.of_nat (length x))%Z -> (nrows M <= Z.of_nat (length y))%Z ->
  timesVec cfg h M beta y alpha x
  = Ok (scatter_add t_row t_col alpha x ts (scale_prefix (nrows M) beta y)).
Proof.
  intros Hst Hsh Hx Hy. unfold timesVec.
  rewrite scale_loop by exact Hy. simpl.
  rewrite (for_range_foldM _ (scatter_step cfg M t_row t_col alpha x) ts).
  - apply scatter_fold.
    apply in_shape_scatter; [exact Hsh|].
    intros t Hr Hc. rewrite scale_prefix_length. lia.
  - apply Hst.
  - intros k t s E.
    rewrite (load_row h M ts Hst k t E), (load_col h M ts Hst k t E),
      (load_val h M ts Hst k t E).
    unfold scatter_step. simpl. reflexivity.
Qed.

Lemma transTimesVec_run cfg h M ts beta y alpha x :
  stores h M ts -> in_shape M ts ->
  (nrows M <= Z.of_nat (length x))%Z -> (ncols M <= Z.of_nat (length y))%Z ->
  transTimesVec cfg h M beta y alpha x
  = Ok (scatter_add t_col t_row alpha x ts (scale_prefix (ncols M) beta y)).
Proof.
  intros Hst Hsh Hx Hy. unfold transTimesVec.
  rewrite scale_loop by exact Hy. simpl.
  rewrite (for_range_foldM _ (scatter_step cfg M t_col t_row alpha x) ts).
  - apply scatter_fold.
    apply in_shape_scatter; [exact Hsh|].
    intros t Hr Hc. rewrite scale_prefix_length. lia.
  - apply Hst.
  - intros k t s E.
    rewrite (load_row h M ts Hst k t E), (load_col h M ts Hst k t E),
      (load_val h M ts Hst k t E).
    unfold scatter_step. simpl. reflexivity.
Qed.

(** ** The concrete scenarios *)

Lemma host_matrix_stores (rows cols : Z) (ts : list triplet) :
  stores (host_heap ts) (host_matrix rows cols ts) ts.
Proof. repeat split. Qed.

Ltac run :=
  cbv -[Rplus Rmult Rminus Ropp Rdiv Rinv IZR Rabs Rmax].

Ltac check_shape :=
  unfold in_shape;
  match goal with
  | |- Forall _ ?l => let l' := eval hnf in l in change l with l'
  end;
  repeat (apply Forall_cons; [unfold t_row, t_col; simpl; lia|]); apply Forall_nil.

Ltac by_cases_on_build cfg :=
  destruct cfg as [gpu deep [|]]; run.

(** C4. With [x] of length [ncols] and [y] of length [nrows], [timesVec]
    scales every [y[i]] by [beta] and then, for each triplet index [k] in
    turn, adds [alpha * x[col[k]] * value[k]] into [y[row[k]]];
    [transTimesVec] does the same with the roles of row and column
    exchanged.  For the 2x3 matrix (0,0,2), (0,2,3), (1,1,4) with [beta = 0]
    and [alpha = 1], [timesVec] on [x = [1,1,1]] gives [[5,4]] and
    [transTimesVec] on [x = [1,1]] gives [[2,4,3]]. *)
Theorem timesVec_transTimesVec_scatter_add :
  (forall cfg h M ts beta y alpha x,
      stores h M ts -> in_shape M ts ->
      Z.of_nat (length x) = ncols M -> Z.of_nat (length y) = nrows M ->
      timesVec cfg h M beta y alpha x
      = Ok (scatter_add t_row t_col alpha x ts (map (fun v => v * beta) y)))
  /\
  (forall cfg h M ts beta y alpha x,
      stores h M ts -> in_shape M ts ->
      Z.of_nat (length x) = nrows M -> Z.of_nat (length y) = ncols M ->
      transTimesVec cfg h M beta y alpha x
      = Ok (scatter_add t_col t_row alpha x ts (map (fun v => v * beta) y)))
  /\
  (forall cfg y0 y1,
      timesVec cfg (host_heap A23) (host_matrix 2 3 A23) 0 [y0; y1] 1 [1; 1; 1]
      = Ok [5; 4])
  /\
  (forall cfg y0 y1 y2,
      transTimesVec cfg (host_heap A23) (host_matrix 2 3 A23) 0 [y0; y1; y2] 1 [1; 1]
      = Ok [2; 4; 3]).
Proof.
  split; [|split; [|split]].
  - intros cfg h M ts beta y alpha x Hst Hsh Hx Hy.
    rewrite (timesVec_run cfg h M ts) by (assumption || lia).
    rewrite scale_prefix_all by lia. reflexivity.
  - intros cfg h M ts beta y alpha x Hst Hsh Hx Hy.
    rewrite (transTimesVec_run cfg h M ts) by (assumption || lia).
    rewrite scale_prefix_all by lia. reflexivity.
  - intros cfg y0 y1. by_cases_on_build cfg; repeat (f_equal; try lra).
  - intros cfg y0 y1 y2. by_cases_on_build cfg; repeat (f_equal; try lra).
Qed.

(** The general statement of C4 at the 2x3 scenario. *)
Lemma timesVec_transTimesVec_scatter_add_witness :
  let cfg := {| HIOP_USE_GPU := false; HIOP_DEEPCHECKS := true; NDEBUG := false |} in
  timesVec cfg (host_heap A23) (host_matrix 2 3 A23) 0 [7; 8] 1 [1; 1; 1]
  = Ok (scatter_add t_row t_col 1 [1; 1; 1] A23 (map (fun v => v * 0) [7; 8])).
Proof.
  apply (proj1 timesVec_transTimesVec_scatter_add).
  - apply host_matrix_stores.
  - check_shape.
  - reflexivity.
  - reflexivity.
Defined.

(** *** Entry by entry *)

Lemma nth_add_at (y : list R) (j i : Z) (v : R) :
  (0 <= j < Z.of_nat (length y))%Z -> (0 <= i)%Z ->
  nth (Z.to_nat i) (add_at y j v) 0 =
  nth (Z.to_nat i) y 0 + (if (j =? i)%Z then v else 0).
Proof.
  intros Hj Hi. unfold add_at.
  destruct (Z.eqb_spec j i) as [->|Hne].
  - rewrite nth_set_nth_same by lia. reflexivity.
  - rewrite nth_set_nth_other by lia. lra.
Qed.

Lemma nth_scatter_add tgt src alpha x ts (i : Z) :
  forall y,
    Forall (fun t => (0 <= tgt t < Z.of_nat (length y))%Z) ts -> (0 <= i)%Z ->
    nth (Z.to_nat i) (scatter_add tgt src alpha x ts y) 0
    = nth (Z.to_nat i) y 0 + contribution tgt src alpha x ts i.
Proof.
  unfold scatter_add.
  induction ts as [|t ts IH]; intros y Hts Hi; simpl; [lra|].
  inversion Hts as [|? ? Ht Hts']; subst.
  rewrite IH; [|
    eapply Forall_impl; [|exact Hts']; intros t'; rewrite add_at_length; auto
    |exact Hi].
  rewrite nth_add_at by assumption. lra.
Qed.

Lemma nth_scatter_add_beyond tgt src alpha x ts (k : nat) :
  forall y,
    Forall (fun t => (0 <= tgt t)%Z /\ (Z.to_nat (tgt t) < k)%nat) ts ->
    nth k (scatter_add tgt src alpha x ts y) 0 = nth k y 0.
Proof.
  unfold scatter_add.
  induction ts as [|t ts IH]; intros y Hts; simpl; [reflexivity|].
  inversion Hts as [|? ? Ht Hts']; subst.
  rewrite IH by exact Hts'.
  unfold add_at. apply nth_set_nth_other. lia.
Qed.

Lemma contribution_none tgt src alpha x ts (i : Z) :
  (forall t, In t ts -> tgt t <> i) -> contribution tgt src alpha x ts i = 0.
Proof.
  induction ts as [|t ts IH]; intros Hno; simpl; [reflexivity|].
  destruct (Z.eqb_spec (tgt t) i) as [E|_].
  - exfalso. apply (Hno t); [left; reflexivity|exact E].
  - rewrite IH; [lra|]. intros t' Ht'. apply Hno. right. exact Ht'.
Qed.

Lemma in_shape_rows M ts (n : nat) :
  in_shape M ts -> (nrows M <= Z.of_nat n)%Z ->
  Forall (fun t => (0 <= t_row t < Z.of_nat n)%Z) ts.
Proof.
  intros Hsh Hn. eapply Forall_impl; [|exact Hsh]. intros t (? & ?). lia.
Qed.

Lemma in_shape_cols M ts (n : nat) :
  in_shape M ts -> (ncols M <= Z.of_nat n)%Z ->
  Forall (fun t => (0 <= t_col t < Z.of_nat n)%Z) ts.
Proof.
  intros Hsh Hn. eapply Forall_impl; [|exact Hsh]. intros t (? & ?). lia.
Qed.

(** C10. Frame of [timesVec]: an entry [y[i]], [i] in [[0, nrows)], whose
    index is the row of no stored triplet ends as [beta] times its old
    value; with [nnz = 0] this holds of every [i] in [[0, nrows)]; the
    entries of the buffer from [nrows] on keep their values, and the buffer
    keeps its length. *)
Theorem timesVec_frame :
  forall cfg h M ts beta y alpha x,
    stores h M ts -> in_shape M ts ->
    (ncols M <= Z.of_nat (length x))%Z -> (nrows M <= Z.of_nat (length y))%Z ->
    exists y',
      timesVec cfg h M beta y alpha x = Ok y' /\
      length y' = length y /\
      (forall i, (0 <= i < nrows M)%Z ->
                 (forall t, In t ts -> t_row t <> i) ->
                 nth (Z.to_nat i) y' 0 = beta * nth (Z.to_nat i) y 0) /\
      (nnz M = 0%Z ->
       forall i, (0 <= i < nrows M)%Z ->
                 nth (Z.to_nat i) y' 0 = beta * nth (Z.to_nat i) y 0) /\
      (forall k : nat, (nrows M <= Z.of_nat k)%Z -> nth k y' 0 = nth k y 0).
Proof.
  intros cfg h M ts beta y alpha x Hst Hsh Hx Hy.
  eexists. split; [apply (timesVec_run cfg h M ts); assumption|].
  assert (Hrows : Forall (fun t => (0 <= t_row t <
              Z.of_nat (length (scale_prefix (nrows M) beta y)))%Z) ts).
  { rewrite scale_prefix_length. apply (in_shape_rows M); assumption. }
  assert (Hframe : forall i, (0 <= i < nrows M)%Z ->
            (forall t, In t ts -> t_row t <> i) ->
            nth (Z.to_nat i)
              (scatter_add t_row t_col alpha x ts (scale_prefix (nrows M) beta y)) 0
            = beta * nth (Z.to_nat i) y 0).
  { intros i Hi Hno.
    rewrite nth_scatter_add by (assumption || lia).
    rewrite contribution_none by exact Hno.
    rewrite nth_scale_prefix.
    destruct (Nat.ltb_spec (Z.to_nat i) (Z.to_nat (nrows M))); [lra|lia]. }
  split; [|split; [|split]].
  - rewrite scatter_add_length. apply scale_prefix_length.
  - exact Hframe.
  - intros Hnnz i Hi. apply Hframe; [exact Hi|].
    destruct Hst as (Hlen & _). destruct ts; [intros t []|].
    simpl in Hlen. lia.
  - intros k Hk.
    rewrite nth_scatter_add_beyond.
    + rewrite nth_scale_prefix.
      destruct (Nat.ltb_spec k (Z.to_nat (nrows M))); [lia|reflexivity].
    + eapply Forall_impl; [|exact Hsh]. intros t (? & ?). lia.
Qed.

(** C10 at the 2x3 matrix, in a buffer [y] one cell longer than [nrows]. *)
Lemma timesVec_frame_witness :
  let cfg := {| HIOP_USE_GPU := false; HIOP_DEEPCHECKS := true; NDEBUG := false |} in
  exists y',
    timesVec cfg (host_heap A23) (host_matrix 2 3 A23) 2 [7; 8; 9] 1 [1; 1; 1] = Ok y' /\
    length y' = 3%nat /\
    (forall i, (0 <= i < 2)%Z ->
               (forall t, In t A23 -> t_row t <> i) ->
               nth (Z.to_nat i) y' 0 = 2 * nth (Z.to_nat i) [7; 8; 9] 0) /\
    (nnz (host_matrix 2 3 A23) = 0%Z ->
     forall i, (0 <= i < 2)%Z ->
               nth (Z.to_nat i) y' 0 = 2 * nth (Z.to_nat i) [7; 8; 9] 0) /\
    (forall k : nat, (2 <= Z.of_nat k)%Z -> nth k y' 0 = nth k [7; 8; 9] 0).
Proof.
  apply (timesVec_frame _ (host_heap A23) (host_matrix 2 3 A23) A23).
  - apply host_matrix_stores.
  - check_shape.
  - simpl. lia.
  - simpl. lia.
Defined.

(** *** Adjointness *)

Lemma dot_set_nth (u : list R) :
  forall (y : list R) (n : nat) (w : R),
    (n < length y)%nat ->
    dot u (set_nth y n w) = dot u y + nth n u 0 * (w - nth n y 0).
Proof.
  induction u as [|a u IH]; intros y n w Hn.
  - destruct (set_nth y n w), y, n; simpl; lra.
  - destruct y as [|b y]; simpl in Hn; [lia|].
    destruct n as [|n]; simpl.
    + lra.
    + rewrite IH by lia. lra.
Qed.

Lemma dot_add_at (u y : list R) (i : Z) (v : R) :
  (0 <= i < Z.of_nat (length y))%Z ->
  dot u (add_at y i v) = dot u y + nth (Z.to_nat i) u 0 * v.
Proof.
  intros Hi. unfold add_at. rewrite dot_set_nth by lia. lra.
Qed.

Lemma dot_scale (u y : list R) (beta : R) :
  dot u (map (fun v => v * beta) y) = beta * dot u y.
Proof.
  revert y. induction u as [|a u IH]; intros [|b y]; simpl; try lra.
  rewrite IH. lra.
Qed.

Lemma dot_scatter_add tgt src alpha x u ts :
  forall y,
    Forall (fun t => (0 <= tgt t < Z.of_nat (length y))%Z) ts ->
    dot u (scatter_add tgt src alpha x ts y)
    = dot u y + bilinear tgt src alpha u x ts.
Proof.
  unfold scatter_add.
  induction ts as [|t ts IH]; intros y Hts; simpl; [lra|].
  inversion Hts as [|? ? Ht Hts']; subst.
  rewrite IH by
    (eapply Forall_impl; [|exact Hts']; intros t'; rewrite add_at_length; auto).
  rewrite dot_add_at by exact Ht. lra.
Qed.

Lemma bilinear_transpose alpha u x ts :
  bilinear t_row t_col alpha u x ts = bilinear t_col t_row alpha x u ts.
Proof.
  induction ts as [|t ts IH]; simpl; [reflexivity|]. rewrite IH. lra.
Qed.

(** C8. The scatter-add passes of [timesVec] and [transTimesVec] are
    adjoint.  With [A x] the result of [timesVec] for [alpha = 1],
    [beta = 0], and [A^T y] that of [transTimesVec], the inner product of
    [y] with [A x] equals that of [x] with [A^T y]; for any [alpha] and
    [beta] the two results agree once the scaled old contents are taken
    off. *)
Theorem timesVec_transTimesVec_adjoint :
  forall cfg h M ts alpha beta x y x0 y0,
    stores h M ts -> in_shape M ts ->
    Z.of_nat (length x) = ncols M -> Z.of_nat (length y) = nrows M ->
    Z.of_nat (length x0) = ncols M -> Z.of_nat (length y0) = nrows M ->
    (exists Ax Aty,
        timesVec cfg h M 0 y0 1 x = Ok Ax /\
        transTimesVec cfg h M 0 x0 1 y = Ok Aty /\
        dot y Ax = dot x Aty) /\
    (exists u w,
        timesVec cfg h M beta y0 alpha x = Ok u /\
        transTimesVec cfg h M beta x0 alpha y = Ok w /\
        dot y u - beta * dot y y0 = dot x w - beta * dot x x0).
Proof.
  intros cfg h M ts alpha beta x y x0 y0 Hst Hsh Hx Hy Hx0 Hy0.
  assert (Hgen : forall a b,
    exists u w,
      timesVec cfg h M b y0 a x = Ok u /\
      transTimesVec cfg h M b x0 a y = Ok w /\
      dot y u - b * dot y y0 = dot x w - b * dot x x0).
  { intros a b. do 2 eexists.
    split; [apply (timesVec_run cfg h M ts); assumption || lia|].
    split; [apply (transTimesVec_run cfg h M ts); assumption || lia|].
    rewrite !scale_prefix_all by lia.
    rewrite !dot_scatter_add.
    - rewrite !dot_scale, bilinear_transpose. lra.
    - rewrite length_map. apply (in_shape_cols M); [assumption|lia].
    - rewrite length_map. apply (in_shape_rows M); [assumption|lia]. }
  split; [|apply Hgen].
  destruct (Hgen 1 0) as (u & w & Hu & Hw & E).
  exists u, w. repeat split; try assumption. lra.
Qed.

(** C8 at the 2x3 matrix. *)
Lemma timesVec_transTimesVec_adjoint_witness :
  let cfg := {| HIOP_USE_GPU := false; HIOP_DEEPCHECKS := true; NDEBUG := false |} in
  let h := host_heap A23 in
  let M := host_matrix 2 3 A23 in
  (exists Ax Aty,
      timesVec cfg h M 0 [0; 0] 1 [1; 2; 3] = Ok Ax /\
      transTimesVec cfg h M 0 [0; 0; 0] 1 [4; 5] = Ok Aty /\
      dot [4; 5] Ax = dot [1; 2; 3] Aty) /\
  (exists u w,
      timesVec cfg h M 7 [0; 0] 6 [1; 2; 3] = Ok u /\
      transTimesVec cfg h M 7 [0; 0; 0] 6 [4; 5] = Ok w /\
      dot [4; 5] u - 7 * dot [4; 5] [0; 0]
      = dot [1; 2; 3] w - 7 * dot [1; 2; 3] [0; 0; 0]).
Proof.
  apply (timesVec_transTimesVec_adjoint _ (host_heap A23) (host_matrix 2 3 A23) A23).
  - apply host_matrix_stores.
  - check_shape.
  - reflexivity.
  - reflexivity.
  - reflexivity.
  - reflexivity.
Defined.

(** ** The symmetric matrix *)

(** C1. On the symmetric 2x2 matrix with upper triangle (0,0,1), (0,1,2),
    (1,1,3), with [x = [1,1]], [beta = 0] and [alpha = 1], the code returns
    [[5,3]]: the mirrored contribution of the off-diagonal triplet (0,1,2)
    is added into [y[0]], the row of the triplet, and not into [y[1]].  The
    symmetric product is [[3,5]]. *)
Theorem Sym_timesVec_mirror_lands_in_row :
  (forall cfg y0 y1,
      Sym.timesVec cfg (host_heap S22) (host_matrix 2 2 S22) 0 [y0; y1] 1 [1; 1]
      = Ok [5; 3])
  /\ [5; 3] <> [3; 5].
Proof.
  split.
  - intros cfg y0 y1. by_cases_on_build cfg; repeat (f_equal; try lra).
  - intros E. injection E as E _. lra.
Qed.

(** One turn of the symmetric scatter loop, on a triplet. *)
Lemma sym_scatter_fold cfg h M ts alpha x :
  stores h M ts -> in_shape M ts ->
  (ncols M <= Z.of_nat (length x))%Z -> (nrows M <= Z.of_nat (length x))%Z ->
  forall y,
    (nrows M <= Z.of_nat (length y))%Z ->
    for_range 0 (nnz M)
      (fun i y =>
         r <- load_int h (iRow_ M) i ;;
         _ <- assert_ cfg (r <? nrows M)%Z ;;
         c <- load_int h (jCol_ M) i ;;
         _ <- assert_ cfg (c <? ncols M)%Z ;;
         xc <- rd x c ;;
         v <- load_dbl h (values_ M) i ;;
         yr <- rd y r ;;
         y' <- wr y r (yr + alpha * xc * v) ;;
         if negb (r =? c)%Z then
           xr <- rd x r ;;
           yr' <- rd y' r ;;
           wr y' r (yr' + alpha * xr * v)
         else Ok y') y
    = Ok (sym_scatter_add alpha x ts y).
Proof.
  intros Hst Hsh Hxc Hxr y Hy.
  rewrite (for_range_foldM _
             (fun t y =>
                _ <- assert_ cfg (t_row t <? nrows M)%Z ;;
                _ <- assert_ cfg (t_col t <? ncols M)%Z ;;
                xc <- rd x (t_col t) ;;
                yr <- rd y (t_row t) ;;
                y' <- wr y (t_row t) (yr + alpha * xc * t_val t) ;;
                if negb (t_row t =? t_col t)%Z then
                  xr <- rd x (t_row t) ;;
                  yr' <- rd y' (t_row t) ;;
                  wr y' (t_row t) (yr' + alpha * xr * t_val t)
                else Ok y') ts).
  - unfold sym_scatter_add. clear Hst. revert y Hy.
    induction Hsh as [|t ts (Hr & Hc) _ IH]; intros y Hy; [reflexivity|].
    cbn [foldM fold_left].
    destruct (Z.ltb_spec (t_row t) (nrows M)); [|lia].
    destruct (Z.ltb_spec (t_col t) (ncols M)); [|lia].
    rewrite assert_true. cbn [bind].
    rewrite (rd_nth x (t_col t) 0) by lia. cbn [bind].
    rewrite (rd_nth y (t_row t) 0) by lia. cbn [bind].
    rewrite wr_set_nth by lia. cbn [bind].
    fold (add_at y (t_row t) (alpha * nth (Z.to_nat (t_col t)) x 0 * t_val t)).
    set (y1 := add_at y (t_row t) (alpha * nth (Z.to_nat (t_col t)) x 0 * t_val t)).
    assert (Hy1 : length y1 = length y) by apply add_at_length.
    destruct (negb (t_row t =? t_col t)%Z).
    + rewrite (rd_nth x (t_row t) 0) by lia. cbn [bind].
      rewrite (rd_nth y1 (t_row t) 0) by lia. cbn [bind].
      rewrite wr_set_nth by lia. cbn [bind].
      fold (add_at y1 (t_row t) (alpha * nth (Z.to_nat (t_row t)) x 0 * t_val t)).
      apply IH. rewrite add_at_length. lia.
    + apply IH. lia.
  - apply Hst.
  - intros k t s E.
    rewrite (load_row h M ts Hst k t E), (load_col h M ts Hst k t E),
      (load_val h M ts Hst k t E).
    reflexivity.
Qed.

Lemma sym_scatter_add_length alpha x ts :
  forall y, length (sym_scatter_add alpha x ts y) = length y.
Proof.
  unfold sym_scatter_add.
  induction ts as [|t ts IH]; intros y; cbn [fold_left]; [reflexivity|].
  rewrite IH. destruct (negb (t_row t =? t_col t)%Z); rewrite ?add_at_length; reflexivity.
Qed.

Lemma nth_sym_scatter_add alpha x ts (i : Z) :
  forall y,
    Forall (fun t => (0 <= t_row t < Z.of_nat (length y))%Z) ts -> (0 <= i)%Z ->
    nth (Z.to_nat i) (sym_scatter_add alpha x ts y) 0
    = nth (Z.to_nat i) y 0 + sym_contribution alpha x ts i.
Proof.
  unfold sym_scatter_add.
  induction ts as [|t ts IH]; intros y Hts Hi; cbn [fold_left]; [simpl; lra|].
  inversion Hts as [|? ? Ht Hts']; subst.
  cbn [sym_contribution fold_right]. fold (sym_contribution alpha x ts i).
  destruct (Z.eqb_spec (t_row t) (t_col t)) as [Heq|Hne]; cbn [negb].
  - rewrite IH; [|eapply Forall_impl; [|exact Hts'];
                  intros t'; rewrite add_at_length; auto|exact Hi].
    rewrite nth_add_at by assumption.
    destruct (t_row t =? i)%Z; lra.
  - rewrite IH; [|eapply Forall_impl; [|exact Hts'];
                  intros t'; rewrite !add_at_length; auto|exact Hi].
    rewrite !nth_add_at by (rewrite ?add_at_length; assumption).
    destruct (t_row t =? i)%Z; lra.
Qed.

(** X2. The symmetric [timesVec] in general: after the scaling pass, both
    terms of every stored triplet [(r, c, v)], [alpha * x[c] * v] and, when
    [r <> c], [alpha * x[r] * v], are added into [y[r]]; the entry [y[i]]
    receives nothing from the triplets of another row, also from those of
    column [i]. *)
Theorem Sym_timesVec_adds_both_terms_to_the_row :
  forall cfg h M ts beta y alpha x,
    stores h M ts -> in_shape M ts -> ncols M = nrows M ->
    Z.of_nat (length x) = ncols M -> Z.of_nat (length y) = nrows M ->
    exists y',
      Sym.timesVec cfg h M beta y alpha x = Ok y' /\
      length y' = length y /\
      forall i, (0 <= i < nrows M)%Z ->
        nth (Z.to_nat i) y' 0
        = nth (Z.to_nat i) y 0 * beta + sym_contribution alpha x ts i.
Proof.
  intros cfg h M ts beta y alpha x Hst Hsh Hsq Hx Hy.
  exists (sym_scatter_add alpha x ts (scale_prefix (nrows M) beta y)).
  split; [|split].
  - unfold Sym.timesVec.
    rewrite assert_holds by (apply Z.eqb_eq; exact Hsq). cbn [bind].
    rewrite scale_loop by lia. cbn [bind].
    apply sym_scatter_fold; try assumption; rewrite ?scale_prefix_length; lia.
  - rewrite sym_scatter_add_length. apply scale_prefix_length.
  - intros i Hi.
    rewrite nth_sym_scatter_add;
      [|rewrite scale_prefix_length; apply (in_shape_rows M); [assumption|lia]|lia].
    rewrite nth_scale_prefix.
    destruct (Nat.ltb_spec (Z.to_nat i) (Z.to_nat (nrows M))); [reflexivity|lia].
Qed.

(** X2 at the symmetric 2x2 scenario. *)
Lemma Sym_timesVec_adds_both_terms_to_the_row_witness :
  exists y',
    Sym.timesVec debug_build (host_heap S22) (host_matrix 2 2 S22) 0 [7; 8] 1 [1; 1]
    = Ok y' /\
    length y' = 2%nat /\
    forall i, (0 <= i < 2)%Z ->
      nth (Z.to_nat i) y' 0
      = nth (Z.to_nat i) [7; 8] 0 * 0 + sym_contribution 1 [1; 1] S22 i.
Proof.
  apply (Sym_timesVec_adds_both_terms_to_the_row debug_build
           (host_heap S22) (host_matrix 2 2 S22) S22 0 [7; 8] 1 [1; 1]).
  - apply host_matrix_stores.
  - check_shape.
  - reflexivity.
  - reflexivity.
  - reflexivity.
Defined.

(** C2. On the symmetric 1x1 matrix [(0,0,1)], a 2x2 destination,
    [row_start = 0] and [col_start = 1], the symmetric
    [transAddToSymDenseMatrixUpperTriangle] adds [alpha] to the entry of
    row [col + col_start = 1] and column [row + row_start = 0] (below the
    diagonal), where the general one adds it to the entry of row
    [col + row_start = 0] and column [row + col_start = 1]. *)
Theorem Sym_transAdd_swaps_the_offsets :
  forall cfg alpha w00 w01 w10 w11,
    let W := {| W_m := 2; W_n := 2; local_buffer := [w00; w01; w10; w11] |} in
    Sym.transAddToSymDenseMatrixUpperTriangle cfg (host_heap S11)
      (host_matrix 1 1 S11) 0 1 alpha W
    = Ok (set_buffer W [w00; w01; w10 + alpha * 1; w11])
    /\
    transAddToSymDenseMatrixUpperTriangle cfg (host_heap S11)
      (host_matrix 1 1 S11) 0 1 alpha W
    = Ok (set_buffer W [w00; w01 + alpha * 1; w10; w11]).
Proof.
  intros cfg alpha w00 w01 w10 w11 W. subst W.
  split; destruct cfg as [gpu [|] [|]]; reflexivity.
Qed.

(** ** Heap lemmas *)

Lemma lookup_lt (h : heap) (p : ptr) (b : block) :
  lookup h p = Ok b -> (p < length h)%nat.
Proof.
  unfold lookup. intros E.
  destruct (nth_error h p) eqn:En; [|discriminate].
  apply nth_error_Some. congruence.
Qed.

Lemma lookup_app_l (h h' : heap) (p : ptr) :
  (p < length h)%nat -> lookup (h ++ h') p = lookup h p.
Proof. intros Hp. unfold lookup. rewrite nth_error_app1 by exact Hp. reflexivity. Qed.

Lemma lookup_app_r (h h' : heap) (k : nat) :
  lookup (h ++ h') (length h + k)%nat = lookup h' k.
Proof.
  unfold lookup. rewrite nth_error_app2 by lia.
  replace (length h + k - length h)%nat with k by lia. reflexivity.
Qed.

Lemma nth_error_set_nth {T : Type} (a : list T) (n k : nat) (v : T) :
  (n < length a)%nat ->
  nth_error (set_nth a n v) k = if (k =? n)%nat then Some v else nth_error a k.
Proof.
  revert n k. induction a as [|x a IH]; intros [|n] [|k] Hn; simpl in *;
    try lia; try reflexivity.
  apply IH. lia.
Qed.

Lemma lookup_set_nth (h : heap) (p q : ptr) (ob : option block) :
  (p < length h)%nat ->
  lookup (set_nth h p ob) q =
  if (q =? p)%nat then match ob with Some b => Ok b | None => Fault end
  else lookup h q.
Proof.
  intros Hp. unfold lookup. rewrite nth_error_set_nth by exact Hp.
  destruct (q =? p)%nat; reflexivity.
Qed.

Lemma ints_lt (h : heap) (p : ptr) l : ints h p = Ok l -> (p < length h)%nat.
Proof.
  unfold ints. destruct (lookup h p) eqn:E; simpl; try discriminate.
  intros _. eapply lookup_lt; eauto.
Qed.

Lemma dbls_lt (h : heap) (p : ptr) l : dbls h p = Ok l -> (p < length h)%nat.
Proof.
  unfold dbls. destruct (lookup h p) eqn:E; simpl; try discriminate.
  intros _. eapply lookup_lt; eauto.
Qed.

Lemma ints_app_l (h h' : heap) (p : ptr) l :
  ints h p = Ok l -> ints (h ++ h') p = Ok l.
Proof.
  intros E. pose proof (ints_lt _ _ _ E). unfold ints in *.
  rewrite lookup_app_l by assumption. exact E.
Qed.

Lemma dbls_app_l (h h' : heap) (p : ptr) l :
  dbls h p = Ok l -> dbls (h ++ h') p = Ok l.
Proof.
  intros E. pose proof (dbls_lt _ _ _ E). unfold dbls in *.
  rewrite lookup_app_l by assumption. exact E.
Qed.

Lemma put_dbls (h : heap) (p : ptr) (old new : list (option R)) :
  dbls h p = Ok old ->
  exists h', put h p (DblCells new) = Ok h' /\
             dbls h' p = Ok new /\
             length h' = length h /\
             (forall q, q <> p -> lookup h' q = lookup h q).
Proof.
  intros E. pose proof (dbls_lt _ _ _ E) as Hp.
  unfold dbls, put in *.
  destruct (lookup h p) as [b| |] eqn:El; simpl in *; try discriminate.
  eexists. split; [reflexivity|]. repeat split.
  - rewrite lookup_set_nth by exact Hp. rewrite Nat.eqb_refl. reflexivity.
  - apply set_nth_length.
  - intros q Hq. rewrite lookup_set_nth by exact Hp.
    destruct (Nat.eqb_spec q p); [contradiction|reflexivity].
Qed.

(** ** [setToConstant] and [max_abs_value] *)

Lemma fill_loop_aux {T : Type} (c : T) (n : nat) :
  forall pre suf : list T,
    (n <= length suf)%nat ->
    iter_range n (Z.of_nat (length pre)) (fun i dd => wr dd i c) (pre ++ suf)
    = Ok (pre ++ repeat c n ++ skipn n suf).
Proof.
  induction n as [|n IH]; intros pre suf Hn; simpl; [reflexivity|].
  destruct suf as [|v suf]; simpl in Hn; [lia|].
  rewrite wr_set_nth by (rewrite length_app; simpl; lia).
  rewrite Nat2Z.id, set_nth_app. simpl.
  replace (Z.of_nat (length pre) + 1)%Z
    with (Z.of_nat (length (pre ++ [c]))) by (rewrite length_app; simpl; lia).
  replace (pre ++ c :: suf) with ((pre ++ [c]) ++ suf)
    by (rewrite <- app_assoc; reflexivity).
  rewrite IH by lia. rewrite <- app_assoc. reflexivity.
Qed.

Lemma fill_loop {T : Type} (c : T) (n : Z) (dd : list T) :
  Z.of_nat (length dd) = n ->
  for_range 0 n (fun i dd => wr dd i c) dd = Ok (repeat c (length dd)).
Proof.
  intros Hn. unfold for_range. rewrite Z.sub_0_r, <- Hn, Nat2Z.id.
  pose proof (fill_loop_aux c (length dd) [] dd (le_n _)) as H.
  simpl in H. rewrite H, skipn_all, app_nil_r. reflexivity.
Qed.

Lemma foldM_pure {St T : Type} (f : St -> T -> St) (l : list T) :
  forall s, foldM (fun t s => Ok (f s t)) l s = Ok (fold_left f l s).
Proof. induction l as [|t l IH]; intros s; simpl; [reflexivity|apply IH]. Qed.

Lemma max_abs_value_run (h : heap) (M : hiopMatrixRajaSparseTriplet) (vs : list R) :
  dbls h (values_ M) = Ok (map Some vs) -> nnz M = Z.of_nat (length vs) ->
  max_abs_value h M = Ok (max_abs vs).
Proof.
  intros Hv Hn. unfold max_abs_value.
  rewrite (for_range_foldM _ (fun v norm => Ok (Rmax norm (Rabs v))) vs) by
    (try exact Hn; intros k t s E; unfold load_dbl; rewrite Hv; simpl;
     rewrite (rd_cell_map_Some vs k t E); reflexivity).
  apply foldM_pure.
Qed.

Lemma fold_Rmax_ge (vs : list R) :
  forall m, m <= fold_left (fun norm v => Rmax norm (Rabs v)) vs m.
Proof.
  induction vs as [|v vs IH]; intros m; simpl; [lra|].
  eapply Rle_trans; [apply (Rmax_l m (Rabs v))|apply IH].
Qed.

Lemma max_abs_upper (vs : list R) (v : R) : In v vs -> Rabs v <= max_abs vs.
Proof.
  unfold max_abs. generalize 0.
  induction vs as [|w vs IH]; intros m Hin; simpl in *; [contradiction|].
  destruct Hin as [->|Hin].
  - eapply Rle_trans; [apply (Rmax_r m (Rabs v))|apply fold_Rmax_ge].
  - apply IH. exact Hin.
Qed.

Lemma fold_Rmax_attained (vs : list R) :
  forall m,
    fold_left (fun norm v => Rmax norm (Rabs v)) vs m = m \/
    exists v, In v vs /\ fold_left (fun norm v => Rmax norm (Rabs v)) vs m = Rabs v.
Proof.
  induction vs as [|w vs IH]; intros m; simpl; [left; reflexivity|].
  destruct (IH (Rmax m (Rabs w))) as [E|(v & Hv & E)].
  - rewrite E. unfold Rmax. destruct (Rle_dec m (Rabs w)).
    + right. exists w. split; [left; reflexivity|reflexivity].
    + left. reflexivity.
  - right. exists v. split; [right; exact Hv|exact E].
Qed.

Lemma max_abs_attained (vs : list R) :
  vs <> [] -> exists v, In v vs /\ max_abs vs = Rabs v.
Proof.
  intros Hne. destruct vs as [|w vs]; [contradiction|].
  unfold max_abs. simpl.
  destruct (fold_Rmax_attained vs (Rmax 0 (Rabs w))) as [E|(v & Hv & E)].
  - exists w. split; [left; reflexivity|]. rewrite E.
    apply Rmax_right. apply Rabs_pos.
  - exists v. split; [right; exact Hv|exact E].
Qed.

Lemma max_abs_repeat (c : R) (n : nat) :
  max_abs (repeat c n) = match n with O => 0 | S _ => Rabs c end.
Proof.
  destruct n as [|n]; [reflexivity|].
  unfold max_abs. simpl. rewrite (Rmax_right 0 (Rabs c)) by apply Rabs_pos.
  induction n as [|n IH]; simpl; [reflexivity|].
  rewrite (Rmax_left (Rabs c) (Rabs c)) by lra. exact IH.
Qed.

(** C9. After [setToConstant(c)], [max_abs_value()] returns [|c|] when
    [nnz > 0] and [0] when [nnz = 0], whatever the value cells held before
    (written or not).  In general [max_abs_value()] is the maximum of
    [|value[k]|] over the stored entries: an upper bound of them that one of
    them attains, and [0] for an empty matrix. *)
Theorem setToConstant_then_max_abs_value :
  (forall M c h cells,
      dbls h (values_ M) = Ok cells -> Z.of_nat (length cells) = nnz M ->
      exists h',
        setToConstant M c h = Ok h' /\
        max_abs_value h' M = Ok (if (0 <? nnz M)%Z then Rabs c else 0))
  /\
  (forall h M vs,
      dbls h (values_ M) = Ok (map Some vs) -> nnz M = Z.of_nat (length vs) ->
      exists m,
        max_abs_value h M = Ok m /\
        (forall v, In v vs -> Rabs v <= m) /\
        (vs = [] -> m = 0) /\
        (vs <> [] -> exists v, In v vs /\ m = Rabs v)).
Proof.
  split.
  - intros M c h cells Hc Hn.
    destruct (put_dbls h (values_ M) cells (repeat (Some c) (length cells)) Hc)
      as (h' & Hput & Hd & _).
    exists h'. split.
    + unfold setToConstant. rewrite Hc. simpl.
      rewrite fill_loop by exact Hn. simpl. exact Hput.
    + rewrite (max_abs_value_run h' M (repeat c (length cells))).
      * rewrite max_abs_repeat. rewrite <- Hn.
        destruct (length cells); reflexivity.
      * rewrite Hd, map_repeat. reflexivity.
      * rewrite repeat_length. lia.
  - intros h M vs Hv Hn. exists (max_abs vs).
    split; [apply max_abs_value_run; assumption|].
    split; [apply max_abs_upper|].
    split; [intros ->; reflexivity|apply max_abs_attained].
Qed.

(** ** The host mirror *)

Lemma allocate_ints_inv space n h p h' :
  allocate_ints space n h = Ok (p, h') ->
  (0 <= n)%Z /\ p = length h /\ h' = h ++ [fresh_ints space n].
Proof.
  unfold allocate_ints. destruct (Z.ltb_spec n 0); [discriminate|].
  intros E. inversion E. auto.
Qed.

Lemma allocate_dbls_inv space n h p h' :
  allocate_dbls space n h = Ok (p, h') ->
  (0 <= n)%Z /\ p = length h /\ h' = h ++ [fresh_dbls space n].
Proof.
  unfold allocate_dbls. destruct (Z.ltb_spec n 0); [discriminate|].
  intros E. inversion E. auto.
Qed.

Lemma bind_inv {A B : Type} (m : outcome A) (k : A -> outcome B) (b : B) :
  bind m k = Ok b -> exists a, m = Ok a /\ k a = Ok b.
Proof. destruct m; simpl; intros E; try discriminate. eauto. Qed.

(** What the constructor returns, when it returns. *)
Lemma constructor_inv cfg rows cols nz memspace h M h' :
  new_hiopMatrixRajaSparseTriplet cfg rows cols nz memspace h = Ok (M, h') ->
  let ms := effective_space cfg memspace in
  let p := length h in
  nrows M = rows /\ ncols M = cols /\ (0 <= nnz M)%Z /\
  mem_space_ M = ms /\ row_starts_host M = None /\
  iRow_ M = p /\ jCol_ M = (p + 1)%nat /\ values_ M = (p + 2)%nat /\
  if String.eqb ms "DEVICE"
  then iRow_host_ M = (p + 3)%nat /\ jCol_host_ M = (p + 4)%nat /\
       values_host_ M = (p + 5)%nat /\
       h' = h ++ [fresh_ints ms (nnz M); fresh_ints ms (nnz M); fresh_dbls ms (nnz M);
                  fresh_ints "HOST" (nnz M); fresh_ints "HOST" (nnz M);
                  fresh_dbls "HOST" (nnz M)]
  else iRow_host_ M = p /\ jCol_host_ M = (p + 1)%nat /\
       values_host_ M = (p + 2)%nat /\
       h' = h ++ [fresh_ints ms (nnz M); fresh_ints ms (nnz M); fresh_dbls ms (nnz M)].
Proof.
  unfold new_hiopMatrixRajaSparseTriplet. fold (effective_space cfg memspace).
  intros E. simpl.
  apply bind_inv in E. destruct E as (n & _ & E).
  apply bind_inv in E. destruct E as ((p1 & h1) & E1 & E).
  apply bind_inv in E. destruct E as ((p2 & h2) & E2 & E).
  apply bind_inv in E. destruct E as ((p3 & h3) & E3 & E).
  apply allocate_ints_inv in E1. destruct E1 as (Hn & -> & ->).
  apply allocate_ints_inv in E2. destruct E2 as (_ & -> & ->).
  apply allocate_dbls_inv in E3. destruct E3 as (_ & -> & ->).
  destruct (String.eqb (effective_space cfg memspace) "DEVICE").
  - apply bind_inv in E. destruct E as ((p4 & h4) & E4 & E).
    apply bind_inv in E. destruct E as ((p5 & h5) & E5 & E).
    apply bind_inv in E. destruct E as ((p6 & h6) & E6 & E).
    apply allocate_ints_inv in E4. destruct E4 as (_ & -> & ->).
    apply allocate_ints_inv in E5. destruct E5 as (_ & -> & ->).
    apply allocate_dbls_inv in E6. destruct E6 as (_ & -> & ->).
    inversion E; subst; simpl.
    rewrite !length_app; simpl.
    repeat split; try lia.
    rewrite <- !app_assoc. reflexivity.
  - inversion E; subst; simpl.
    rewrite !length_app; simpl.
    repeat split; try lia.
    rewrite <- !app_assoc. reflexivity.
Qed.



Lemma copy_ints (h : heap) (dst src : ptr) (ld ls : list (option Z)) :
  ints h dst = Ok ld -> ints h src = Ok ls -> length ls = length ld ->
  exists h', copy dst src h = Ok h' /\
             ints h' dst = Ok ls /\
             length h' = length h /\
             (forall q, q <> dst -> lookup h' q = lookup h q).
Proof.
  intros Hd Hs Hl. pose proof (ints_lt _ _ _ Hd) as Hp.
  unfold copy, ints, put in *.
  destruct (lookup h dst) as [bd| |]; simpl in *; try discriminate.
  destruct (lookup h src) as [bs| |]; simpl in *; try discriminate.
  destruct (blk_cells bd); try discriminate.
  destruct (blk_cells bs); try discriminate.
  inversion Hd; inversion Hs; subst.
  unfold copy_cells. rewrite Hl, Nat.leb_refl. simpl.
  rewrite skipn_all, app_nil_r.
  eexists. split; [reflexivity|]. repeat split.
  - rewrite lookup_set_nth by exact Hp. rewrite Nat.eqb_refl. reflexivity.
  - apply set_nth_length.
  - intros q Hq. rewrite lookup_set_nth by exact Hp.
    destruct (Nat.eqb_spec q dst); [contradiction|reflexivity].
Qed.

Lemma copy_dbls (h : heap) (dst src : ptr) (ld ls : list (option R)) :
  dbls h dst = Ok ld -> dbls h src = Ok ls -> length ls = length ld ->
  exists h', copy dst src h = Ok h' /\
             dbls h' dst = Ok ls /\
             length h' = length h /\
             (forall q, q <> dst -> lookup h' q = lookup h q).
Proof.
  intros Hd Hs Hl. pose proof (dbls_lt _ _ _ Hd) as Hp.
  unfold copy, dbls, put in *.
  destruct (lookup h dst) as [bd| |]; simpl in *; try discriminate.
  destruct (lookup h src) as [bs| |]; simpl in *; try discriminate.
  destruct (blk_cells bd); try discriminate.
  destruct (blk_cells bs); try discriminate.
  inversion Hd; inversion Hs; subst.
  unfold copy_cells. rewrite Hl, Nat.leb_refl. simpl.
  rewrite skipn_all, app_nil_r.
  eexists. split; [reflexivity|]. repeat split.
  - rewrite lookup_set_nth by exact Hp. rewrite Nat.eqb_refl. reflexivity.
  - apply set_nth_length.
  - intros q Hq. rewrite lookup_set_nth by exact Hp.
    destruct (Nat.eqb_spec q dst); [contradiction|reflexivity].
Qed.

Lemma ints_frame (h h' : heap) (p : ptr) :
  lookup h' p = lookup h p -> ints h' p = ints h p.
Proof. unfold ints. intros ->. reflexivity. Qed.

Lemma dbls_frame (h h' : heap) (p : ptr) :
  lookup h' p = lookup h p -> dbls h' p = dbls h p.
Proof. unfold dbls. intros ->. reflexivity. Qed.

Lemma NoDup6_neq {T : Type} (a b c d e f : T) :
  NoDup [a; b; c; d; e; f] ->
  a <> b /\ a <> c /\ a <> d /\ a <> e /\ a <> f /\
  b <> c /\ b <> d /\ b <> e /\ b <> f /\
  c <> d /\ c <> e /\ c <> f /\
  d <> e /\ d <> f /\ e <> f.
Proof.
  intros H.
  repeat match goal with
         | H : NoDup (_ :: _) |- _ => inversion H; clear H; subst
         end.
  simpl in *. intuition congruence.
Qed.

Lemma copyToDev_device (M : hiopMatrixRajaSparseTriplet) (h : heap)
    (dev host : array_contents) :
  mem_space_ M = "DEVICE"%string -> independent_mirror M -> holds h M dev host ->
  exists h', copyToDev M h = Ok h' /\ holds h' M host host.
Proof.
  intros Hms Hnd. destruct dev as ((ir & jc) & vs), host as ((ir' & jc') & vs').
  intros (H1 & H2 & H3 & H4 & H5 & H6 & L1 & L2 & L3).
  apply NoDup6_neq in Hnd.
  unfold copyToDev. rewrite Hms. simpl.
  destruct (copy_ints h (iRow_ M) (iRow_host_ M) ir ir' H1 H4 L1)
    as (h1 & -> & A1 & _ & F1). simpl.
  assert (H2' : ints h1 (jCol_ M) = Ok jc)
    by (rewrite (ints_frame h h1) by (apply F1; intuition congruence); exact H2).
  assert (H5' : ints h1 (jCol_host_ M) = Ok jc')
    by (rewrite (ints_frame h h1) by (apply F1; intuition congruence); exact H5).
  destruct (copy_ints h1 (jCol_ M) (jCol_host_ M) jc jc' H2' H5' L2)
    as (h2 & -> & A2 & _ & F2). simpl.
  assert (H3' : dbls h2 (values_ M) = Ok vs).
  { rewrite (dbls_frame h1 h2) by (apply F2; intuition congruence).
    rewrite (dbls_frame h h1) by (apply F1; intuition congruence). exact H3. }
  assert (H6' : dbls h2 (values_host_ M) = Ok vs').
  { rewrite (dbls_frame h1 h2) by (apply F2; intuition congruence).
    rewrite (dbls_frame h h1) by (apply F1; intuition congruence). exact H6. }
  destruct (copy_dbls h2 (values_ M) (values_host_ M) vs vs' H3' H6' L3)
    as (h3 & -> & A3 & _ & F3).
  exists h3. split; [reflexivity|]. unfold holds.
  repeat split; try reflexivity.
  - rewrite (ints_frame h2 h3) by (apply F3; intuition congruence).
    rewrite (ints_frame h1 h2) by (apply F2; intuition congruence). exact A1.
  - rewrite (ints_frame h2 h3) by (apply F3; intuition congruence). exact A2.
  - exact A3.
  - rewrite (ints_frame h2 h3) by (apply F3; intuition congruence).
    rewrite (ints_frame h1 h2) by (apply F2; intuition congruence).
    rewrite (ints_frame h h1) by (apply F1; intuition congruence). exact H4.
  - rewrite (ints_frame h2 h3) by (apply F3; intuition congruence).
    rewrite (ints_frame h1 h2) by (apply F2; intuition congruence). exact H5'.
  - rewrite (dbls_frame h2 h3) by (apply F3; intuition congruence). exact H6'.
Qed.

Lemma copyFromDev_device (M : hiopMatrixRajaSparseTriplet) (h : heap)
    (dev host : array_contents) :
  mem_space_ M = "DEVICE"%string -> independent_mirror M -> holds h M dev host ->
  exists h', copyFromDev M h = Ok h' /\ holds h' M dev dev.
Proof.
  intros Hms Hnd. destruct dev as ((ir & jc) & vs), host as ((ir' & jc') & vs').
  intros (H1 & H2 & H3 & H4 & H5 & H6 & L1 & L2 & L3).
  apply NoDup6_neq in Hnd.
  unfold copyFromDev. rewrite Hms. simpl.
  destruct (copy_ints h (iRow_host_ M) (iRow_ M) ir' ir H4 H1 (eq_sym L1))
    as (h1 & -> & A1 & _ & F1). simpl.
  assert (H2' : ints h1 (jCol_ M) = Ok jc)
    by (rewrite (ints_frame h h1) by (apply F1; intuition congruence); exact H2).
  assert (H5' : ints h1 (jCol_host_ M) = Ok jc')
    by (rewrite (ints_frame h h1) by (apply F1; intuition congruence); exact H5).
  destruct (copy_ints h1 (jCol_host_ M) (jCol_ M) jc' jc H5' H2' (eq_sym L2))
    as (h2 & -> & A2 & _ & F2). simpl.
  assert (H3' : dbls h2 (values_ M) = Ok vs).
  { rewrite (dbls_frame h1 h2) by (apply F2; intuition congruence).
    rewrite (dbls_frame h h1) by (apply F1; intuition congruence). exact H3. }
  assert (H6' : dbls h2 (values_host_ M) = Ok vs').
  { rewrite (dbls_frame h1 h2) by (apply F2; intuition congruence).
    rewrite (dbls_frame h h1) by (apply F1; intuition congruence). exact H6. }
  destruct (copy_dbls h2 (values_host_ M) (values_ M) vs' vs H6' H3' (eq_sym L3))
    as (h3 & -> & A3 & _ & F3).
  exists h3. split; [reflexivity|]. unfold holds.
  repeat split; try reflexivity.
  - rewrite (ints_frame h2 h3) by (apply F3; intuition congruence).
    rewrite (ints_frame h1 h2) by (apply F2; intuition congruence).
    rewrite (ints_frame h h1) by (apply F1; intuition congruence). exact H1.
  - rewrite (ints_frame h2 h3) by (apply F3; intuition congruence).
    rewrite (ints_frame h1 h2) by (apply F2; intuition congruence). exact H2'.
  - rewrite (dbls_frame h2 h3) by (apply F3; intuition congruence). exact H3'.
  - rewrite (ints_frame h2 h3) by (apply F3; intuition congruence).
    rewrite (ints_frame h1 h2) by (apply F2; intuition congruence). exact A1.
  - rewrite (ints_frame h2 h3) by (apply F3; intuition congruence). exact A2.
  - exact A3.
Qed.

Lemma copy_is_noop_off_device (M : hiopMatrixRajaSparseTriplet) (h : heap) :
  mem_space_ M <> "DEVICE"%string ->
  copyToDev M h = Ok h /\ copyFromDev M h = Ok h.
Proof.
  intros Hms. unfold copyToDev, copyFromDev.
  destruct (String.eqb_spec (mem_space_ M) "DEVICE"); [contradiction|].
  split; reflexivity.
Qed.

(** C6, as the code has it.  The constructor tests the memory space against
    the device space, not against the host space.  In every space other
    than DEVICE (the host space, which builds without GPU support always
    use, and spaces such as unified memory) the host pointers are the
    device pointers and three blocks are allocated; there [copyToDev] and
    [copyFromDev] leave the memory as it is.  In the space DEVICE the six
    arrays are six allocations, the last three in the host space; there
    [copyToDev] gives the three device arrays the contents of the host
    arrays and [copyFromDev] the converse. *)
Theorem host_mirror_by_device_space :
  forall cfg rows cols nz memspace h M h',
    new_hiopMatrixRajaSparseTriplet cfg rows cols nz memspace h = Ok (M, h') ->
    mem_space_ M = effective_space cfg memspace /\
    (mem_space_ M <> "DEVICE"%string ->
       aliased_mirror M /\ length h' = (length h + 3)%nat /\
       forall h1, copyToDev M h1 = Ok h1 /\ copyFromDev M h1 = Ok h1) /\
    (mem_space_ M = "DEVICE"%string ->
       independent_mirror M /\ length h' = (length h + 6)%nat /\
       lookup h' (iRow_host_ M) = Ok (fresh_int_block "HOST" (nnz M)) /\
       lookup h' (jCol_host_ M) = Ok (fresh_int_block "HOST" (nnz M)) /\
       lookup h' (values_host_ M) = Ok (fresh_dbl_block "HOST" (nnz M)) /\
       forall h1 dev host,
         holds h1 M dev host ->
         (exists h2, copyToDev M h1 = Ok h2 /\ holds h2 M host host) /\
         (exists h2, copyFromDev M h1 = Ok h2 /\ holds h2 M dev dev)).
Proof.
  intros cfg rows cols nz memspace h M h' Hnew.
  pose proof (constructor_inv _ _ _ _ _ _ _ _ Hnew) as
    (_ & _ & _ & Hms & _ & Hi & Hj & Hv & Hrest).
  simpl in Hms, Hrest. rewrite <- Hms in Hrest.
  split; [exact Hms|]. split.
  - intros Hnd.
    destruct (String.eqb_spec (mem_space_ M) "DEVICE"); [contradiction|].
    destruct Hrest as (Hi' & Hj' & Hv' & ->).
    split; [unfold aliased_mirror; repeat split; congruence|].
    split; [rewrite length_app; reflexivity|].
    intros h1. apply copy_is_noop_off_device. exact Hnd.
  - intros Hd.
    destruct (String.eqb_spec (mem_space_ M) "DEVICE"); [|contradiction].
    destruct Hrest as (Hi' & Hj' & Hv' & ->).
    assert (Hind : independent_mirror M).
    { unfold independent_mirror. rewrite Hi, Hj, Hv, Hi', Hj', Hv'.
      repeat (constructor; [simpl; intuition lia|]). constructor. }
    split; [exact Hind|].
    split; [rewrite length_app; reflexivity|].
    rewrite Hi', Hj', Hv'.
    split; [rewrite lookup_app_r; reflexivity|].
    split; [rewrite lookup_app_r; reflexivity|].
    split; [rewrite lookup_app_r; reflexivity|].
    intros h1 dev host Hh. split.
    + apply (copyToDev_device M h1 dev host); assumption.
    + apply (copyFromDev_device M h1 dev host); assumption.
Qed.

(** C6 at a 2x2 matrix with three entries built in the space DEVICE. *)
Lemma host_mirror_by_device_space_witness :
  exists M h',
    new_hiopMatrixRajaSparseTriplet gpu_build 2 2 3 "DEVICE" [] = Ok (M, h') /\
    mem_space_ M = "DEVICE"%string /\
    (mem_space_ M <> "DEVICE"%string ->
       aliased_mirror M /\ length h' = 3%nat /\
       forall h1, copyToDev M h1 = Ok h1 /\ copyFromDev M h1 = Ok h1) /\
    (mem_space_ M = "DEVICE"%string ->
       independent_mirror M /\ length h' = 6%nat /\
       lookup h' (iRow_host_ M) = Ok (fresh_int_block "HOST" (nnz M)) /\
       lookup h' (jCol_host_ M) = Ok (fresh_int_block "HOST" (nnz M)) /\
       lookup h' (values_host_ M) = Ok (fresh_dbl_block "HOST" (nnz M)) /\
       forall h1 dev host,
         holds h1 M dev host ->
         (exists h2, copyToDev M h1 = Ok h2 /\ holds h2 M host host) /\
         (exists h2, copyFromDev M h1 = Ok h2 /\ holds h2 M dev dev)).
Proof.
  do 2 eexists. split; [reflexivity|].
  apply (host_mirror_by_device_space gpu_build 2 2 3 "DEVICE" []).
  reflexivity.
Defined.

(** C6 as stated fails in unified memory: on a build with GPU support, a
    matrix created in the space UM is not in the host space, yet its host
    pointers are its device pointers, the constructor has made three
    allocations and not six, and the two copies leave the memory as it is. *)
Lemma unified_memory_mirror_is_aliased :
  exists M h',
    new_hiopMatrixRajaSparseTriplet gpu_build 2 2 3 "UM" [] = Ok (M, h') /\
    mem_space_ M <> "HOST"%string /\
    aliased_mirror M /\ ~ independent_mirror M /\
    length h' = 3%nat /\
    copyToDev M h' = Ok h' /\ copyFromDev M h' = Ok h'.
Proof.
  do 2 eexists. split; [reflexivity|]. simpl.
  split; [discriminate|].
  split; [repeat split|].
  split; [|repeat split].
  unfold independent_mirror. simpl. intros H.
  inversion H as [|? ? Hnin _]; subst. apply Hnin. simpl. auto.
Qed.

(** C9 on a matrix fresh from the constructor: its three values, never
    written, are set to [-7]. *)
Lemma setToConstant_then_max_abs_value_witness :
  exists M h,
    new_hiopMatrixRajaSparseTriplet debug_build 2 3 3 "HOST" [] = Ok (M, h) /\
    exists h',
      setToConstant M (-7) h = Ok h' /\
      max_abs_value h' M = Ok (if (0 <? nnz M)%Z then Rabs (-7) else 0).
Proof.
  do 2 eexists. split; [reflexivity|].
  apply (proj1 setToConstant_then_max_abs_value _ (-7) _ (repeat None 3));
    reflexivity.
Defined.

(** ** The row-start index *)

Local Open Scope Z_scope.

Lemma lex_lt_trans : Relations_1.Transitive lex_lt.
Proof. intros x y z. unfold lex_lt. lia. Qed.

Lemma lex_lt_row (t u : triplet) : lex_lt t u -> t_row t <= t_row u.
Proof. unfold lex_lt. lia. Qed.

Lemma sorted_rows (ts : list triplet) :
  row_major_sorted ts -> StronglySorted (fun t u => t_row t <= t_row u) ts.
Proof.
  intros Hs. apply (Sorted_StronglySorted lex_lt_trans) in Hs.
  induction Hs as [|a l Hs IH Ha]; constructor; [exact IH|].
  eapply Forall_impl; [|exact Ha]. intros u. apply lex_lt_row.
Qed.

Lemma sorted_adjacent (ts : list triplet) :
  row_major_sorted ts ->
  forall k a b, nth_error ts k = Some a -> nth_error ts (S k) = Some b -> lex_lt a b.
Proof.
  intros Hs. induction Hs as [|x l Hs IH Hx]; intros k a b Ha Hb.
  - destruct k; discriminate.
  - destruct k as [|k]; simpl in *.
    + inversion Ha; subst. destruct l as [|y l]; [discriminate|].
      inversion Hb; subst. inversion Hx; assumption.
    + eapply IH; eassumption.
Qed.

Lemma count_lt_nonneg ts i : 0 <= count_lt ts i.
Proof. unfold count_lt. lia. Qed.

Lemma count_lt_le_length ts i : count_lt ts i <= Z.of_nat (length ts).
Proof. unfold count_lt. pose proof (filter_length_le (fun t => t_row t <? i) ts). lia. Qed.

Lemma count_lt_mono ts i j : i <= j -> count_lt ts i <= count_lt ts j.
Proof.
  intros Hij. unfold count_lt.
  induction ts as [|t ts IH]; simpl; [lia|].
  destruct (Z.ltb_spec (t_row t) i), (Z.ltb_spec (t_row t) j); simpl; lia.
Qed.

Lemma count_lt_none ts i :
  Forall (fun t => i <= t_row t) ts -> count_lt ts i = 0.
Proof.
  unfold count_lt. induction 1 as [|t ts Ht _ IH]; simpl; [reflexivity|].
  destruct (Z.ltb_spec (t_row t) i); [lia|exact IH].
Qed.

Lemma count_lt_all ts i :
  Forall (fun t => t_row t < i) ts -> count_lt ts i = Z.of_nat (length ts).
Proof.
  unfold count_lt. induction 1 as [|t ts Ht _ IH]; simpl; [reflexivity|].
  destruct (Z.ltb_spec (t_row t) i); [simpl; lia|lia].
Qed.

(** In a list sorted by row, the triplets with a row below [v] are the
    first [count_lt ts v] ones. *)
Lemma sorted_prefix (ts : list triplet) (v : Z) :
  StronglySorted (fun t u => t_row t <= t_row u) ts ->
  forall k t, nth_error ts k = Some t ->
              (t_row t < v <-> Z.of_nat k < count_lt ts v).
Proof.
  induction 1 as [|a l Hs IH Ha]; intros k t Hk; [destruct k; discriminate|].
  destruct (Z.ltb_spec (t_row a) v) as [Hlt|Hge].
  - assert (Hc : count_lt (a :: l) v = 1 + count_lt l v).
    { unfold count_lt. cbn [filter].
      destruct (Z.ltb_spec (t_row a) v); [cbn [length]|]; lia. }
    rewrite Hc. destruct k as [|k]; simpl in Hk.
    + inversion Hk; subst. pose proof (count_lt_nonneg l v). lia.
    + specialize (IH k t Hk). lia.
  - assert (Hc : count_lt (a :: l) v = 0).
    { apply count_lt_none. constructor; [exact Hge|].
      eapply Forall_impl; [|exact Ha]. simpl. intros; lia. }
    rewrite Hc. destruct k as [|k]; simpl in Hk.
    + inversion Hk; subst. lia.
    + apply nth_error_In in Hk.
      rewrite Forall_forall in Ha. specialize (Ha t Hk). simpl in Ha. lia.
Qed.

Lemma row_offsets_length ts n : length (row_offsets ts n) = S n.
Proof. unfold row_offsets. rewrite length_map, length_seq. reflexivity. Qed.

Lemma nth_row_offsets ts n (i : nat) :
  (i <= n)%nat -> nth i (row_offsets ts n) 0 = count_lt ts (Z.of_nat i).
Proof.
  intros Hi. unfold row_offsets.
  rewrite (nth_indep _ 0 (count_lt ts (Z.of_nat 0)))
    by (rewrite length_map, length_seq; lia).
  rewrite (map_nth (fun i => count_lt ts (Z.of_nat i))), seq_nth by lia.
  reflexivity.
Qed.

(** The invariants of the index, for sorted triplets inside the shape. *)
Lemma row_offsets_spec (ts : list triplet) (n : nat) :
  row_major_sorted ts ->
  Forall (fun t => 0 <= t_row t < Z.of_nat n) ts ->
  let offs := row_offsets ts n in
  length offs = S n /\
  nth 0 offs 0 = 0 /\
  (forall i, (i < n)%nat -> nth i offs 0 <= nth (S i) offs 0) /\
  nth n offs 0 = Z.of_nat (length ts) /\
  (forall (i k : nat) t,
      (i < n)%nat -> nth_error ts k = Some t ->
      (nth i offs 0 <= Z.of_nat k < nth (S i) offs 0 <-> t_row t = Z.of_nat i)).
Proof.
  intros Hs Hsh. cbv zeta.
  split; [apply row_offsets_length|].
  split; [rewrite nth_row_offsets by lia; apply count_lt_none;
          eapply Forall_impl; [|exact Hsh]; simpl; intros; lia|].
  split; [intros i Hi; rewrite !nth_row_offsets by lia; apply count_lt_mono; lia|].
  split; [rewrite nth_row_offsets by lia; apply count_lt_all;
          eapply Forall_impl; [|exact Hsh]; simpl; intros; lia|].
  intros i k t Hi Hk. rewrite !nth_row_offsets by lia.
  pose proof (sorted_prefix ts (Z.of_nat i) (sorted_rows ts Hs) k t Hk).
  pose proof (sorted_prefix ts (Z.of_nat (S i)) (sorted_rows ts Hs) k t Hk).
  lia.
Qed.

Section HostStores.
Variables (h : heap) (M : hiopMatrixRajaSparseTriplet) (ts : list triplet).
Hypothesis Hst : host_stores h M ts.

Lemma load_row_host (k : nat) (t : triplet) :
  nth_error ts k = Some t -> load_int h (iRow_host_ M) (Z.of_nat k) = Ok (t_row t).
Proof.
  intros E. destruct Hst as (_ & Hr & _). unfold load_int. rewrite Hr. simpl.
  apply rd_cell_map_Some. rewrite nth_error_map, E. reflexivity.
Qed.

Lemma load_col_host (k : nat) (t : triplet) :
  nth_error ts k = Some t -> load_int h (jCol_host_ M) (Z.of_nat k) = Ok (t_col t).
Proof.
  intros E. destruct Hst as (_ & _ & Hc). unfold load_int. rewrite Hc. simpl.
  apply rd_cell_map_Some. rewrite nth_error_map, E. reflexivity.
Qed.

Hypothesis Hsorted : row_major_sorted ts.

(** On sorted triplets the deep check of the scan passes. *)
Lemma check_sorted_at_ok (cfg : build) (k : nat) (t : triplet) :
  nth_error ts k = Some t -> check_sorted_at cfg h M (Z.of_nat k) = Ok tt.
Proof.
  intros Hk. unfold check_sorted_at.
  destruct (HIOP_DEEPCHECKS cfg); [|reflexivity].
  destruct (Z.leb_spec 1 (Z.of_nat k)); [|reflexivity].
  destruct k as [|k]; [lia|].
  destruct (nth_error ts k) as [p|] eqn:Hp;
    [|apply nth_error_None in Hp;
      assert (nth_error ts (S k) <> None) by congruence;
      apply nth_error_Some in H0; lia].
  replace (Z.of_nat (S k) - 1) with (Z.of_nat k) by lia.
  unfold assert_m.
  rewrite (load_row_host k p Hp), (load_row_host (S k) t Hk).
  rewrite (load_col_host k p Hp), (load_col_host (S k) t Hk).
  pose proof (sorted_adjacent ts Hsorted k p t Hp Hk) as Hlex.
  cbn [bind].
  assert (Hle : (t_row p <=? t_row t) = true)
    by (apply Z.leb_le, lex_lt_row; exact Hlex).
  rewrite Hle.
  assert (Ha : (if NDEBUG cfg then Ok tt else assert_ cfg true) = Ok tt)
    by (destruct (NDEBUG cfg); [reflexivity|apply assert_true]).
  rewrite Ha. cbn [bind].
  destruct (Z.eqb_spec (t_row p) (t_row t)) as [Heq|]; [|reflexivity].
  assert (Hlt : (t_col p <? t_col t) = true)
    by (apply Z.ltb_lt; unfold lex_lt in Hlex; lia).
  rewrite Hlt. exact Ha.
Qed.
End HostStores.

Lemma rd_cell_app_mid {T : Type} (pre suf : list (option T)) (i : Z) (v : T) :
  0 <= i -> length pre = Z.to_nat i ->
  rd_cell (pre ++ Some v :: suf) i = Ok v.
Proof.
  intros Hi Hl. unfold rd_cell.
  replace i with (Z.of_nat (length pre)) by lia.
  rewrite (rd_nth_error _ (length pre) (Some v)); [reflexivity|].
  rewrite nth_error_app2, Nat.sub_diag by lia. reflexivity.
Qed.

Lemma wr_app_mid {T : Type} (pre suf : list T) (i : Z) (c w : T) :
  0 <= i -> length pre = Z.to_nat i ->
  wr (pre ++ c :: suf) i w = Ok (pre ++ w :: suf).
Proof.
  intros Hi Hl.
  rewrite wr_set_nth by (rewrite length_app; simpl; lia).
  rewrite <- Hl, set_nth_app. reflexivity.
Qed.

(** The inner loop of the scan: started at the first triplet of row
    [i - 1], with the offset of row [i] equal to the cursor, it stops at the
    first triplet of row [i]. *)
Lemma scan_row_run cfg h M ts (i : Z) (pre suf : list (option Z)) :
  host_stores h M ts -> row_major_sorted ts ->
  1 <= i -> length pre = Z.to_nat i ->
  forall (fuel : nat) (it : Z),
    count_lt ts (i - 1) <= it <= count_lt ts i ->
    Z.of_nat (length ts) - it <= Z.of_nat fuel ->
    scan_row cfg h M fuel i it (pre ++ Some it :: suf)
    = Ok (count_lt ts i, pre ++ Some (count_lt ts i) :: suf).
Proof.
  intros Hst Hs Hi Hpre.
  pose proof (sorted_rows ts Hs) as Hss.
  induction fuel as [|fuel IH]; intros it Hit Hfuel.
  - pose proof (count_lt_le_length ts i).
    simpl. replace it with (count_lt ts i) by lia. reflexivity.
  - pose proof (count_lt_nonneg ts (i - 1)) as H0.
    pose proof (count_lt_le_length ts i) as Hlen.
    simpl. pose proof Hst as (Hn & _). rewrite Hn.
    destruct (Z.ltb_spec it (Z.of_nat (length ts))) as [Hlt|Hge];
      [|replace it with (count_lt ts i) by lia; reflexivity].
    destruct (nth_error ts (Z.to_nat it)) as [t|] eqn:Ht;
      [|apply nth_error_None in Ht; lia].
    replace it with (Z.of_nat (Z.to_nat it)) at 1 by lia.
    rewrite (load_row_host h M ts Hst (Z.to_nat it) t Ht). simpl.
    pose proof (sorted_prefix ts (i - 1) Hss _ t Ht) as Hlow.
    pose proof (sorted_prefix ts i Hss _ t Ht) as Hup.
    destruct (Z.eqb_spec (t_row t) (i - 1)) as [Heq|Hne].
    + replace it with (Z.of_nat (Z.to_nat it)) at 1 by lia.
      rewrite (check_sorted_at_ok h M ts Hst Hs cfg _ t Ht). simpl.
      rewrite rd_cell_app_mid by lia. simpl.
      rewrite (wr_app_mid pre suf i (Some it) (Some (it + 1))) by lia. simpl.
      apply IH; lia.
    + replace it with (count_lt ts i) by lia. reflexivity.
Qed.

(** A loop that keeps an invariant returns, with the invariant. *)
Lemma iter_range_inv {St : Type} (P : Z -> St -> Prop)
    (body : Z -> St -> outcome St) :
  forall (n : nat) (lo : Z) (s : St),
    P lo s ->
    (forall i s, lo <= i < lo + Z.of_nat n -> P i s ->
                 exists s', body i s = Ok s' /\ P (i + 1) s') ->
    exists s', iter_range n lo body s = Ok s' /\ P (lo + Z.of_nat n) s'.
Proof.
  induction n as [|n IH]; intros lo s Hs Hbody.
  - exists s. split; [reflexivity|]. replace (lo + Z.of_nat 0) with lo by lia. exact Hs.
  - destruct (Hbody lo s ltac:(lia) Hs) as (s1 & E1 & H1).
    destruct (IH (lo + 1) s1 H1) as (s2 & E2 & H2).
    { intros i s' Hi. apply Hbody. lia. }
    exists s2. split.
    + simpl. rewrite E1. simpl. exact E2.
    + replace (lo + Z.of_nat (S n)) with (lo + 1 + Z.of_nat n) by lia. exact H2.
Qed.

(** The outer loop of [allocAndBuildRowStarts]: it fills the offsets of
    the rows [1 .. n] and leaves the cursor behind the last triplet of a
    row below [n]. *)
Lemma build_rows_run cfg h M ts (n : nat) :
  host_stores h M ts -> row_major_sorted ts ->
  Forall (fun t => 0 <= t_row t) ts ->
  iter_range n 1 (build_row cfg h M) (0, Some 0 :: repeat None n)
  = Ok (count_lt ts (Z.of_nat n), map Some (row_offsets ts n)).
Proof.
  intros Hst Hs Hpos.
  set (count := fun i : nat => count_lt ts (Z.of_nat i)).
  set (P := fun (i : Z) (st : Z * list (option Z)) =>
              exists j : nat,
                i = Z.of_nat j + 1 /\ (j <= n)%nat /\
                st = (count j,
                      map Some (map count (seq 0 j))
                        ++ Some (count j) :: repeat None (n - j))).
  assert (H0 : count 0%nat = 0)
    by (apply count_lt_none; eapply Forall_impl; [|exact Hpos]; simpl; intros; lia).
  destruct (iter_range_inv P (build_row cfg h M) n 1 (0, Some 0 :: repeat None n))
    as (s' & E & (j & Hj & _ & ->)).
  - exists 0%nat. rewrite H0, Nat.sub_0_r. simpl. auto with arith.
  - intros i st Hi (j & -> & Hj & ->).
    assert (Hjn : (j < n)%nat) by lia.
    exists (count (S j),
            map Some (map count (seq 0 (S j)))
              ++ Some (count (S j)) :: repeat None (n - S j)).
    split; [|exists (S j); repeat split; lia].
    unfold build_row.
    replace (Z.of_nat j + 1 - 1) with (Z.of_nat j) by lia.
    rewrite rd_cell_app_mid
      by (rewrite ?length_map, ?length_seq; lia).
    cbn [bind].
    replace (n - j)%nat with (S (n - S j)) by lia. cbn [repeat].
    set (pre := map Some (map count (seq 0 j)) ++ [Some (count j)]).
    assert (Hpre : length pre = Z.to_nat (Z.of_nat j + 1))
      by (unfold pre; rewrite length_app, !length_map, length_seq; simpl; lia).
    replace (map Some (map count (seq 0 j))
               ++ Some (count j) :: None :: repeat None (n - S j))
      with (pre ++ None :: repeat None (n - S j))
      by (unfold pre; rewrite <- app_assoc; reflexivity).
    rewrite (wr_app_mid pre _ (Z.of_nat j + 1) None (Some (count j))) by lia.
    cbn [bind].
    rewrite (scan_row_run cfg h M ts (Z.of_nat j + 1) pre) by
      (try assumption; try lia; unfold count;
       pose proof (count_lt_mono ts (Z.of_nat j) (Z.of_nat j + 1));
       pose proof (count_lt_le_length ts (Z.of_nat j));
       destruct Hst as (Hn & _);
       replace (Z.of_nat j + 1 - 1) with (Z.of_nat j) by lia; lia).
    cbn [bind]. unfold assert_m.
    rewrite rd_cell_app_mid by lia.
    cbn [bind]. rewrite Z.eqb_refl, assert_true.
    replace (if NDEBUG cfg then Ok tt else Ok tt) with (Ok tt)
      by (destruct (NDEBUG cfg); reflexivity).
    cbn [bind].
    unfold pre, count. rewrite seq_S, !map_app.
    replace (Z.of_nat (S j)) with (Z.of_nat j + 1) by lia.
    cbn [map Nat.add]. reflexivity.
  - assert (j = n) by lia. subst j.
    rewrite E. unfold row_offsets. fold count.
    rewrite seq_S, !map_app, Nat.sub_diag. reflexivity.
Qed.

Lemma set_nth_app_r {T : Type} (a l : list T) (k : nat) (v : T) :
  set_nth (a ++ l) (length a + k) v = a ++ set_nth l k v.
Proof. induction a as [|x a IH]; simpl; [reflexivity|now rewrite IH]. Qed.

Lemma lookup_end0 (h l : heap) (b : block) :
  lookup (h ++ Some b :: l) (length h) = Ok b.
Proof. unfold lookup. rewrite nth_error_app2, Nat.sub_diag by lia. reflexivity. Qed.

Lemma lookup_end1 (h l : heap) (x : option block) (b : block) :
  lookup (h ++ x :: Some b :: l) (S (length h)) = Ok b.
Proof.
  unfold lookup. rewrite nth_error_app2 by lia.
  replace (S (length h) - length h)%nat with 1%nat by lia. reflexivity.
Qed.

Lemma set_nth_end1 {T : Type} (h l : list T) (x y v : T) :
  set_nth (h ++ x :: y :: l) (S (length h)) v = h ++ x :: v :: l.
Proof.
  replace (S (length h)) with (length h + 1)%nat by lia.
  rewrite set_nth_app_r. reflexivity.
Qed.

Lemma host_stores_app_l h h' M ts : host_stores h M ts -> host_stores (h ++ h') M ts.
Proof.
  intros (Hn & Hr & Hc). repeat split; [exact Hn| |]; apply ints_app_l; assumption.
Qed.

(** [allocAndBuildRowStarts] on sorted triplets and at least one row: the
    index lands in a new block of the matrix's memory space, behind the
    released host block. *)
Lemma allocAndBuildRowStarts_run cfg h M ts :
  host_stores h M ts -> row_major_sorted ts ->
  Forall (fun t => 0 <= t_row t < nrows M) ts -> 1 <= nrows M ->
  allocAndBuildRowStarts cfg M h
  = Ok ({| num_rows_ := nrows M; rs_mem_space_ := mem_space_ M;
           idx_start_ := S (length h) |},
        h ++ [None; index_block M ts]).
Proof.
  intros Hst Hs Hsh Hn.
  unfold allocAndBuildRowStarts, new_RowStartsInfo, allocate_ints.
  destruct (Z.leb_spec 0 (nrows M)); [|lia]. rewrite assert_true. cbn [bind].
  destruct (Z.ltb_spec (nrows M + 1) 0); [lia|]. cbn [bind idx_start_].
  destruct (Z.leb_spec (nrows M) 0); [lia|].
  rewrite <- !app_assoc. cbn [app].
  rewrite length_app. cbn [length]. rewrite Nat.add_1_r.
  set (n := Z.to_nat (nrows M)).
  replace (Z.to_nat (nrows M + 1)) with (S n) by lia.
  unfold ints at 1. rewrite lookup_end0. cbn [bind blk_cells repeat].
  change (wr (None :: repeat None n) 0 (Some 0)) with (Ok (Some 0 :: repeat (@None Z) n)).
  cbn [bind]. unfold for_range.
  replace (Z.to_nat (nrows M + 1 - 1)) with n by lia.
  assert (Hpos : Forall (fun t => 0 <= t_row t) ts)
    by (eapply Forall_impl; [|exact Hsh]; simpl; intros; lia).
  rewrite (build_rows_run cfg _ M ts n) by
    (try apply host_stores_app_l; assumption).
  cbn [bind].
  assert (Hc : count_lt ts (Z.of_nat n) = nnz M).
  { destruct Hst as (-> & _). apply count_lt_all.
    eapply Forall_impl; [|exact Hsh]. simpl. intros. lia. }
  rewrite Hc, Z.eqb_refl, assert_true. cbn [bind].
  unfold put. rewrite lookup_end0. cbn [bind blk_space]. rewrite set_nth_app.
  unfold copy. rewrite lookup_end1, lookup_end0. cbn [bind blk_cells].
  unfold copy_cells.
  rewrite length_map, row_offsets_length. cbn [length].
  rewrite repeat_length, Nat.leb_refl.
  cbn [bind].
  rewrite skipn_all2 by (cbn [length]; rewrite repeat_length; lia).
  rewrite app_nil_r.
  unfold put. rewrite lookup_end1. cbn [bind blk_space]. rewrite set_nth_end1.
  unfold delete_RowStartsInfo, deallocate. cbn [idx_start_].
  rewrite lookup_end0. cbn [bind]. rewrite set_nth_app.
  reflexivity.
Qed.

Lemma in_shape_row_bounds M ts :
  in_shape M ts -> Forall (fun t => 0 <= t_row t < nrows M) ts.
Proof. intros H. eapply Forall_impl; [|exact H]. simpl. intros t (? & ?). lia. Qed.

(** C7, for a matrix with at least one row.  On row-major-sorted triplets
    inside the shape, [allocAndBuildRowStarts] returns an index of
    [nrows + 1] written offsets with [offset[0] = 0], non-decreasing,
    [offset[nrows] = nnz], and the triplet at [k] is of row [i] exactly
    when [offset[i] <= k < offset[i+1]].  For the 3-row matrix with
    positions (0,0), (0,1), (1,2), (2,0) the offsets are [[0,2,3,4]]. *)
Theorem row_starts_of_sorted_matrix :
  (forall cfg h M ts,
      host_stores h M ts -> row_major_sorted ts -> in_shape M ts ->
      1 <= nrows M ->
      exists rsi h' offs,
        allocAndBuildRowStarts cfg M h = Ok (rsi, h') /\
        num_rows_ rsi = nrows M /\
        ints h' (idx_start_ rsi) = Ok (map Some offs) /\
        Z.of_nat (length offs) = nrows M + 1 /\
        nth 0 offs 0 = 0 /\
        (forall i, 0 <= i < nrows M ->
                   nth (Z.to_nat i) offs 0 <= nth (Z.to_nat (i + 1)) offs 0) /\
        nth (Z.to_nat (nrows M)) offs 0 = nnz M /\
        (forall i (k : nat) t,
            0 <= i < nrows M -> nth_error ts k = Some t ->
            (nth (Z.to_nat i) offs 0 <= Z.of_nat k < nth (Z.to_nat (i + 1)) offs 0
             <-> t_row t = i)))
  /\
  (forall cfg v0 v1 v2 v3,
      exists rsi h',
        allocAndBuildRowStarts cfg (host_matrix 3 3 (P34 v0 v1 v2 v3))
          (host_heap (P34 v0 v1 v2 v3)) = Ok (rsi, h') /\
        ints h' (idx_start_ rsi) = Ok (map Some [0; 2; 3; 4])).
Proof.
  split.
  - intros cfg h M ts Hst Hs Hsh Hn.
    pose proof (in_shape_row_bounds M ts Hsh) as Hrows.
    do 2 eexists. exists (row_offsets ts (Z.to_nat (nrows M))).
    split; [apply (allocAndBuildRowStarts_run cfg h M ts); assumption|].
    destruct (row_offsets_spec ts (Z.to_nat (nrows M)) Hs) as (H1 & H2 & H3 & H4 & H5).
    { eapply Forall_impl; [|exact Hrows]. simpl. intros. lia. }
    split; [reflexivity|]. split.
    { cbn [idx_start_]. unfold ints, index_block. rewrite lookup_end1. reflexivity. }
    split; [lia|]. split; [exact H2|]. split.
    { intros i Hi. replace (Z.to_nat (i + 1)) with (S (Z.to_nat i)) by lia.
      apply H3. lia. }
    split; [destruct Hst as (-> & _); exact H4|].
    intros i k t Hi Hk.
    replace (Z.to_nat (i + 1)) with (S (Z.to_nat i)) by lia.
    rewrite (H5 (Z.to_nat i) k t) by (assumption || lia). lia.
  - intros cfg v0 v1 v2 v3. do 2 eexists.
    destruct cfg as [gpu [|] [|]]; split; reflexivity.
Qed.

(** C7 at the 3-row scenario. *)
Lemma row_starts_of_sorted_matrix_witness :
  let ts := P34 1 1 1 1 in
  exists rsi h' offs,
    allocAndBuildRowStarts debug_build (host_matrix 3 3 ts) (host_heap ts) = Ok (rsi, h') /\
    num_rows_ rsi = 3 /\
    ints h' (idx_start_ rsi) = Ok (map Some offs) /\
    Z.of_nat (length offs) = 3 + 1 /\
    nth 0 offs 0 = 0 /\
    (forall i, 0 <= i < 3 ->
               nth (Z.to_nat i) offs 0 <= nth (Z.to_nat (i + 1)) offs 0) /\
    nth (Z.to_nat 3) offs 0 = 4 /\
    (forall i (k : nat) t,
        0 <= i < 3 -> nth_error ts k = Some t ->
        (nth (Z.to_nat i) offs 0 <= Z.of_nat k < nth (Z.to_nat (i + 1)) offs 0
         <-> t_row t = i)).
Proof.
  apply (proj1 row_starts_of_sorted_matrix debug_build
           (host_heap (P34 1 1 1 1)) (host_matrix 3 3 (P34 1 1 1 1)) (P34 1 1 1 1)).
  - repeat split.
  - unfold row_major_sorted, P34, lex_lt.
    repeat (constructor; try (unfold t_row, t_col; simpl; lia)).
  - check_shape.
  - simpl. lia.
Defined.

(** C7 as stated fails without rows: [allocAndBuildRowStarts] returns
    early on [nrows <= 0], and the one cell of the index it returns was
    never written, so [offset[0]] is not [0]. *)
Lemma row_starts_without_rows_are_unwritten :
  exists rsi h',
    allocAndBuildRowStarts debug_build (host_matrix 0 0 []) (host_heap []) = Ok (rsi, h') /\
    ints h' (idx_start_ rsi) = Ok [None] /\
    load_int h' (idx_start_ rsi) 0 = Fault.
Proof. do 2 eexists. repeat split. Qed.

(** ** The weighted products [A D^-1 B^T] *)

Local Open Scope R_scope.

Lemma Rsum_ext (n : nat) (f g : Z -> R) :
  (forall k, (0 <= k < Z.of_nat n)%Z -> f k = g k) -> Rsum n f = Rsum n g.
Proof.
  induction n as [|n IH]; intros H; simpl; [reflexivity|].
  rewrite IH by (intros k Hk; apply H; lia).
  rewrite H by lia. reflexivity.
Qed.

Lemma Rsum_plus (n : nat) (f g : Z -> R) :
  Rsum n (fun k => f k + g k) = Rsum n f + Rsum n g.
Proof. induction n as [|n IH]; simpl; [lra|rewrite IH; lra]. Qed.

Lemma Rsum_zero (n : nat) : Rsum n (fun _ => 0) = 0.
Proof. induction n as [|n IH]; simpl; [reflexivity|rewrite IH; lra]. Qed.

Lemma Rsum_indicator (n : nat) (c : Z) (g : Z -> R) :
  (0 <= c < Z.of_nat n)%Z ->
  Rsum n (fun k => if (c =? k)%Z then g k else 0) = g c.
Proof.
  induction n as [|n IH]; intros Hc; [lia|]. simpl.
  destruct (Z.eqb_spec c (Z.of_nat n)) as [->|Hne].
  - rewrite (Rsum_ext n _ (fun _ => 0)), Rsum_zero; [lra|].
    intros k Hk. destruct (Z.eqb_spec (Z.of_nat n) k); [lia|reflexivity].
  - rewrite IH by lia. lra.
Qed.

Lemma entry_row_of (ts : list triplet) (i k : Z) :
  entry ts i k = col_entry (row_of ts i) k.
Proof.
  unfold entry, col_entry, row_of.
  induction ts as [|t ts IH]; simpl; [reflexivity|].
  destruct (Z.eqb_spec (t_row t) i); simpl; rewrite IH; [reflexivity|lra].
Qed.

Lemma match_sum_col_entry (D : list R) (t : triplet) (lj : list triplet) :
  match_sum D t lj
  = t_val t / nth (Z.to_nat (t_col t)) D 0 * col_entry lj (t_col t).
Proof.
  unfold match_sum, col_entry.
  induction lj as [|u lj IH]; simpl; [unfold Rdiv; ring|].
  rewrite IH. rewrite (Z.eqb_sym (t_col u)).
  destruct (t_col t =? t_col u)%Z; unfold Rdiv; ring.
Qed.

(** The sum over the columns is the sum over the pairs of equal column. *)
Lemma join_sum_columns (D : list R) (n : nat) (li lj : list triplet) :
  Forall (fun t => (0 <= t_col t < Z.of_nat n)%Z) li ->
  Rsum n (fun k => col_entry li k / nth (Z.to_nat k) D 0 * col_entry lj k)
  = join_sum D li lj.
Proof.
  induction 1 as [|t li Ht _ IH]; simpl.
  - rewrite (Rsum_ext n _ (fun _ => 0)), Rsum_zero; [reflexivity|].
    intros k _. unfold Rdiv. ring.
  - rewrite <- IH, match_sum_col_entry.
    rewrite <- (Rsum_indicator n (t_col t)
                  (fun k => t_val t / nth (Z.to_nat k) D 0 * col_entry lj k)) by exact Ht.
    rewrite <- Rsum_plus. apply Rsum_ext. intros k _.
    destruct (t_col t =? k)%Z; unfold Rdiv; ring.
Qed.

Lemma match_sum_none (D : list R) (t : triplet) (lj : list triplet) :
  Forall (fun u => t_col t <> t_col u) lj -> match_sum D t lj = 0.
Proof.
  unfold match_sum. induction 1 as [|u lj Hu _ IH]; simpl; [reflexivity|].
  destruct (Z.eqb_spec (t_col t) (t_col u)); [contradiction|]. rewrite IH. lra.
Qed.

Lemma join_sum_nil_r (D : list R) (li : list triplet) : join_sum D li [] = 0.
Proof. induction li as [|t li IH]; simpl; [reflexivity|rewrite IH; lra]. Qed.

Lemma join_sum_cons_r (D : list R) (li : list triplet) (u : triplet) (lj : list triplet) :
  join_sum D li (u :: lj)
  = fold_right
      (fun t s =>
         (if (t_col t =? t_col u)%Z
          then t_val t / nth (Z.to_nat (t_col t)) D 0 * t_val u else 0) + s)
      0 li
    + join_sum D li lj.
Proof.
  induction li as [|t li IH]; simpl; [lra|]. rewrite IH. lra.
Qed.

Lemma meets_none (D : list R) (u : triplet) (li : list triplet) :
  Forall (fun t => t_col t <> t_col u) li ->
  fold_right
    (fun t s =>
       (if (t_col t =? t_col u)%Z
        then t_val t / nth (Z.to_nat (t_col t)) D 0 * t_val u else 0) + s)
    0 li = 0.
Proof.
  induction 1 as [|t li Ht _ IH]; simpl; [reflexivity|].
  destruct (Z.eqb_spec (t_col t) (t_col u)); [contradiction|]. rewrite IH. lra.
Qed.

Lemma cols_increasing_tail t l : cols_increasing (t :: l) -> cols_increasing l.
Proof. intros H. apply StronglySorted_inv in H. apply H. Qed.

Lemma cols_increasing_head t l :
  cols_increasing (t :: l) -> Forall (fun u => (t_col t < t_col u)%Z) l.
Proof. intros H. apply StronglySorted_inv in H. apply H. Qed.

(** The three cases of the merge-join. *)
Lemma join_sum_equal D t li u lj :
  cols_increasing (t :: li) -> cols_increasing (u :: lj) -> t_col t = t_col u ->
  join_sum D (t :: li) (u :: lj)
  = t_val t / nth (Z.to_nat (t_col t)) D 0 * t_val u + join_sum D li lj.
Proof.
  intros Hi Hj E. simpl.
  rewrite (proj2 (Z.eqb_eq _ _) E).
  rewrite match_sum_none, join_sum_cons_r, meets_none; [lra| |].
  - eapply Forall_impl; [|exact (cols_increasing_head _ _ Hi)]. simpl. intros; lia.
  - eapply Forall_impl; [|exact (cols_increasing_head _ _ Hj)]. simpl. intros; lia.
Qed.

Lemma join_sum_less D t li u lj :
  cols_increasing (u :: lj) -> (t_col t < t_col u)%Z ->
  join_sum D (t :: li) (u :: lj) = join_sum D li (u :: lj).
Proof.
  intros Hj E. change (join_sum D (t :: li) (u :: lj))
    with (match_sum D t (u :: lj) + join_sum D li (u :: lj)).
  rewrite match_sum_none; [lra|].
  constructor; [lia|].
  eapply Forall_impl; [|exact (cols_increasing_head _ _ Hj)]. simpl. intros; lia.
Qed.

Lemma join_sum_greater D t li u lj :
  cols_increasing (t :: li) -> (t_col u < t_col t)%Z ->
  join_sum D (t :: li) (u :: lj) = join_sum D (t :: li) lj.
Proof.
  intros Hi E. rewrite join_sum_cons_r, meets_none; [lra|].
  constructor; [lia|].
  eapply Forall_impl; [|exact (cols_increasing_head _ _ Hi)]. simpl. intros; lia.
Qed.

(** The diagonal loop: a row against itself. *)
Lemma join_sum_self (D : list R) (l : list triplet) :
  cols_increasing l ->
  forall acc,
    fold_left
      (fun acc t => acc + t_val t / nth (Z.to_nat (t_col t)) D 0 * t_val t) l acc
    = acc + join_sum D l l.
Proof.
  induction l as [|t l IH]; intros Hl acc; [simpl; lra|].
  cbn [fold_left].
  rewrite IH by (eapply cols_increasing_tail; exact Hl).
  rewrite join_sum_equal by (assumption || reflexivity). lra.
Qed.

(** *** Row slices of sorted triplets *)

Lemma sorted_split (ts : list triplet) (i : Z) :
  StronglySorted (fun t u => (t_row t <= t_row u)%Z) ts ->
  ts = filter (fun t => (t_row t <? i)%Z) ts ++ row_of ts i
         ++ filter (fun t => (i <? t_row t)%Z) ts.
Proof.
  unfold row_of.
  induction 1 as [|a l Hs IH Ha]; [reflexivity|]. cbn [filter].
  destruct (Z.ltb_spec (t_row a) i) as [Hlt|Hge].
  - destruct (Z.eqb_spec (t_row a) i); [lia|].
    destruct (Z.ltb_spec i (t_row a)); [lia|].
    cbn [app]. f_equal. exact IH.
  - assert (Hnone : filter (fun t => (t_row t <? i)%Z) l = []).
    { clear IH. induction l as [|b l IHl]; [reflexivity|]. cbn [filter].
      inversion Ha as [|? ? Hb Hl']; subst. inversion Hs; subst.
      destruct (Z.ltb_spec (t_row b) i); [lia|]. apply IHl; assumption. }
    rewrite Hnone in *. cbn [app] in *.
    destruct (Z.eqb_spec (t_row a) i) as [Heq|Hne].
    + destruct (Z.ltb_spec i (t_row a)); [lia|].
      cbn [app]. f_equal. exact IH.
    + destruct (Z.ltb_spec i (t_row a)); [|lia].
      assert (Hnone' : filter (fun t => (t_row t =? i)%Z) l = []).
      { clear IH Hnone. induction l as [|b l IHl]; [reflexivity|]. cbn [filter].
        inversion Ha as [|? ? Hb Hl']; subst. inversion Hs; subst.
        destruct (Z.eqb_spec (t_row b) i); [lia|]. apply IHl; assumption. }
      rewrite Hnone' in *. cbn [app] in *. f_equal. exact IH.
Qed.

Lemma count_lt_succ (ts : list triplet) (i : Z) :
  (count_lt ts (i + 1) = count_lt ts i + Z.of_nat (length (row_of ts i)))%Z.
Proof.
  unfold count_lt, row_of.
  induction ts as [|t ts IH]; [reflexivity|]. cbn [filter].
  destruct (Z.ltb_spec (t_row t) (i + 1)), (Z.ltb_spec (t_row t) i),
    (Z.eqb_spec (t_row t) i); cbn [length]; lia.
Qed.

(** The triplets of row [i] lie at the indices from [count_lt ts i] on. *)
Lemma row_slice_nth (ts : list triplet) (i : Z) (k : nat) (t : triplet) :
  row_major_sorted ts ->
  nth_error (row_of ts i) k = Some t ->
  nth_error ts (Z.to_nat (count_lt ts i) + k) = Some t.
Proof.
  intros Hs Hk.
  rewrite (sorted_split ts i (sorted_rows ts Hs)) at 1.
  unfold count_lt. rewrite Nat2Z.id.
  rewrite nth_error_app2 by lia.
  replace (length (filter (fun t => (t_row t <? i)%Z) ts) + k
           - length (filter (fun t => (t_row t <? i)%Z) ts))%nat with k by lia.
  rewrite nth_error_app1; [exact Hk|].
  apply nth_error_Some. congruence.
Qed.

Lemma row_of_cols_increasing (ts : list triplet) (i : Z) :
  row_major_sorted ts -> cols_increasing (row_of ts i).
Proof.
  intros Hs. apply (Sorted_StronglySorted lex_lt_trans) in Hs.
  unfold cols_increasing, row_of.
  induction Hs as [|a l Hs IH Ha]; [constructor|]. cbn [filter].
  destruct (Z.eqb_spec (t_row a) i) as [Heq|]; [|exact IH].
  constructor; [exact IH|].
  rewrite Forall_forall in *. intros u Hu. apply filter_In in Hu.
  destruct Hu as (Hin & Hrow). apply Z.eqb_eq in Hrow.
  specialize (Ha u Hin). unfold lex_lt in Ha. lia.
Qed.

Lemma row_of_cols_in_range (M : hiopMatrixRajaSparseTriplet) (ts : list triplet) (i : Z) :
  in_shape M ts -> Forall (fun t => (0 <= t_col t < ncols M)%Z) (row_of ts i).
Proof.
  unfold in_shape, row_of. rewrite !Forall_forall. intros H t Ht.
  apply filter_In in Ht. apply H, Ht.
Qed.

(** *** The merge-join *)

Lemma merge_join_run cfg h D M1 ts1 M2 ts2 :
  stores h M1 ts1 -> stores h M2 ts2 ->
  forall (fuel : nat) (li lj : list triplet) (ki kj : nat) (acc : R),
    (forall k t, nth_error li k = Some t -> nth_error ts1 (ki + k) = Some t) ->
    (forall k t, nth_error lj k = Some t -> nth_error ts2 (kj + k) = Some t) ->
    cols_increasing li -> cols_increasing lj ->
    Forall (fun t => (0 <= t_col t < Z.of_nat (length D))%Z) li ->
    (length li + length lj <= fuel)%nat ->
    merge_join cfg h D (jCol_ M1) (values_ M1) (nnz M1)
      (jCol_ M2) (values_ M2) (nnz M2) (jCol_ M1)
      (Z.of_nat (ki + length li)) (Z.of_nat (kj + length lj))
      fuel (Z.of_nat ki) (Z.of_nat kj) acc
    = Ok (acc + join_sum D li lj).
Proof.
  intros Hst1 Hst2.
  induction fuel as [|fuel IH]; intros li lj ki kj acc Hi Hj Hci Hcj HD Hfuel.
  - destruct li, lj; simpl in Hfuel; try lia. simpl. f_equal. lra.
  - cbn [merge_join].
    destruct li as [|t li].
    { destruct (Z.ltb_spec (Z.of_nat ki) (Z.of_nat (ki + length (@nil triplet))));
        [simpl in *; lia|]. simpl. f_equal. lra. }
    destruct lj as [|u lj].
    { destruct (Z.ltb_spec (Z.of_nat kj) (Z.of_nat (kj + length (@nil triplet))));
        [simpl in *; lia|]. rewrite andb_false_r, join_sum_nil_r. f_equal. lra. }
    destruct (Z.ltb_spec (Z.of_nat ki) (Z.of_nat (ki + length (t :: li))));
      [|cbn [length] in *; lia].
    destruct (Z.ltb_spec (Z.of_nat kj) (Z.of_nat (kj + length (u :: lj))));
      [|cbn [length] in *; lia].
    cbn [andb].
    pose proof (Hi 0%nat t eq_refl) as Ht. rewrite Nat.add_0_r in Ht.
    pose proof (Hj 0%nat u eq_refl) as Hu. rewrite Nat.add_0_r in Hu.
    assert (Hki : (Z.of_nat ki <? nnz M1)%Z = true).
    { apply Z.ltb_lt. destruct Hst1 as (-> & _).
      assert (ki < length ts1)%nat by (apply nth_error_Some; congruence). lia. }
    assert (Hkj : (Z.of_nat kj <? nnz M2)%Z = true).
    { apply Z.ltb_lt. destruct Hst2 as (-> & _).
      assert (kj < length ts2)%nat by (apply nth_error_Some; congruence). lia. }
    rewrite Hki, Hkj, assert_true. cbn [bind].
    rewrite (load_col h M1 ts1 Hst1 ki t Ht), (load_col h M2 ts2 Hst2 kj u Hu).
    cbn [bind].
    assert (Hi' : forall k t', nth_error li k = Some t' ->
                               nth_error ts1 (S ki + k) = Some t')
      by (intros k t' E; rewrite <- (Hi (S k) t' E); f_equal; lia).
    assert (Hj' : forall k u', nth_error lj k = Some u' ->
                               nth_error ts2 (S kj + k) = Some u')
      by (intros k u' E; rewrite <- (Hj (S k) u' E); f_equal; lia).
    replace (Z.of_nat (ki + length (t :: li))) with (Z.of_nat (S ki + length li))
      by (cbn [length]; lia).
    replace (Z.of_nat (kj + length (u :: lj))) with (Z.of_nat (S kj + length lj))
      by (cbn [length]; lia).
    replace (Z.of_nat ki + 1)%Z with (Z.of_nat (S ki)) by lia.
    replace (Z.of_nat kj + 1)%Z with (Z.of_nat (S kj)) by lia.
    inversion HD as [|? ? Hdt HD']; subst. cbn [length] in Hfuel.
    destruct (Z.eqb_spec (t_col t) (t_col u)) as [Heq|Hne].
    + rewrite (load_val h M1 ts1 Hst1 ki t Ht), (load_val h M2 ts2 Hst2 kj u Hu).
      cbn [bind]. rewrite (rd_nth D (t_col t) 0) by exact Hdt. cbn [bind].
      rewrite (IH li lj (S ki) (S kj)); try assumption;
        try (eapply cols_increasing_tail; eassumption); try lia.
      rewrite join_sum_equal by assumption. f_equal. lra.
    + destruct (Z.ltb_spec (t_col t) (t_col u)) as [Hlt|Hge].
      * replace (Z.of_nat (S kj + length lj)) with (Z.of_nat (kj + length (u :: lj)))
          by (cbn [length]; lia).
        rewrite (IH li (u :: lj) (S ki) kj); try assumption;
          try (eapply cols_increasing_tail; eassumption); try (cbn [length]; lia).
        rewrite join_sum_less by assumption. reflexivity.
      * replace (Z.of_nat (S ki + length li)) with (Z.of_nat (ki + length (t :: li)))
          by (cbn [length]; lia).
        rewrite (IH (t :: li) lj ki (S kj)); try assumption;
          try (eapply cols_increasing_tail; eassumption); try (cbn [length]; lia).
        rewrite join_sum_greater by (assumption || lia). reflexivity.
Qed.

Lemma load_offset h idx ts (n i : nat) :
  ints h idx = Ok (map Some (row_offsets ts n)) -> (i <= n)%nat ->
  load_int h idx (Z.of_nat i) = Ok (count_lt ts (Z.of_nat i)).
Proof.
  intros Hidx Hi. unfold load_int. rewrite Hidx. cbn [bind].
  apply rd_cell_map_Some. unfold row_offsets.
  rewrite nth_error_map, nth_error_seq.
  destruct (Nat.ltb_spec i (S n)); [reflexivity|lia].
Qed.

(** The merge-join of row [i] of the first matrix with row [j] of the
    second, from the row-start indexes on. *)
Lemma weighted_dotprod_run cfg h D M1 ts1 idx1 (n1 : nat) M2 ts2 idx2 (n2 : nat)
    (i j : nat) :
  stores h M1 ts1 -> stores h M2 ts2 ->
  row_major_sorted ts1 -> row_major_sorted ts2 ->
  in_shape M1 ts1 -> Z.of_nat (length D) = ncols M1 ->
  ints h idx1 = Ok (map Some (row_offsets ts1 n1)) ->
  ints h idx2 = Ok (map Some (row_offsets ts2 n2)) ->
  (i < n1)%nat -> (j < n2)%nat ->
  weighted_dotprod cfg h D (jCol_ M1) (values_ M1) (nnz M1) idx1
    (jCol_ M2) (values_ M2) (nnz M2) idx2 (jCol_ M1) (Z.of_nat i) (Z.of_nat j)
  = Ok (join_sum D (row_of ts1 (Z.of_nat i)) (row_of ts2 (Z.of_nat j))).
Proof.
  intros Hst1 Hst2 Hs1 Hs2 Hsh HD Hidx1 Hidx2 Hi Hj.
  unfold weighted_dotprod.
  rewrite (load_offset h idx1 ts1 n1 i Hidx1) by lia.
  rewrite (load_offset h idx2 ts2 n2 j Hidx2) by lia.
  replace (Z.of_nat i + 1)%Z with (Z.of_nat (S i)) by lia.
  replace (Z.of_nat j + 1)%Z with (Z.of_nat (S j)) by lia.
  rewrite (load_offset h idx1 ts1 n1 (S i) Hidx1) by lia.
  cbn [bind].
  set (li := row_of ts1 (Z.of_nat i)). set (lj := row_of ts2 (Z.of_nat j)).
  pose proof (count_lt_succ ts1 (Z.of_nat i)) as Ei. fold li in Ei.
  pose proof (count_lt_succ ts2 (Z.of_nat j)) as Ej. fold lj in Ej.
  pose proof (count_lt_nonneg ts1 (Z.of_nat i)) as Pi.
  pose proof (count_lt_nonneg ts2 (Z.of_nat j)) as Pj.
  replace (Z.of_nat (S i)) with (Z.of_nat i + 1)%Z by lia.
  replace (Z.of_nat (S j)) with (Z.of_nat j + 1)%Z by lia.
  destruct (Z.ltb_spec (count_lt ts1 (Z.of_nat i)) (count_lt ts1 (Z.of_nat i + 1)))
    as [Hlt|Hge].
  - replace (Z.of_nat j + 1)%Z with (Z.of_nat (S j)) by lia.
    rewrite (load_offset h idx2 ts2 n2 (S j) Hidx2) by lia.
    replace (Z.of_nat (S j)) with (Z.of_nat j + 1)%Z by lia.
    cbn [bind].
    set (ki := Z.to_nat (count_lt ts1 (Z.of_nat i))).
    set (kj := Z.to_nat (count_lt ts2 (Z.of_nat j))).
    replace (count_lt ts1 (Z.of_nat i + 1)) with (Z.of_nat (ki + length li)) by lia.
    replace (count_lt ts2 (Z.of_nat j + 1)) with (Z.of_nat (kj + length lj)) by lia.
    replace (count_lt ts1 (Z.of_nat i)) with (Z.of_nat ki) by lia.
    replace (count_lt ts2 (Z.of_nat j)) with (Z.of_nat kj) by lia.
    rewrite (merge_join_run cfg h D M1 ts1 M2 ts2 Hst1 Hst2).
    + f_equal. lra.
    + intros k t. apply row_slice_nth. exact Hs1.
    + intros k t. apply row_slice_nth. exact Hs2.
    + apply row_of_cols_increasing. exact Hs1.
    + apply row_of_cols_increasing. exact Hs2.
    + rewrite HD. apply (row_of_cols_in_range M1). exact Hsh.
    + lia.
  - assert (Hnil : li = []) by (destruct li; [reflexivity|cbn [length] in Ei; lia]).
    rewrite Hnil. reflexivity.
Qed.

Lemma join_sum_weighted_product M1 ts1 ts2 D (i j : Z) :
  in_shape M1 ts1 ->
  join_sum D (row_of ts1 i) (row_of ts2 j)
  = weighted_product ts1 ts2 D (ncols M1) i j.
Proof.
  intros Hsh. unfold weighted_product.
  rewrite (Rsum_ext _ _
             (fun k => col_entry (row_of ts1 i) k / nth (Z.to_nat k) D 0
                       * col_entry (row_of ts2 j) k))
    by (intros k _; rewrite !entry_row_of; reflexivity).
  symmetry. apply join_sum_columns.
  eapply Forall_impl; [|exact (row_of_cols_in_range M1 ts1 i Hsh)].
  simpl. intros t Ht. lia.
Qed.

(** The loop of the diagonal entry: row [i] against itself. *)
Lemma diag_loop_run h D M ts (n i : nat) :
  stores h M ts -> row_major_sorted ts -> in_shape M ts ->
  Z.of_nat (length D) = ncols M ->
  for_range (count_lt ts (Z.of_nat i)) (count_lt ts (Z.of_nat i + 1))
    (fun k acc =>
       v <- load_dbl h (values_ M) k ;;
       c <- load_int h (jCol_ M) k ;;
       d <- rd D c ;;
       Ok (acc + v / d * v))
    0
  = Ok (join_sum D (row_of ts (Z.of_nat i)) (row_of ts (Z.of_nat i))).
Proof.
  intros Hst Hs Hsh HD. unfold for_range.
  set (li := row_of ts (Z.of_nat i)).
  pose proof (count_lt_succ ts (Z.of_nat i)) as Ei. fold li in Ei.
  pose proof (count_lt_nonneg ts (Z.of_nat i)) as Pi.
  replace (Z.to_nat (count_lt ts (Z.of_nat i + 1) - count_lt ts (Z.of_nat i)))
    with (length li) by lia.
  replace (count_lt ts (Z.of_nat i))
    with (Z.of_nat (Z.to_nat (count_lt ts (Z.of_nat i)))) by lia.
  rewrite (iter_range_foldM _
             (fun t acc =>
                Ok (acc + t_val t / nth (Z.to_nat (t_col t)) D 0 * t_val t)) li).
  - rewrite (foldM_pure
               (fun acc t => acc + t_val t / nth (Z.to_nat (t_col t)) D 0 * t_val t)).
    rewrite join_sum_self by (apply row_of_cols_increasing; exact Hs).
    f_equal. lra.
  - intros k t s E.
    pose proof (row_slice_nth ts (Z.of_nat i) k t Hs E) as Ht.
    rewrite (load_val h M ts Hst _ t Ht), (load_col h M ts Hst _ t Ht).
    cbn [bind].
    pose proof (row_of_cols_in_range M ts (Z.of_nat i) Hsh) as Hc.
    rewrite Forall_forall in Hc. specialize (Hc t (nth_error_In _ _ E)).
    rewrite (rd_nth D (t_col t) 0) by lia. reflexivity.
Qed.

(** *** Writing into the dense matrix *)

Local Open Scope Z_scope.

Lemma View_in_buffer (m n a b : Z) :
  0 <= a < m -> 0 <= b < n -> 0 <= View n a b < m * n.
Proof. unfold View. intros. nia. Qed.

Lemma View_injective (n a b a' b' : Z) :
  0 <= b < n -> 0 <= b' < n -> View n a b = View n a' b' -> a = a' /\ b = b'.
Proof.
  unfold View. intros Hb Hb' E.
  assert (a = a')
    by (destruct (Z.lt_trichotomy a a') as [H|[H|H]];
        [exfalso; nia|exact H|exfalso; nia]).
  subst. lia.
Qed.

Lemma View_add_run (n : Z) (buf : list R) (i j : Z) (v : R) :
  0 <= View n i j < Z.of_nat (length buf) ->
  View_add n buf i j v = Ok (add_at buf (View n i j) v).
Proof.
  intros Hp. unfold View_add, add_at.
  rewrite (rd_nth buf _ 0%R) by exact Hp. cbn [bind].
  apply wr_set_nth. exact Hp.
Qed.

Lemma updated_step (W : hiopMatrixDense) (f g : Z -> Z -> R) (buf : list R)
    (a0 b0 : Z) (v : R) :
  dense_ok W -> updated W f buf ->
  0 <= a0 < W_m W -> 0 <= b0 < W_n W ->
  (forall a b, 0 <= a < W_m W -> 0 <= b < W_n W ->
      g a b = (f a b + (if (a =? a0) && (b =? b0) then v else 0))%R) ->
  exists buf', View_add (W_n W) buf a0 b0 v = Ok buf' /\ updated W g buf'.
Proof.
  intros (Hm & Hn & Hlen) (Hl & Hf) Ha0 Hb0 Hg.
  pose proof (View_in_buffer (W_m W) (W_n W) a0 b0 Ha0 Hb0) as Hp.
  exists (add_at buf (View (W_n W) a0 b0) v). split.
  - apply View_add_run. lia.
  - split; [rewrite add_at_length; exact Hl|].
    intros a b Ha Hb.
    pose proof (View_in_buffer (W_m W) (W_n W) a b Ha Hb) as Hq.
    rewrite nth_add_at by lia. rewrite Hf, Hg by assumption.
    destruct (Z.eqb_spec (View (W_n W) a0 b0) (View (W_n W) a b)) as [E|Hne].
    + apply View_injective in E; [|lia|lia]. destruct E as (-> & ->).
      rewrite !Z.eqb_refl. cbn [andb]. lra.
    + destruct (Z.eqb_spec a a0) as [->|]; [|cbn [andb]; lra].
      destruct (Z.eqb_spec b b0) as [->|]; [congruence|cbn [andb]; lra].
Qed.

Lemma updated_ext (W : hiopMatrixDense) (f g : Z -> Z -> R) (buf : list R) :
  (forall a b, 0 <= a < W_m W -> 0 <= b < W_n W -> f a b = g a b) ->
  updated W f buf -> updated W g buf.
Proof.
  intros Hfg (Hl & Hf). split; [exact Hl|].
  intros a b Ha Hb. rewrite Hf, Hfg by assumption. reflexivity.
Qed.

Lemma updated_init (W : hiopMatrixDense) (f : Z -> Z -> R) :
  (forall a b, 0 <= a < W_m W -> 0 <= b < W_n W -> f a b = 0%R) ->
  updated W f (local_buffer W).
Proof.
  intros Hf. split; [reflexivity|].
  intros a b Ha Hb. rewrite Hf by assumption. lra.
Qed.

(** *** The cached index *)

Lemma allocAndBuildRowStarts_no_rows cfg h M :
  nrows M = 0 ->
  allocAndBuildRowStarts cfg M h
  = Ok ({| num_rows_ := 0; rs_mem_space_ := mem_space_ M;
           idx_start_ := S (length h) |},
        h ++ [None; fresh_ints (mem_space_ M) 1]).
Proof.
  intros Hn. unfold allocAndBuildRowStarts, new_RowStartsInfo, allocate_ints.
  rewrite Hn. cbn [Z.leb Z.compare Z.add Z.ltb]. rewrite assert_true. cbn [bind idx_start_].
  unfold delete_RowStartsInfo, deallocate. cbn [idx_start_].
  rewrite <- !app_assoc. cbn [app]. rewrite lookup_end0. cbn [bind].
  rewrite set_nth_app, length_app. cbn [length]. rewrite Nat.add_1_r.
  reflexivity.
Qed.

Lemma prepareRowStarts_run cfg h M ts :
  host_stores h M ts -> row_major_sorted ts -> in_shape M ts ->
  0 <= nrows M -> cache_valid h M ts ->
  exists rsi ext,
    prepareRowStarts cfg M h = Ok (set_row_starts_host M rsi, rsi, h ++ ext) /\
    (1 <= nrows M ->
     ints (h ++ ext) (idx_start_ rsi)
     = Ok (map Some (row_offsets ts (Z.to_nat (nrows M))))).
Proof.
  intros Hst Hs Hsh Hn Hc. unfold prepareRowStarts, cache_valid in *.
  destruct (row_starts_host M) as [rsi|] eqn:Hcache.
  - exists rsi, []. rewrite app_nil_r. split; [|exact Hc].
    do 3 f_equal. destruct M; simpl in *. subst. reflexivity.
  - destruct (Z.eq_dec (nrows M) 0) as [H0|Hpos].
    + rewrite allocAndBuildRowStarts_no_rows by exact H0. cbn [bind].
      do 2 eexists. split; [reflexivity|]. lia.
    + rewrite (allocAndBuildRowStarts_run cfg h M ts)
        by (try assumption; try lia; apply in_shape_row_bounds; assumption).
      cbn [bind]. do 2 eexists. split; [reflexivity|].
      intros _. cbn [idx_start_]. unfold ints, index_block.
      rewrite lookup_end1. reflexivity.
Qed.

Lemma stores_app_l h ext M ts : stores h M ts -> stores (h ++ ext) M ts.
Proof.
  intros (Hn & Hr & Hc & Hv).
  repeat split; [exact Hn| | |];
    (apply ints_app_l || apply dbls_app_l); assumption.
Qed.

(** *** The diagonal block *)

Ltac by_comparisons :=
  repeat match goal with
         | |- context [Z.leb ?x ?y] => destruct (Z.leb_spec x y)
         | |- context [Z.ltb ?x ?y] => destruct (Z.ltb_spec x y)
         | |- context [Z.eqb ?x ?y] => destruct (Z.eqb_spec x y)
         end;
  cbn [andb orb]; try lia; try lra; try reflexivity.

Lemma load_offset_Z h idx ts (n : nat) (i : Z) :
  ints h idx = Ok (map Some (row_offsets ts n)) -> 0 <= i <= Z.of_nat n ->
  load_int h idx i = Ok (count_lt ts i).
Proof.
  intros Hidx Hi. rewrite <- (Z2Nat.id i) by lia.
  apply (load_offset h idx ts n); [exact Hidx|lia].
Qed.

Lemma diag_loop_run_Z h D M ts (i : Z) :
  stores h M ts -> row_major_sorted ts -> in_shape M ts ->
  Z.of_nat (length D) = ncols M -> 0 <= i ->
  for_range (count_lt ts i) (count_lt ts (i + 1))
    (fun k acc =>
       v <- load_dbl h (values_ M) k ;;
       c <- load_int h (jCol_ M) k ;;
       d <- rd D c ;;
       Ok (acc + v / d * v)%R)
    0%R
  = Ok (join_sum D (row_of ts i) (row_of ts i)).
Proof.
  intros Hst Hs Hsh HD Hi. rewrite <- (Z2Nat.id i) by lia.
  apply (diag_loop_run h D M ts 0%nat); assumption.
Qed.

Lemma weighted_dotprod_run_Z cfg h D M1 ts1 idx1 (n1 : nat) M2 ts2 idx2 (n2 : nat)
    (i j : Z) :
  stores h M1 ts1 -> stores h M2 ts2 ->
  row_major_sorted ts1 -> row_major_sorted ts2 ->
  in_shape M1 ts1 -> Z.of_nat (length D) = ncols M1 ->
  ints h idx1 = Ok (map Some (row_offsets ts1 n1)) ->
  ints h idx2 = Ok (map Some (row_offsets ts2 n2)) ->
  0 <= i < Z.of_nat n1 -> 0 <= j < Z.of_nat n2 ->
  weighted_dotprod cfg h D (jCol_ M1) (values_ M1) (nnz M1) idx1
    (jCol_ M2) (values_ M2) (nnz M2) idx2 (jCol_ M1) i j
  = Ok (join_sum D (row_of ts1 i) (row_of ts2 j)).
Proof.
  intros Hst1 Hst2 Hs1 Hs2 Hsh HD Hidx1 Hidx2 Hi Hj.
  rewrite <- (Z2Nat.id i), <- (Z2Nat.id j) by lia.
  apply (weighted_dotprod_run cfg h D M1 ts1 idx1 n1 M2 ts2 idx2 n2);
    assumption || lia.
Qed.

Lemma addMDinvMtrans_run cfg h M ts (d : Z) (alpha : R) (D : list R)
    (W : hiopMatrixDense) :
  stores h M ts -> host_stores h M ts -> row_major_sorted ts -> in_shape M ts ->
  0 <= nrows M -> cache_valid h M ts ->
  Z.of_nat (length D) = ncols M ->
  dense_ok W -> 0 <= d -> d + nrows M <= W_m W -> d + nrows M <= W_n W ->
  exists rsi ext buf,
    addMDinvMtransToDiagBlockOfSymDeMatUTri cfg M d alpha D W h
    = Ok (set_row_starts_host M rsi, h ++ ext, set_buffer W buf) /\
    updated W
      (fun a b =>
         if in_upper_block d (nrows M) a b
         then (alpha * weighted_product ts ts D (ncols M) (a - d) (b - d))%R
         else 0%R)
      buf.
Proof.
  intros Hst Hhst Hs Hsh Hn Hc HD HW Hd Hdm Hdn.
  unfold addMDinvMtransToDiagBlockOfSymDeMatUTri. cbv zeta.
  rewrite !assert_holds by
    (try (apply andb_true_intro; split); try apply Z.leb_le; try apply Z.eqb_eq; lia).
  cbn [bind].
  destruct (prepareRowStarts_run cfg h M ts Hhst Hs Hsh Hn Hc) as (rsi & ext & -> & Hidx).
  cbn [bind].
  pose proof (stores_app_l h ext M ts Hst) as Hst'.
  set (h' := h ++ ext) in *.
  set (nr := nrows M) in *.
  set (wp := fun i j => (alpha * weighted_product ts ts D (ncols M) i j)%R).
  set (F := fun i j a b => if written d nr i j a b then wp (a - d) (b - d) else 0%R).
  unfold for_range at 1. rewrite Z.sub_0_r.
  edestruct (iter_range_inv (fun i buf => updated W (F i i) buf))
    as (buf & -> & Hbuf); [| |exists rsi, ext, buf; split; [reflexivity|]].
  - apply updated_init. intros a b _ _. unfold F, written. by_comparisons.
  - intros i buf Hi Hinv.
    assert (Hnr : 1 <= nr) by lia. specialize (Hidx Hnr).
    cbv beta.
    rewrite (load_offset_Z h' _ ts (Z.to_nat nr) i Hidx) by lia.
    rewrite (load_offset_Z h' _ ts (Z.to_nat nr) (i + 1) Hidx) by lia.
    cbn [bind].
    rewrite (diag_loop_run_Z h' D M ts i) by (assumption || lia).
    cbn [bind].
    rewrite (join_sum_weighted_product M ts ts D) by exact Hsh.
    destruct (updated_step W (F i i) (F i (i + 1)) buf (i + d) (i + d)
                (alpha * weighted_product ts ts D (ncols M) i i)%R HW Hinv)
      as (buf1 & -> & Hbuf1); [lia|lia| |].
    { intros a b _ _. unfold F, written, wp.
      destruct (Z.eqb_spec a (i + d)) as [->|];
        [destruct (Z.eqb_spec b (i + d)) as [->|]|];
        [replace (i + d - d) with i by lia| |]; by_comparisons. }
    cbn [bind]. unfold for_range.
    edestruct (iter_range_inv (fun j buf => updated W (F i j) buf))
      as (buf2 & -> & Hbuf2); [exact Hbuf1| |exists buf2; split; [reflexivity|]].
    + intros j bufj Hj Hinvj. cbv beta.
      rewrite (weighted_dotprod_run_Z cfg h' D M ts _ (Z.to_nat nr) M ts _ (Z.to_nat nr))
        by (assumption || lia).
      cbn [bind].
      rewrite (join_sum_weighted_product M ts ts D) by exact Hsh.
      apply (updated_step W (F i j) (F i (j + 1)) bufj (i + d) (j + d) _ HW Hinvj);
        [lia|lia|].
      intros a b _ _. unfold F, written, wp.
      destruct (Z.eqb_spec a (i + d)) as [->|];
        [destruct (Z.eqb_spec b (j + d)) as [->|]|];
        [replace (i + d - d) with i by lia; replace (j + d - d) with j by lia| |];
        by_comparisons.
    + eapply updated_ext; [|exact Hbuf2].
      intros a b _ _. unfold F, written. by_comparisons.
  - eapply updated_ext; [|exact Hbuf].
    intros a b _ _. unfold F, written, in_upper_block, wp. by_comparisons.
Qed.

(** C5. For row-major-sorted triplets with strictly increasing columns in
    each row and [D] without zero entry,
    [addMDinvMtransToDiagBlockOfSymDeMatUTri(dest_start, alpha, D, W)] adds
    [alpha * (A D^-1 A^T)[i,j]], the sum over the columns [k] of
    [A[i,k] / D[k] * A[j,k]], to the entry
    [(dest_start + i, dest_start + j)] of [W] for [0 <= i <= j < nrows], and
    leaves the other entries of [W] as they were.  For the one-row matrix
    [[a]] and [D = [d]] it adds [alpha * a^2 / d] to the single entry. *)
Theorem addMDinvMtrans_adds_weighted_gram_block :
  (forall cfg h M ts d alpha D W,
      stores h M ts -> host_stores h M ts -> row_major_sorted ts ->
      in_shape M ts -> 0 <= nrows M -> cache_valid h M ts ->
      Z.of_nat (length D) = ncols M -> Forall (fun x => x <> 0%R) D ->
      dense_ok W -> 0 <= d -> d + nrows M <= W_m W -> d + nrows M <= W_n W ->
      exists M' h' W',
        addMDinvMtransToDiagBlockOfSymDeMatUTri cfg M d alpha D W h
        = Ok (M', h', W') /\
        W_m W' = W_m W /\ W_n W' = W_n W /\
        length (local_buffer W') = length (local_buffer W) /\
        forall a b, 0 <= a < W_m W -> 0 <= b < W_n W ->
          nth (Z.to_nat (View (W_n W) a b)) (local_buffer W') 0%R
          = (nth (Z.to_nat (View (W_n W) a b)) (local_buffer W) 0
             + (if in_upper_block d (nrows M) a b
                then alpha * weighted_product ts ts D (ncols M) (a - d) (b - d)
                else 0))%R)
  /\
  (forall cfg a dd alpha w,
      dd <> 0%R ->
      exists M' h',
        addMDinvMtransToDiagBlockOfSymDeMatUTri cfg (host_matrix 1 1 (A11 a)) 0 alpha
          [dd] {| W_m := 1; W_n := 1; local_buffer := [w] |} (host_heap (A11 a))
        = Ok (M', h',
              {| W_m := 1; W_n := 1;
                 local_buffer := [(w + alpha * (a * a / dd))%R] |})).
Proof.
  split.
  - intros cfg h M ts d alpha D W Hst Hhst Hs Hsh Hn Hc HD _ HW Hd Hdm Hdn.
    destruct (addMDinvMtrans_run cfg h M ts d alpha D W) as (rsi & ext & buf & E & Hl & Hf);
      try assumption.
    do 3 eexists. split; [exact E|].
    split; [reflexivity|]. split; [reflexivity|]. split; [exact Hl|exact Hf].
  - intros cfg a dd alpha w _. do 2 eexists.
    destruct cfg as [gpu [|] [|]]; run;
      (do 2 f_equal; f_equal; f_equal; unfold Rdiv; ring).
Qed.

(** C5 on [diag(2, 3)], with [D = [4, 5]], into the lower right block of a
    3x3 matrix. *)
Lemma addMDinvMtrans_adds_weighted_gram_block_witness :
  let W := {| W_m := 3; W_n := 3;
              local_buffer := [0; 0; 0; 0; 0; 0; 0; 0; 0]%R |} in
  exists M' h' W',
    addMDinvMtransToDiagBlockOfSymDeMatUTri debug_build (host_matrix 2 2 D22) 1 1
      [4; 5]%R W (host_heap D22)
    = Ok (M', h', W') /\
    W_m W' = 3 /\ W_n W' = 3 /\
    length (local_buffer W') = 9%nat /\
    forall a b, 0 <= a < 3 -> 0 <= b < 3 ->
      nth (Z.to_nat (View 3 a b)) (local_buffer W') 0%R
      = (nth (Z.to_nat (View 3 a b)) (local_buffer W) 0
         + (if in_upper_block 1 2 a b
            then 1 * weighted_product D22 D22 [4; 5] 2 (a - 1) (b - 1)
            else 0))%R.
Proof.
  apply (proj1 addMDinvMtrans_adds_weighted_gram_block debug_build
           (host_heap D22) (host_matrix 2 2 D22) D22 1 1%R [4; 5]%R).
  - apply host_matrix_stores.
  - repeat split.
  - unfold row_major_sorted, D22, lex_lt.
    repeat (constructor; try (unfold t_row, t_col; simpl; lia)).
  - check_shape.
  - simpl. lia.
  - exact I.
  - reflexivity.
  - repeat (constructor; try lra).
  - repeat split; simpl; lia.
  - lia.
  - simpl. lia.
  - simpl. lia.
Defined.

(** ** [addMDinvNtransToSymDeMatUTri] *)

Lemma iter_range_io_inv {St : Type} (P : Z -> St -> list string -> Prop)
    (body : Z -> St -> io St) :
  forall (n : nat) (lo : Z) (s : St) (out : list string),
    P lo s out ->
    (forall i s out, lo <= i < lo + Z.of_nat n -> P i s out ->
                     exists s' out', body i s out = (out', Ok s') /\ P (i + 1) s' out') ->
    exists s' out',
      iter_range_io n lo body s out = (out', Ok s') /\ P (lo + Z.of_nat n) s' out'.
Proof.
  induction n as [|n IH]; intros lo s out Hs Hbody.
  - exists s, out. split; [reflexivity|].
    replace (lo + Z.of_nat 0) with lo by lia. exact Hs.
  - destruct (Hbody lo s out ltac:(lia) Hs) as (s1 & out1 & E1 & H1).
    destruct (IH (lo + 1) s1 out1 H1) as (s2 & out2 & E2 & H2).
    { intros i s' out' Hi. apply Hbody. lia. }
    exists s2, out2. split.
    + cbn [iter_range_io]. unfold io_bind at 1. rewrite E1. exact E2.
    + replace (lo + Z.of_nat (S n)) with (lo + 1 + Z.of_nat n) by lia. exact H2.
Qed.

(** A loop whose turn [k] stops at an assertion stops there, when the
    turns before it return and print nothing. *)
Lemma iter_range_io_abort {St : Type} (P : Z -> St -> Prop)
    (body : Z -> St -> io St) (out out' : list string) :
  forall (k n : nat) (lo : Z) (s : St),
    (k < n)%nat -> P lo s ->
    (forall i s, lo <= i < lo + Z.of_nat k -> P i s ->
                 exists s', body i s out = (out, Ok s') /\ P (i + 1) s') ->
    (forall s, P (lo + Z.of_nat k) s ->
               body (lo + Z.of_nat k) s out = (out', AssertFailed)) ->
    iter_range_io n lo body s out = (out', AssertFailed).
Proof.
  induction k as [|k IH]; intros n lo s Hk Hs Hbefore Hat;
    (destruct n as [|n]; [lia|]); cbn [iter_range_io]; unfold io_bind at 1.
  - replace (lo + Z.of_nat 0) with lo in Hat by lia.
    rewrite (Hat s Hs). reflexivity.
  - destruct (Hbefore lo s ltac:(lia) Hs) as (s1 & E1 & H1). rewrite E1.
    apply IH; [lia|exact H1| |].
    + intros i s' Hi. apply Hbefore. lia.
    + intros s' Hs'. replace (lo + 1 + Z.of_nat k) with (lo + Z.of_nat (S k)) in * by lia.
      apply Hat. exact Hs'.
Qed.

Lemma warnings_add cfg (a b : nat) :
  warnings cfg (a + b) = warnings cfg a ++ warnings cfg b.
Proof.
  unfold warnings. destruct (HIOP_DEEPCHECKS cfg); [apply repeat_app|reflexivity].
Qed.

Lemma lower_in_row_none rs cs i (n : nat) :
  (forall j, 0 <= j < Z.of_nat n -> lower rs cs i j = false) ->
  lower_in_row rs cs i n = 0%nat.
Proof.
  induction n as [|n IH]; intros H; [reflexivity|]. cbn [lower_in_row].
  rewrite IH by (intros j Hj; apply H; lia). rewrite H by lia. reflexivity.
Qed.

Section TwoMatrices.
Variables (cfg : build) (h : heap) (D : list R).
Variables (M1 M2 : hiopMatrixRajaSparseTriplet) (ts1 ts2 : list triplet).
Variables (rsi1 rsi2 : RowStartsInfo) (W : hiopMatrixDense).
Variables (rs cs : Z) (alpha : R).

Hypothesis Hst1 : stores h M1 ts1.
Hypothesis Hst2 : stores h M2 ts2.
Hypothesis Hs1 : row_major_sorted ts1.
Hypothesis Hs2 : row_major_sorted ts2.
Hypothesis Hsh1 : in_shape M1 ts1.
Hypothesis HD : Z.of_nat (length D) = ncols M1.
Hypothesis Hidx1 :
  1 <= nrows M1 ->
  ints h (idx_start_ rsi1) = Ok (map Some (row_offsets ts1 (Z.to_nat (nrows M1)))).
Hypothesis Hidx2 :
  1 <= nrows M2 ->
  ints h (idx_start_ rsi2) = Ok (map Some (row_offsets ts2 (Z.to_nat (nrows M2)))).
Hypothesis HW : dense_ok W.
Hypothesis Hrs : 0 <= rs /\ rs + nrows M1 <= W_m W.
Hypothesis Hcs : 0 <= cs /\ cs + nrows M2 <= W_n W.

Let wp (i j : Z) : R := (alpha * weighted_product ts1 ts2 D (ncols M1) i j)%R.

Let G (i j a b : Z) : R :=
  if written_full rs cs (nrows M2) i j a b then wp (a - rs) (b - cs) else 0%R.

(** The pair [(i, j)] gets past the deep check. *)
Definition pair_passes (i j : Z) : Prop :=
  NDEBUG cfg = true \/ HIOP_DEEPCHECKS cfg = false \/ lower rs cs i j = false.

Lemma pair_dotprod (i j : Z) :
  0 <= i < nrows M1 -> 0 <= j < nrows M2 ->
  weighted_dotprod cfg h D (jCol_ M1) (values_ M1) (nnz M1) (idx_start_ rsi1)
    (jCol_ M2) (values_ M2) (nnz M2) (idx_start_ rsi2) (jCol_ M1) i j
  = Ok (weighted_product ts1 ts2 D (ncols M1) i j).
Proof.
  intros Hi Hj.
  rewrite (weighted_dotprod_run_Z cfg h D M1 ts1 _ (Z.to_nat (nrows M1))
             M2 ts2 _ (Z.to_nat (nrows M2)));
    try assumption; try lia; try (apply Hidx1; lia); try (apply Hidx2; lia).
  rewrite (join_sum_weighted_product M1 ts1 ts2 D) by exact Hsh1. reflexivity.
Qed.

Lemma accumulate_pair_run (i j : Z) (buf : list R) (out : list string) :
  0 <= i < nrows M1 -> 0 <= j < nrows M2 -> pair_passes i j ->
  updated W (G i j) buf ->
  exists buf',
    accumulate_pair cfg h D M1 rsi1 M2 rsi2 W rs cs alpha i j buf out
    = (out ++ warnings cfg (if lower rs cs i j then 1 else 0), Ok buf') /\
    updated W (G i (j + 1)) buf'.
Proof.
  intros Hi Hj Hpass Hbuf.
  destruct (updated_step W (G i j) (G i (j + 1)) buf (i + rs) (j + cs)
              (alpha * weighted_product ts1 ts2 D (ncols M1) i j)%R HW Hbuf)
    as (buf' & Eadd & Hbuf'); [lia|lia| |].
  { intros a b _ _. unfold G, written_full, wp.
    destruct (Z.eqb_spec a (i + rs)) as [->|];
      [destruct (Z.eqb_spec b (j + cs)) as [->|]|];
      [replace (i + rs - rs) with i by lia; replace (j + cs - cs) with j by lia| |];
      by_comparisons. }
  exists buf'. split; [|exact Hbuf'].
  unfold accumulate_pair, io_bind, lift, printf, warnings, lower in *.
  rewrite pair_dotprod by assumption.
  destruct (HIOP_DEEPCHECKS cfg) eqn:Hdeep.
  - destruct (Z.ltb_spec (j + cs) (i + rs)) as [Hlow|Hup].
    + destruct Hpass as [Hnd|[Hf|Hf]].
      * unfold assert_. rewrite Hnd, Eadd. reflexivity.
      * congruence.
      * apply Z.ltb_ge in Hf. lia.
    + rewrite assert_holds by (apply Z.leb_le; lia).
      rewrite Eadd, app_nil_r. reflexivity.
  - rewrite Eadd, app_nil_r. reflexivity.
Qed.

Lemma accumulate_pair_abort (i j : Z) (buf : list R) (out : list string) :
  0 <= i < nrows M1 -> 0 <= j < nrows M2 ->
  HIOP_DEEPCHECKS cfg = true -> NDEBUG cfg = false -> lower rs cs i j = true ->
  accumulate_pair cfg h D M1 rsi1 M2 rsi2 W rs cs alpha i j buf out
  = (out ++ [lower_triangular_warning], AssertFailed).
Proof.
  intros Hi Hj Hdeep Hnd Hlow.
  unfold accumulate_pair, io_bind, lift, printf, lower in *.
  rewrite pair_dotprod by assumption. rewrite Hdeep, Hlow.
  unfold assert_. rewrite Hnd.
  apply Z.ltb_lt in Hlow.
  destruct (Z.leb_spec (i + rs) (j + cs)); [lia|reflexivity].
Qed.

(** The loop over [j], for a row whose pairs all pass. *)
Lemma block_row_run (i : Z) (buf : list R) (out : list string) :
  0 <= i < nrows M1 ->
  (forall j, 0 <= j < nrows M2 -> pair_passes i j) ->
  updated W (G i 0) buf ->
  exists buf',
    for_range_io 0 (nrows M2)
      (accumulate_pair cfg h D M1 rsi1 M2 rsi2 W rs cs alpha i) buf out
    = (out ++ warnings cfg (lower_in_row rs cs i (Z.to_nat (nrows M2))), Ok buf') /\
    updated W (G (i + 1) 0) buf'.
Proof.
  intros Hi Hpass Hbuf. unfold for_range_io. rewrite Z.sub_0_r.
  destruct (iter_range_io_inv
              (fun j buf' out' =>
                 updated W (G i j) buf' /\
                 out' = out ++ warnings cfg (lower_in_row rs cs i (Z.to_nat j)))
              (accumulate_pair cfg h D M1 rsi1 M2 rsi2 W rs cs alpha i)
              (Z.to_nat (nrows M2)) 0 buf out)
    as (buf' & out' & E & Hfin & ->).
  - split; [exact Hbuf|]. unfold warnings. cbn [Z.to_nat lower_in_row repeat].
    destruct (HIOP_DEEPCHECKS cfg); rewrite app_nil_r; reflexivity.
  - intros j bufj outj Hj (Hinv & ->).
    destruct (accumulate_pair_run i j bufj
                (out ++ warnings cfg (lower_in_row rs cs i (Z.to_nat j))))
      as (buf' & E & Hbuf'); [lia|lia|apply Hpass; lia|exact Hinv|].
    exists buf'. eexists. split; [exact E|]. split; [exact Hbuf'|].
    replace (Z.to_nat (j + 1)) with (S (Z.to_nat j)) by lia.
    cbn [lower_in_row]. rewrite warnings_add, app_assoc.
    replace (Z.of_nat (Z.to_nat j)) with j by lia. reflexivity.
  - exists buf'. split.
    + rewrite E.
      replace (Z.to_nat (0 + Z.of_nat (Z.to_nat (nrows M2))))
        with (Z.to_nat (nrows M2)) by lia.
      reflexivity.
    + eapply updated_ext; [|exact Hfin].
      intros a b _ _. unfold G, written_full. by_comparisons.
Qed.

(** The whole block, when every pair passes. *)
Lemma block_run (out : list string) :
  (forall i j, 0 <= i < nrows M1 -> 0 <= j < nrows M2 -> pair_passes i j) ->
  exists buf,
    for_range_io 0 (nrows M1)
      (fun i buf =>
         for_range_io 0 (nrows M2)
           (accumulate_pair cfg h D M1 rsi1 M2 rsi2 W rs cs alpha i) buf)
      (local_buffer W) out
    = (out ++ warnings cfg
                (lower_in_rows rs cs (Z.to_nat (nrows M2)) (Z.to_nat (nrows M1))),
       Ok buf) /\
    updated W
      (fun a b => if in_block rs cs (nrows M1) (nrows M2) a b
                  then wp (a - rs) (b - cs) else 0%R)
      buf.
Proof.
  intros Hpass. unfold for_range_io at 1. rewrite Z.sub_0_r.
  destruct (iter_range_io_inv
              (fun i buf' out' =>
                 updated W (G i 0) buf' /\
                 out' = out ++ warnings cfg
                          (lower_in_rows rs cs (Z.to_nat (nrows M2)) (Z.to_nat i)))
              (fun i buf =>
                 for_range_io 0 (nrows M2)
                   (accumulate_pair cfg h D M1 rsi1 M2 rsi2 W rs cs alpha i) buf)
              (Z.to_nat (nrows M1)) 0 (local_buffer W) out)
    as (buf' & out' & E & Hfin & ->).
  - split.
    + apply updated_init. intros a b _ _. unfold G, written_full. by_comparisons.
    + unfold warnings. cbn [Z.to_nat lower_in_rows repeat].
      destruct (HIOP_DEEPCHECKS cfg); rewrite app_nil_r; reflexivity.
  - intros i bufi outi Hi (Hinv & ->). cbv beta.
    destruct (block_row_run i bufi
                (out ++ warnings cfg
                   (lower_in_rows rs cs (Z.to_nat (nrows M2)) (Z.to_nat i))))
      as (buf' & E & Hbuf'); [lia|intros j Hj; apply Hpass; lia|exact Hinv|].
    exists buf'. eexists. split; [exact E|]. split; [exact Hbuf'|].
    replace (Z.to_nat (i + 1)) with (S (Z.to_nat i)) by lia.
    cbn [lower_in_rows]. rewrite warnings_add, app_assoc.
    replace (Z.of_nat (Z.to_nat i)) with i by lia. reflexivity.
  - exists buf'. split.
    + rewrite E.
      replace (Z.to_nat (0 + Z.of_nat (Z.to_nat (nrows M1))))
        with (Z.to_nat (nrows M1)) by lia.
      reflexivity.
    + eapply updated_ext; [|exact Hfin].
      intros a b _ _. unfold G, written_full, in_block. by_comparisons.
Qed.

(** The whole block, when a pair lands below the diagonal and both the deep
    checks and the assertions are compiled in: one warning, then the
    assertion. *)
Lemma block_abort (out : list string) :
  HIOP_DEEPCHECKS cfg = true -> NDEBUG cfg = false ->
  (exists i j, 0 <= i < nrows M1 /\ 0 <= j < nrows M2 /\ lower rs cs i j = true) ->
  for_range_io 0 (nrows M1)
    (fun i buf =>
       for_range_io 0 (nrows M2)
         (accumulate_pair cfg h D M1 rsi1 M2 rsi2 W rs cs alpha i) buf)
    (local_buffer W) out
  = (out ++ [lower_triangular_warning], AssertFailed).
Proof.
  intros Hdeep Hnd (i & j & Hi & Hj & Hlow).
  unfold lower in Hlow. apply Z.ltb_lt in Hlow.
  set (i0 := Z.max 0 (cs - rs + 1)).
  unfold for_range_io at 1. rewrite Z.sub_0_r.
  apply (iter_range_io_abort (fun i buf => updated W (G i 0) buf) _ out _
           (Z.to_nat i0) (Z.to_nat (nrows M1)) 0 (local_buffer W)).
  - lia.
  - apply updated_init. intros a b _ _. unfold G, written_full. by_comparisons.
  - intros i' buf Hi' Hinv. cbv beta.
    destruct (block_row_run i' buf out) as (buf' & E & Hbuf'); [lia| |exact Hinv|].
    + intros j' Hj'. right. right. unfold lower. apply Z.ltb_ge. lia.
    + exists buf'. split; [|exact Hbuf'].
      rewrite E, lower_in_row_none.
      * unfold warnings. cbn [repeat].
        destruct (HIOP_DEEPCHECKS cfg); rewrite app_nil_r; reflexivity.
      * intros j' Hj'. unfold lower. apply Z.ltb_ge. lia.
  - intros buf _. cbv beta. unfold for_range_io. rewrite Z.sub_0_r.
    assert (En2 : exists n2, Z.to_nat (nrows M2) = S n2)
      by (exists (Nat.pred (Z.to_nat (nrows M2))); lia).
    destruct En2 as (n2 & ->).
    cbn [iter_range_io]. unfold io_bind at 1.
    rewrite accumulate_pair_abort; try assumption; try lia; [reflexivity|].
    unfold lower. apply Z.ltb_lt. lia.
Qed.

End TwoMatrices.

Lemma cache_valid_app_l h ext M ts : cache_valid h M ts -> cache_valid (h ++ ext) M ts.
Proof.
  unfold cache_valid. destruct (row_starts_host M); [|trivial].
  intros H Hn. apply ints_app_l, H, Hn.
Qed.

Lemma lower_in_row_pos rs cs i (n : nat) (j : Z) :
  0 <= j < Z.of_nat n -> lower rs cs i j = true -> (1 <= lower_in_row rs cs i n)%nat.
Proof.
  induction n as [|n IH]; intros Hj Hlow; [lia|]. cbn [lower_in_row].
  destruct (Z.eq_dec j (Z.of_nat n)) as [->|Hne].
  - rewrite Hlow. lia.
  - specialize (IH ltac:(lia) Hlow). lia.
Qed.

Lemma lower_in_rows_pos rs cs (m2 m1 : nat) (i j : Z) :
  0 <= i < Z.of_nat m1 -> 0 <= j < Z.of_nat m2 -> lower rs cs i j = true ->
  (1 <= lower_in_rows rs cs m2 m1)%nat.
Proof.
  induction m1 as [|m1 IH]; intros Hi Hj Hlow; [lia|]. cbn [lower_in_rows].
  destruct (Z.eq_dec i (Z.of_nat m1)) as [->|Hne].
  - pose proof (lower_in_row_pos rs cs (Z.of_nat m1) m2 j Hj Hlow). lia.
  - specialize (IH ltac:(lia) Hj Hlow). lia.
Qed.

(** Up to the loops: the assertions hold and the two indexes are there. *)
Lemma addMDinvNtrans_prepare cfg h M1 ts1 M2 ts2 D W rs cs :
  operands_ok h M1 ts1 M2 ts2 D W rs cs ->
  exists rsi1 rsi2 ext,
    (_ <- assert_ cfg (ncols M1 =? ncols M2) ;;
     _ <- assert_ cfg (Z.of_nat (length D) =? ncols M1) ;;
     _ <- assert_ cfg ((0 <=? rs) && (rs + nrows M1 <=? W_m W)) ;;
     _ <- assert_ cfg ((0 <=? cs) && (cs + nrows M2 <=? W_n W)) ;;
     '(M1', rsi1, h1) <- prepareRowStarts cfg M1 h ;;
     '(M2', rsi2, h2) <- prepareRowStarts cfg M2 h1 ;;
     Ok (M1', rsi1, M2', rsi2, h2))
    = Ok (set_row_starts_host M1 rsi1, rsi1, set_row_starts_host M2 rsi2, rsi2,
          h ++ ext) /\
    stores (h ++ ext) M1 ts1 /\ stores (h ++ ext) M2 ts2 /\
    (1 <= nrows M1 ->
     ints (h ++ ext) (idx_start_ rsi1)
     = Ok (map Some (row_offsets ts1 (Z.to_nat (nrows M1))))) /\
    (1 <= nrows M2 ->
     ints (h ++ ext) (idx_start_ rsi2)
     = Ok (map Some (row_offsets ts2 (Z.to_nat (nrows M2))))).
Proof.
  intros ((Hst1 & Hh1 & Hs1 & Hsh1 & Hn1 & Hc1) &
          (Hst2 & Hh2 & Hs2 & Hsh2 & Hn2 & Hc2) & Hnx & HD & HW & Hrs & Hcs).
  rewrite !assert_holds by
    (try (apply andb_true_intro; split); try apply Z.leb_le; try apply Z.eqb_eq; lia).
  cbn [bind].
  destruct (prepareRowStarts_run cfg h M1 ts1 Hh1 Hs1 Hsh1 Hn1 Hc1)
    as (rsi1 & ext1 & -> & Hidx1).
  cbn [bind].
  destruct (prepareRowStarts_run cfg (h ++ ext1) M2 ts2
              (host_stores_app_l h ext1 M2 ts2 Hh2) Hs2 Hsh2 Hn2
              (cache_valid_app_l h ext1 M2 ts2 Hc2))
    as (rsi2 & ext2 & -> & Hidx2).
  cbn [bind]. exists rsi1, rsi2, (ext1 ++ ext2).
  rewrite app_assoc. split; [reflexivity|].
  split; [apply stores_app_l, stores_app_l, Hst1|].
  split; [apply stores_app_l, stores_app_l, Hst2|].
  split; [intros H1; apply ints_app_l, Hidx1, H1|exact Hidx2].
Qed.

Lemma io_bind_lift_Ok {A B : Type} (a : A) (k : A -> io B) (out : list string) :
  io_bind (lift (Ok a)) k out = k a out.
Proof. reflexivity. Qed.

(** C3, as the code has it.  With the deep checks compiled in and a
    destination pair strictly below the diagonal,
    [addMDinvNtransToSymDeMatUTri] prints the warning and then reaches the
    assertion on the same pair.  Where assertions are compiled out
    ([NDEBUG]) the call goes on: it prints one warning for each such pair,
    returns, and has added [alpha * (M1 D^-1 M2^T)[i,j]] to the entry
    [(row_dest_start + i, col_dest_start + j)] for every [(i, j)].  Where
    assertions are compiled in, the call stops at the first such pair,
    after one warning. *)
Theorem addMDinvNtrans_below_diagonal :
  forall cfg h M1 ts1 M2 ts2 D W rs cs alpha out,
    operands_ok h M1 ts1 M2 ts2 D W rs cs ->
    HIOP_DEEPCHECKS cfg = true ->
    (exists i j, 0 <= i < nrows M1 /\ 0 <= j < nrows M2 /\ j + cs < i + rs) ->
    (NDEBUG cfg = true ->
     exists (k : nat) M1' M2' h' W',
       addMDinvNtransToSymDeMatUTri cfg M1 rs cs alpha D M2 W h out
       = (out ++ repeat lower_triangular_warning k, Ok (M1', M2', h', W')) /\
       k = lower_in_rows rs cs (Z.to_nat (nrows M2)) (Z.to_nat (nrows M1)) /\
       (1 <= k)%nat /\
       W_m W' = W_m W /\ W_n W' = W_n W /\
       length (local_buffer W') = length (local_buffer W) /\
       forall a b, 0 <= a < W_m W -> 0 <= b < W_n W ->
         nth (Z.to_nat (View (W_n W) a b)) (local_buffer W') 0%R
         = (nth (Z.to_nat (View (W_n W) a b)) (local_buffer W) 0
            + (if in_block rs cs (nrows M1) (nrows M2) a b
               then alpha * weighted_product ts1 ts2 D (ncols M1) (a - rs) (b - cs)
               else 0))%R) /\
    (NDEBUG cfg = false ->
     addMDinvNtransToSymDeMatUTri cfg M1 rs cs alpha D M2 W h out
     = (out ++ [lower_triangular_warning], AssertFailed)).
Proof.
  intros cfg h M1 ts1 M2 ts2 D W rs cs alpha out Hok Hdeep (i & j & Hi & Hj & Hlow).
  destruct (addMDinvNtrans_prepare cfg h M1 ts1 M2 ts2 D W rs cs Hok)
    as (rsi1 & rsi2 & ext & Eprep & Hst1 & Hst2 & Hidx1 & Hidx2).
  destruct Hok as ((_ & _ & Hs1 & Hsh1 & _) & (_ & _ & Hs2 & _) & _ & HD & HW & Hrs & Hcs).
  assert (Hlower : lower rs cs i j = true) by (apply Z.ltb_lt; exact Hlow).
  unfold addMDinvNtransToSymDeMatUTri. cbv zeta.
  rewrite Eprep, io_bind_lift_Ok.
  split.
  - intros Hnd.
    destruct (block_run cfg (h ++ ext) D M1 M2 ts1 ts2 rsi1 rsi2 W rs cs alpha
                Hst1 Hst2 Hs1 Hs2 Hsh1 HD Hidx1 Hidx2 HW Hrs Hcs out)
      as (buf & E & Hl & Hf).
    { intros i' j' _ _. left. exact Hnd. }
    unfold io_bind. rewrite E. unfold lift, warnings. rewrite Hdeep.
    do 5 eexists. split; [reflexivity|]. split; [reflexivity|].
    split; [apply (lower_in_rows_pos rs cs _ _ i j); (assumption || lia)|].
    split; [reflexivity|]. split; [reflexivity|]. split; [exact Hl|exact Hf].
  - intros Hnd. unfold io_bind.
    rewrite (block_abort cfg (h ++ ext) D M1 M2 ts1 ts2 rsi1 rsi2 W rs cs alpha
               Hst1 Hst2 Hs1 Hs2 Hsh1 HD Hidx1 Hidx2 HW Hrs Hcs out Hdeep Hnd).
    + reflexivity.
    + exists i, j. auto.
Qed.

(** C3 as stated fails where assertions are compiled in: with the two
    one-row matrices [[1]], [D = [1]] and the block placed at row 1,
    column 0 of a 2x2 matrix, the call prints the warning and stops at the
    assertion; it does not complete and adds nothing. *)
Lemma addMDinvNtrans_stops_at_the_assertion :
  addMDinvNtransToSymDeMatUTri debug_build (host_matrix 1 1 (A11 1)) 1 0 1
    [1%R] (second_host_matrix 1 1 (A11 1)) W22
    (host_heap (A11 1) ++ host_heap (A11 1)) []
  = ([lower_triangular_warning], AssertFailed).
Proof. reflexivity. Qed.

(** C3 on the same operands. *)
Lemma addMDinvNtrans_below_diagonal_witness :
  let M1 := host_matrix 1 1 (A11 1) in
  let M2 := second_host_matrix 1 1 (A11 1) in
  let h := host_heap (A11 1) ++ host_heap (A11 1) in
  (NDEBUG debug_build = true ->
   exists (k : nat) M1' M2' h' W',
     addMDinvNtransToSymDeMatUTri debug_build M1 1 0 1 [1%R] M2 W22 h []
     = ([] ++ repeat lower_triangular_warning k, Ok (M1', M2', h', W')) /\
     k = lower_in_rows 1 0 (Z.to_nat (nrows M2)) (Z.to_nat (nrows M1)) /\
     (1 <= k)%nat /\
     W_m W' = W_m W22 /\ W_n W' = W_n W22 /\
     length (local_buffer W') = length (local_buffer W22) /\
     forall a b, 0 <= a < W_m W22 -> 0 <= b < W_n W22 ->
       nth (Z.to_nat (View (W_n W22) a b)) (local_buffer W') 0%R
       = (nth (Z.to_nat (View (W_n W22) a b)) (local_buffer W22) 0
          + (if in_block 1 0 (nrows M1) (nrows M2) a b
             then 1 * weighted_product (A11 1) (A11 1) [1%R] (ncols M1) (a - 1) (b - 0)
             else 0))%R) /\
  (NDEBUG debug_build = false ->
   addMDinvNtransToSymDeMatUTri debug_build M1 1 0 1 [1%R] M2 W22 h []
   = ([] ++ [lower_triangular_warning], AssertFailed)).
Proof.
  apply (addMDinvNtrans_below_diagonal debug_build
           (host_heap (A11 1) ++ host_heap (A11 1))
           (host_matrix 1 1 (A11 1)) (A11 1)
           (second_host_matrix 1 1 (A11 1)) (A11 1) [1%R] W22 1 0 1%R []).
  - unfold operands_ok. repeat split; simpl; try lia;
      try (unfold row_major_sorted, A11; repeat constructor);
      try (unfold t_row, t_col; simpl; lia).
  - reflexivity.
  - exists 0, 0. simpl. lia.
Defined.

(** ** Placing triplets in the dense matrix *)

Lemma foldM_ext {St T : Type} (f g : T -> St -> outcome St) (l : list T) :
  (forall t s, In t l -> f t s = g t s) ->
  forall s, foldM f l s = foldM g l s.
Proof.
  induction l as [|t l IH]; intros H s; [reflexivity|]. cbn [foldM].
  rewrite (H t s) by (left; reflexivity).
  destruct (g t s); cbn [bind]; try reflexivity.
  apply IH. intros t' s' Hin. apply H. right. exact Hin.
Qed.

Lemma place_triplets (W : hiopMatrixDense) (alpha : R) (pos : triplet -> Z * Z)
    (ts : list triplet) :
  dense_ok W ->
  Forall (fun t => 0 <= fst (pos t) < W_m W /\ 0 <= snd (pos t) < W_n W) ts ->
  forall (f : Z -> Z -> R) (buf : list R),
    updated W f buf ->
    exists buf',
      foldM (fun t buf =>
               View_add (W_n W) buf (fst (pos t)) (snd (pos t)) (alpha * t_val t)%R)
        ts buf = Ok buf' /\
      updated W (fun a b => (f a b + placed pos alpha ts a b)%R) buf'.
Proof.
  intros HW Hpos. induction Hpos as [|t ts (Ha & Hb) _ IH]; intros f buf Hbuf.
  - exists buf. split; [reflexivity|].
    eapply updated_ext; [|exact Hbuf]. intros a b _ _. simpl. lra.
  - cbn [foldM].
    destruct (updated_step W f
                (fun a b =>
                   (f a b + (if (a =? fst (pos t)) && (b =? snd (pos t))
                             then alpha * t_val t else 0))%R)
                buf (fst (pos t)) (snd (pos t)) (alpha * t_val t)%R HW Hbuf Ha Hb)
      as (buf1 & -> & Hbuf1); [reflexivity|].
    cbn [bind]. destruct (IH _ buf1 Hbuf1) as (buf' & -> & Hbuf').
    exists buf'. split; [reflexivity|].
    eapply updated_ext; [|exact Hbuf']. intros a b _ _. simpl. lra.
Qed.



(** ** Release *)

Lemma deallocate_live (h : heap) (p : ptr) :
  live h p -> deallocate p h = Ok (set_nth h p None).
Proof. intros (b & E). unfold deallocate. rewrite E. reflexivity. Qed.

Lemma live_lt (h : heap) (p : ptr) : live h p -> (p < length h)%nat.
Proof. intros (b & E). eapply lookup_lt; eauto. Qed.

(** Releasing different live blocks one after the other. *)
Lemma release_all (ps : list ptr) :
  forall h, NoDup ps -> Forall (live h) ps ->
  exists h',
    foldM deallocate ps h = Ok h' /\ length h' = length h /\
    forall q, (In q ps -> lookup h' q = Fault) /\
              (~ In q ps -> lookup h' q = lookup h q).
Proof.
  induction ps as [|p ps IH]; intros h Hnd Hlive.
  - exists h. split; [reflexivity|]. split; [reflexivity|].
    intros q. split; [intros []|reflexivity].
  - inversion Hnd as [|? ? Hnin Hnd']; subst.
    inversion Hlive as [|? ? Hp Hps]; subst.
    pose proof (live_lt h p Hp) as Hlt.
    cbn [foldM]. rewrite (deallocate_live h p Hp). cbn [bind].
    destruct (IH (set_nth h p None) Hnd') as (h' & E & Hlen & Hq).
    { rewrite Forall_forall in *. intros q Hin. destruct (Hps q Hin) as (b & Eb).
      exists b. rewrite lookup_set_nth by exact Hlt.
      destruct (Nat.eqb_spec q p); [subst; contradiction|exact Eb]. }
    exists h'. split; [exact E|]. split; [rewrite Hlen; apply set_nth_length|].
    intros q. destruct (Hq q) as (Hin & Hout). split.
    + intros [->|Hqin]; [|apply Hin; exact Hqin].
      destruct (in_dec Nat.eq_dec q ps) as [Hi|Hni]; [apply Hin; exact Hi|].
      rewrite (Hout Hni), lookup_set_nth by exact Hlt.
      rewrite Nat.eqb_refl. reflexivity.
    + intros Hn. rewrite Hout by (intros Hi; apply Hn; right; exact Hi).
      rewrite lookup_set_nth by exact Hlt.
      destruct (Nat.eqb_spec q p); [subst; exfalso; apply Hn; left; reflexivity|].
      reflexivity.
Qed.

Lemma foldM_app {St T : Type} (f : T -> St -> outcome St) (l1 l2 : list T) (s : St) :
  foldM f (l1 ++ l2) s = (s' <- foldM f l1 s ;; foldM f l2 s').
Proof.
  revert s. induction l1 as [|t l1 IH]; intros s; [reflexivity|].
  cbn [foldM app]. destruct (f t s); cbn [bind]; try reflexivity. apply IH.
Qed.

(** The destructor releases the owned allocations in their order. *)
Lemma destructor_is_release (M : hiopMatrixRajaSparseTriplet) (h : heap) :
  delete_hiopMatrixRajaSparseTriplet M h = foldM deallocate (owned M) h.
Proof.
  unfold delete_hiopMatrixRajaSparseTriplet, owned, delete_RowStartsInfo.
  rewrite foldM_app.
  assert (E : match row_starts_host M with
              | Some rsi => deallocate (idx_start_ rsi) h
              | None => Ok h
              end
              = foldM deallocate
                  match row_starts_host M with
                  | Some rsi => [idx_start_ rsi]
                  | None => []
                  end h).
  { destruct (row_starts_host M); cbn [foldM]; [|reflexivity].
    destruct (deallocate _ h); reflexivity. }
  rewrite E. destruct (foldM deallocate _ h) as [h0| |]; cbn [bind]; try reflexivity.
  cbn [foldM app].
  destruct (deallocate (iRow_ M) h0) as [h1| |]; cbn [bind]; try reflexivity.
  destruct (deallocate (jCol_ M) h1) as [h2| |]; cbn [bind]; try reflexivity.
  destruct (deallocate (values_ M) h2) as [h3| |]; cbn [bind]; try reflexivity.
  destruct (String.eqb (mem_space_ M) "DEVICE"); cbn [foldM]; [|reflexivity].
  destruct (deallocate (iRow_host_ M) h3) as [h4| |]; cbn [bind]; try reflexivity.
  destruct (deallocate (jCol_host_ M) h4) as [h5| |]; cbn [bind]; try reflexivity.
  destruct (deallocate (values_host_ M) h5) as [h6| |]; reflexivity.
Qed.

(** X4. The destructor of a matrix whose owned allocations are live and
    pairwise different returns; it releases exactly these allocations (the
    cached row-start index, the device arrays and, in the space DEVICE, the
    host arrays) and leaves every other block as it was. *)
Theorem destructor_releases_what_the_matrix_owns :
  forall M h,
    NoDup (owned M) -> Forall (live h) (owned M) ->
    exists h',
      delete_hiopMatrixRajaSparseTriplet M h = Ok h' /\
      length h' = length h /\
      forall q, (In q (owned M) -> lookup h' q = Fault) /\
                (~ In q (owned M) -> lookup h' q = lookup h q).
Proof.
  intros M h Hnd Hlive. rewrite destructor_is_release.
  apply release_all; assumption.
Qed.

(** X4 on the host matrix of the 2x3 scenario. *)
Lemma destructor_releases_what_the_matrix_owns_witness :
  exists h',
    delete_hiopMatrixRajaSparseTriplet (host_matrix 2 3 A23) (host_heap A23) = Ok h' /\
    length h' = length (host_heap A23) /\
    forall q, (In q (owned (host_matrix 2 3 A23)) -> lookup h' q = Fault) /\
              (~ In q (owned (host_matrix 2 3 A23)) ->
               lookup h' q = lookup (host_heap A23) q).
Proof.
  apply (destructor_releases_what_the_matrix_owns (host_matrix 2 3 A23) (host_heap A23)).
  - unfold owned. simpl. repeat (constructor; [simpl; intuition lia|]). constructor.
  - unfold owned. simpl. repeat (constructor; [eexists; reflexivity|]). constructor.
Defined.

(** A matrix fresh from the constructor owns the blocks the constructor
    has appended, and they are live. *)
Lemma constructed_owned cfg rows cols nz memspace h M h1 :
  new_hiopMatrixRajaSparseTriplet cfg rows cols nz memspace h = Ok (M, h1) ->
  exists blocks,
    h1 = h ++ blocks /\
    owned M = seq (length h) (length blocks) /\
    Forall (fun ob => ob <> None) blocks.
Proof.
  intros Hnew.
  pose proof (constructor_inv _ _ _ _ _ _ _ _ Hnew) as
    (_ & _ & _ & Hms & Hrs & Hi & Hj & Hv & Hrest).
  cbv zeta in Hms, Hrest. rewrite <- Hms in Hrest.
  unfold owned. rewrite Hrs, Hi, Hj, Hv. cbn [app].
  destruct (String.eqb (mem_space_ M) "DEVICE").
  - destruct Hrest as (-> & -> & -> & ->). eexists. split; [reflexivity|].
    split.
    + cbn [length seq app]. repeat f_equal; lia.
    + repeat (constructor; [discriminate|]). constructor.
  - destruct Hrest as (_ & _ & _ & ->). eexists. split; [reflexivity|].
    split.
    + cbn [length seq app]. repeat f_equal; lia.
    + repeat (constructor; [discriminate|]). constructor.
Qed.

Lemma release_appended (h blocks : heap) :
  Forall (fun ob => ob <> None) blocks ->
  foldM deallocate (seq (length h) (length blocks)) (h ++ blocks)
  = Ok (h ++ repeat None (length blocks)).
Proof.
  revert h. induction blocks as [|ob blocks IH]; intros h Hlive.
  - reflexivity.
  - inversion Hlive as [|? ? Hob Hrest]; subst.
    destruct ob as [b|]; [|contradiction].
    cbn [length seq foldM]. unfold deallocate at 1.
    replace (lookup (h ++ Some b :: blocks) (length h)) with (Ok b).
    2:{ unfold lookup. rewrite nth_error_app2 by lia.
        rewrite Nat.sub_diag. reflexivity. }
    cbn [bind].
    replace (set_nth (h ++ Some b :: blocks) (length h) None)
      with ((h ++ [None]) ++ blocks).
    2:{ rewrite <- app_assoc. cbn [app]. symmetry. apply set_nth_app. }
    replace (S (length h)) with (length (h ++ [None]))
      by (rewrite length_app; cbn [length]; lia).
    rewrite (IH (h ++ [None]) Hrest).
    rewrite <- app_assoc. reflexivity.
Qed.

(** X5. Construction followed by destruction returns in every build and
    memory space, and leaves the memory as it was before the constructor,
    with the blocks the constructor had allocated (six in the space DEVICE,
    three otherwise) all released. *)
Theorem constructed_matrix_is_released :
  forall cfg rows cols nz memspace h M h1,
    new_hiopMatrixRajaSparseTriplet cfg rows cols nz memspace h = Ok (M, h1) ->
    delete_hiopMatrixRajaSparseTriplet M h1
    = Ok (h ++ repeat None
                 (if String.eqb (effective_space cfg memspace) "DEVICE"
                  then 6%nat else 3%nat)).
Proof.
  intros cfg rows cols nz memspace h M h1 Hnew.
  destruct (constructed_owned _ _ _ _ _ _ _ _ Hnew) as (blocks & -> & Hown & Hlive).
  rewrite destructor_is_release, Hown, (release_appended h blocks Hlive).
  do 2 f_equal.
  pose proof (constructor_inv _ _ _ _ _ _ _ _ Hnew) as
    (_ & _ & _ & _ & _ & _ & _ & _ & Hrest).
  cbv zeta in Hrest.
  destruct (String.eqb (effective_space cfg memspace) "DEVICE").
  - destruct Hrest as (_ & _ & _ & E). apply app_inv_head in E. subst. reflexivity.
  - destruct Hrest as (_ & _ & _ & E). apply app_inv_head in E. subst. reflexivity.
Qed.

(** X5 on a 2x3 matrix with three entries built in the space DEVICE. *)
Lemma constructed_matrix_is_released_witness :
  exists M h1,
    new_hiopMatrixRajaSparseTriplet gpu_build 2 3 3 "DEVICE" [] = Ok (M, h1) /\
    delete_hiopMatrixRajaSparseTriplet M h1 = Ok (repeat None 6).
Proof.
  do 2 eexists. split; [reflexivity|].
  apply (constructed_matrix_is_released gpu_build 2 3 3 "DEVICE" []).
  reflexivity.
Defined.

(** ** The order check *)

Lemma copyFromDev_syncs (M : hiopMatrixRajaSparseTriplet) (h : heap)
    (ts : list triplet) :
  stores h M ts -> mirror_ok h M ->
  exists h',
    copyFromDev M h = Ok h' /\
    stores h' M ts /\ host_stores h' M ts /\ host_values h' M ts /\
    mirror_ok h' M /\ length h' = length h.
Proof.
  intros Hst Hm. pose proof Hst as (Hn & Hr & Hc & Hv).
  unfold mirror_ok in *.
  destruct (String.eqb_spec (mem_space_ M) "DEVICE") as [Hd|Hd].
  - destruct Hm as (Hind & hr & hc & hv & Er & Ec & Ev & Lr & Lc & Lv).
    destruct (copyFromDev_device M h
                (map Some (map t_row ts), map Some (map t_col ts),
                 map Some (map t_val ts))
                (hr, hc, hv) Hd Hind) as (h' & E & H1 & H2 & H3 & H4 & H5 & H6 & _).
    { unfold holds. rewrite !length_map. repeat split; try assumption; lia. }
    exists h'. split; [exact E|].
    split; [repeat split; assumption|].
    split; [repeat split; assumption|].
    split; [exact H6|].
    split.
    + split; [exact Hind|].
      do 3 eexists. repeat split; try eassumption; rewrite !length_map; lia.
    + unfold copyFromDev in E. rewrite Hd in E. cbn [String.eqb] in E.
      change (String.eqb "DEVICE" "DEVICE") with true in E.
      apply bind_inv in E. destruct E as (h1 & E1 & E).
      apply bind_inv in E. destruct E as (h2 & E2 & E3).
      assert (Hcopy : forall d s a b, copy d s a = Ok b -> length b = length a).
      { intros d s a b. unfold copy, put.
        destruct (lookup a d) as [bd| |] eqn:Ed; cbn [bind]; try discriminate.
        destruct (lookup a s) as [bs| |]; cbn [bind]; try discriminate.
        destruct (blk_cells bd), (blk_cells bs); try discriminate;
          (destruct (copy_cells _ _); cbn [bind]; try discriminate;
           intros X; inversion X; apply set_nth_length). }
      rewrite (Hcopy _ _ _ _ E3), (Hcopy _ _ _ _ E2), (Hcopy _ _ _ _ E1).
      reflexivity.
  - exists h. split; [apply copy_is_noop_off_device; exact Hd|].
    destruct Hm as (A1 & A2 & A3).
    split; [exact Hst|].
    split; [unfold host_stores; rewrite A1, A2; repeat split; assumption|].
    split; [unfold host_values; rewrite A3; exact Hv|].
    split; [repeat split; assumption|reflexivity].
Qed.

Lemma ordered_b_spec (ts : list triplet) :
  ordered_b ts = true <-> row_major_ordered ts.
Proof.
  unfold row_major_ordered.
  induction ts as [|p tl IH]; [split; [constructor|reflexivity]|].
  destruct tl as [|t tl'].
  - split; [intros _; repeat constructor|reflexivity].
  - change (ordered_b (p :: t :: tl'))
      with (if t_row t <? t_row p then false
            else if t_row t =? t_row p then
                   if t_col t <? t_col p then false else ordered_b (t :: tl')
                 else ordered_b (t :: tl')).
    split.
    + intros H. constructor.
      * apply IH.
        destruct (t_row t <? t_row p); [discriminate|].
        destruct (t_row t =? t_row p); [|exact H].
        destruct (t_col t <? t_col p); [discriminate|exact H].
      * constructor. unfold lex_le.
        destruct (Z.ltb_spec (t_row t) (t_row p)); [discriminate|].
        destruct (Z.eqb_spec (t_row t) (t_row p)); [|lia].
        destruct (Z.ltb_spec (t_col t) (t_col p)); [discriminate|lia].
    + intros H. inversion H as [|? ? Hs Hh]; subst.
      inversion Hh as [|? ? Hle]; subst. unfold lex_le in Hle.
      apply IH in Hs.
      destruct (Z.ltb_spec (t_row t) (t_row p)); [lia|].
      destruct (Z.eqb_spec (t_row t) (t_row p)); [|exact Hs].
      destruct (Z.ltb_spec (t_col t) (t_col p)); [lia|exact Hs].
Qed.

Lemma skipn_nth_error {T : Type} (l : list T) (j : nat) (x : T) :
  nth_error l j = Some x -> skipn j l = x :: skipn (S j) l.
Proof.
  revert j. induction l as [|y l IH]; intros [|j] E; simpl in *; try discriminate.
  - inversion E. reflexivity.
  - apply IH. exact E.
Qed.

Lemma ordered_b_short (l : list triplet) : (length l <= 1)%nat -> ordered_b l = true.
Proof. destruct l as [|p [|t l]]; simpl; intros; try reflexivity; lia. Qed.

Lemma ordered_from_run h M ts :
  host_stores h M ts ->
  forall n k, (1 <= k)%nat -> (k + n = length ts)%nat ->
    ordered_from h M n (Z.of_nat k) = Ok (ordered_b (skipn (k - 1) ts)).
Proof.
  intros Hst. induction n as [|n IH]; intros k Hk Hlen.
  - cbn [ordered_from]. rewrite ordered_b_short; [reflexivity|].
    rewrite length_skipn. lia.
  - destruct (nth_error ts k) as [t|] eqn:Et;
      [|apply nth_error_None in Et; lia].
    destruct (nth_error ts (k - 1)) as [p|] eqn:Ep;
      [|apply nth_error_None in Ep; lia].
    cbn [ordered_from].
    replace (Z.of_nat k - 1) with (Z.of_nat (k - 1)) by lia.
    rewrite (load_row_host h M ts Hst k t Et), (load_row_host h M ts Hst (k - 1) p Ep).
    rewrite (load_col_host h M ts Hst k t Et), (load_col_host h M ts Hst (k - 1) p Ep).
    cbn [bind].
    rewrite (skipn_nth_error ts (k - 1) p Ep).
    replace (S (k - 1)) with k by lia.
    rewrite (skipn_nth_error ts k t Et).
    change (ordered_b (p :: t :: skipn (S k) ts))
      with (if t_row t <? t_row p then false
            else if t_row t =? t_row p then
                   if t_col t <? t_col p then false
                   else ordered_b (t :: skipn (S k) ts)
                 else ordered_b (t :: skipn (S k) ts)).
    replace (Z.of_nat k + 1) with (Z.of_nat (S k)) by lia.
    rewrite (IH (S k)) by lia.
    replace (S k - 1)%nat with k by lia.
    rewrite (skipn_nth_error ts k t Et).
    destruct (t_row t <? t_row p); [reflexivity|].
    destruct (t_row t =? t_row p); [|reflexivity].
    destruct (t_col t <? t_col p); reflexivity.
Qed.

Lemma checkIndexesAreOrdered_run M h ts :
  stores h M ts -> mirror_ok h M ->
  exists h',
    checkIndexesAreOrdered M h = Ok (ordered_b ts, h') /\
    stores h' M ts /\ host_stores h' M ts /\ host_values h' M ts /\
    mirror_ok h' M /\ length h' = length h.
Proof.
  intros Hst Hm.
  destruct (copyFromDev_syncs M h ts Hst Hm) as (h' & E & Hst' & Hh & Hv & Hm' & Hl).
  exists h'. split; [|repeat (split; [assumption|]); assumption].
  unfold checkIndexesAreOrdered. rewrite E. cbn [bind].
  pose proof Hst as (Hn & _).
  destruct (Z.eqb_spec (nnz M) 0) as [H0|H0].
  - destruct ts; [reflexivity|]. cbn [length] in Hn. lia.
  - rewrite Hn.
    replace (Z.to_nat (Z.of_nat (length ts) - 1)) with (length ts - 1)%nat by lia.
    change 1 with (Z.of_nat 1).
    rewrite (ordered_from_run h' M ts Hh (length ts - 1) 1) by lia.
    reflexivity.
Qed.

(** X6. [checkIndexesAreOrdered] returns true exactly when the stored
    triplets are in row-major order, repeated positions allowed: rows do not
    decrease and, inside a row, columns do not decrease.  It reads the host
    mirror after bringing it up to date, so the answer is about the device
    arrays, and the host mirror agrees with them afterwards. *)
Theorem checkIndexesAreOrdered_decides_the_order :
  forall M h ts,
    stores h M ts -> mirror_ok h M ->
    exists b h',
      checkIndexesAreOrdered M h = Ok (b, h') /\
      (b = true <-> row_major_ordered ts) /\
      stores h' M ts /\ host_stores h' M ts /\ host_values h' M ts.
Proof.
  intros M h ts Hst Hm.
  destruct (checkIndexesAreOrdered_run M h ts Hst Hm)
    as (h' & E & Hst' & Hh & Hv & _ & _).
  exists (ordered_b ts), h'. split; [exact E|].
  split; [apply ordered_b_spec|]. repeat (split; [assumption|]); assumption.
Qed.

(** X6 on the host matrix of the 2x3 scenario, which is in order. *)
Lemma checkIndexesAreOrdered_decides_the_order_witness :
  exists b h',
    checkIndexesAreOrdered (host_matrix 2 3 A23) (host_heap A23) = Ok (b, h') /\
    (b = true <-> row_major_ordered A23) /\
    stores h' (host_matrix 2 3 A23) A23 /\
    host_stores h' (host_matrix 2 3 A23) A23 /\
    host_values h' (host_matrix 2 3 A23) A23.
Proof.
  apply (checkIndexesAreOrdered_decides_the_order (host_matrix 2 3 A23)
           (host_heap A23) A23).
  - apply host_matrix_stores.
  - unfold mirror_ok. simpl. repeat split.
Defined.

(** ** Copies of a matrix *)

Lemma constructor_run cfg rows cols nz memspace h :
  0 <= nz -> (rows = 0 \/ cols = 0 -> nz = 0) ->
  exists M h', new_hiopMatrixRajaSparseTriplet cfg rows cols nz memspace h = Ok (M, h')
               /\ nnz M = nz.
Proof.
  intros Hn Hz. unfold new_hiopMatrixRajaSparseTriplet.
  assert (E : (if (rows =? 0) || (cols =? 0)
               then _ <- assert_ cfg (nz =? 0) ;; Ok 0 else Ok nz) = Ok nz).
  { destruct (Z.eqb_spec rows 0); cbn [orb].
    - rewrite Hz by auto. cbn [Z.eqb]. rewrite assert_true. reflexivity.
    - destruct (Z.eqb_spec cols 0); [|reflexivity].
      rewrite Hz by auto. cbn [Z.eqb]. rewrite assert_true. reflexivity. }
  rewrite E. cbn [bind]. unfold allocate_ints, allocate_dbls.
  destruct (Z.ltb_spec nz 0); [lia|]. cbn [bind].
  destruct (String.eqb _ "DEVICE"); cbn [bind]; do 2 eexists; split; reflexivity.
Qed.

Lemma ints_appended (h blocks : heap) (q k : nat) (space : string)
    (l : list (option Z)) :
  q = (length h + k)%nat ->
  nth_error blocks k = Some (Some {| blk_space := space; blk_cells := IntCells l |}) ->
  ints (h ++ blocks) q = Ok l.
Proof.
  intros -> E. unfold ints. rewrite lookup_app_r. unfold lookup. rewrite E.
  reflexivity.
Qed.

Lemma dbls_appended (h blocks : heap) (q k : nat) (space : string)
    (l : list (option R)) :
  q = (length h + k)%nat ->
  nth_error blocks k = Some (Some {| blk_space := space; blk_cells := DblCells l |}) ->
  dbls (h ++ blocks) q = Ok l.
Proof.
  intros -> E. unfold dbls. rewrite lookup_app_r. unfold lookup. rewrite E.
  reflexivity.
Qed.

(** A copy from an older block into one of the blocks at the end. *)
Lemma copy_ints_appended (h blocks : heap) (dst k src : nat) (space : string)
    (ld ls : list (option Z)) :
  dst = (length h + k)%nat ->
  nth_error blocks k = Some (Some {| blk_space := space; blk_cells := IntCells ld |}) ->
  ints h src = Ok ls -> length ls = length ld ->
  copy dst src (h ++ blocks)
  = Ok (h ++ set_nth blocks k
                (Some {| blk_space := space; blk_cells := IntCells ls |})).
Proof.
  intros -> Ek Es Hl. unfold copy.
  rewrite lookup_app_r. unfold lookup at 1. rewrite Ek. cbn [bind blk_cells].
  pose proof (ints_lt _ _ _ Es) as Hlt.
  rewrite lookup_app_l by exact Hlt.
  unfold ints in Es. destruct (lookup h src) as [bs| |]; cbn [bind] in *; try discriminate.
  destruct (blk_cells bs); try discriminate. inversion Es; subst.
  unfold copy_cells. rewrite Hl, Nat.leb_refl. cbn [bind].
  rewrite skipn_all, app_nil_r. unfold put.
  rewrite lookup_app_r. unfold lookup. rewrite Ek. cbn [bind blk_space].
  rewrite set_nth_app_r. reflexivity.
Qed.

Lemma copy_dbls_appended (h blocks : heap) (dst k src : nat) (space : string)
    (ld ls : list (option R)) :
  dst = (length h + k)%nat ->
  nth_error blocks k = Some (Some {| blk_space := space; blk_cells := DblCells ld |}) ->
  dbls h src = Ok ls -> length ls = length ld ->
  copy dst src (h ++ blocks)
  = Ok (h ++ set_nth blocks k
                (Some {| blk_space := space; blk_cells := DblCells ls |})).
Proof.
  intros -> Ek Es Hl. unfold copy.
  rewrite lookup_app_r. unfold lookup at 1. rewrite Ek. cbn [bind blk_cells].
  pose proof (dbls_lt _ _ _ Es) as Hlt.
  rewrite lookup_app_l by exact Hlt.
  unfold dbls in Es. destruct (lookup h src) as [bs| |]; cbn [bind] in *; try discriminate.
  destruct (blk_cells bs); try discriminate. inversion Es; subst.
  unfold copy_cells. rewrite Hl, Nat.leb_refl. cbn [bind].
  rewrite skipn_all, app_nil_r. unfold put.
  rewrite lookup_app_r. unfold lookup. rewrite Ek. cbn [bind blk_space].
  rewrite set_nth_app_r. reflexivity.
Qed.

(** [setToConstant] on a matrix whose values are in a block of [nnz]
    cells: only that block changes. *)
Lemma setToConstant_run M c h cells :
  dbls h (values_ M) = Ok cells -> Z.of_nat (length cells) = nnz M ->
  exists h',
    setToConstant M c h = Ok h' /\
    dbls h' (values_ M) = Ok (repeat (Some c) (length cells)) /\
    length h' = length h /\
    forall q, q <> values_ M -> lookup h' q = lookup h q.
Proof.
  intros Hc Hn.
  destruct (put_dbls h (values_ M) cells (repeat (Some c) (length cells)) Hc)
    as (h' & Hput & Hd & Hl & Hf).
  exists h'. split; [|repeat split; assumption].
  unfold setToConstant. rewrite Hc. cbn [bind].
  rewrite fill_loop by exact Hn. cbn [bind]. exact Hput.
Qed.

Lemma stores_frame h h' M ts :
  lookup h' (iRow_ M) = lookup h (iRow_ M) ->
  lookup h' (jCol_ M) = lookup h (jCol_ M) ->
  lookup h' (values_ M) = lookup h (values_ M) ->
  stores h M ts -> stores h' M ts.
Proof.
  intros F1 F2 F3 (Hn & Hr & Hc & Hv). unfold stores.
  rewrite (ints_frame h h' _ F1), (ints_frame h h' _ F2), (dbls_frame h h' _ F3).
  repeat split; assumption.
Qed.

(** [new_copy] once its order check is behind. *)
Lemma new_copy_copies cfg M h0 ts :
  stores h0 M ts -> mirror_ok h0 M ->
  mem_space_ M = effective_space cfg (mem_space_ M) ->
  (nrows M = 0 \/ ncols M = 0 -> nnz M = 0) ->
  exists M' h',
    ('(cp, h1) <- new_hiopMatrixRajaSparseTriplet cfg (nrows M) (ncols M) (nnz M)
                    (mem_space_ M) h0 ;;
     h2 <- copy (iRow_ cp) (iRow_ M) h1 ;;
     h3 <- copy (jCol_ cp) (jCol_ M) h2 ;;
     h4 <- copy (values_ cp) (values_ M) h3 ;;
     h5 <- copy (iRow_host_ cp) (iRow_host_ M) h4 ;;
     h6 <- copy (jCol_host_ cp) (jCol_host_ M) h5 ;;
     h7 <- copy (values_host_ cp) (values_host_ M) h6 ;;
     Ok (cp, h7)) = Ok (M', h') /\
    nrows M' = nrows M /\ ncols M' = ncols M /\ nnz M' = nnz M /\
    mem_space_ M' = mem_space_ M /\ row_starts_host M' = None /\
    stores h' M' ts /\ stores h' M ts /\
    (length h0 <= values_ M')%nat /\
    (forall q, (q < length h0)%nat -> lookup h' q = lookup h0 q).
Proof.
  intros Hst Hm Hms Hz. pose proof Hst as (Hn & Hr & Hc & Hv).
  destruct (constructor_run cfg (nrows M) (ncols M) (nnz M) (mem_space_ M) h0)
    as (cp & h1 & Enew & Hnz); [lia|exact Hz|].
  pose proof (constructor_inv _ _ _ _ _ _ _ _ Enew) as
    (Hrows & Hcols & _ & Hcms & Hrs & Hi & Hj & Hvp & Hrest).
  cbv zeta in Hcms, Hrest. rewrite <- Hms in Hcms, Hrest.
  rewrite Enew. cbn [bind].
  assert (Ln : Z.to_nat (nnz cp) = length ts) by lia.
  unfold mirror_ok in Hm. unfold fresh_ints, fresh_dbls, fresh_int_block,
    fresh_dbl_block in Hrest. rewrite Ln in Hrest.
  set (n := length ts) in *.
  assert (Lr : length (map Some (map t_row ts)) = length (repeat (@None Z) n))
    by (rewrite !length_map, repeat_length; reflexivity).
  assert (Lc : length (map Some (map t_col ts)) = length (repeat (@None Z) n))
    by (rewrite !length_map, repeat_length; reflexivity).
  assert (Lv : length (map Some (map t_val ts)) = length (repeat (@None R) n))
    by (rewrite !length_map, repeat_length; reflexivity).
  destruct (String.eqb (mem_space_ M) "DEVICE").
  - destruct Hrest as (Hi' & Hj' & Hv' & ->).
    destruct Hm as (_ & hr & hc & hv & Er & Ec & Ev & Lhr & Lhc & Lhv).
    erewrite (copy_ints_appended h0 _ (iRow_ cp) 0%nat (iRow_ M));
      [|lia|reflexivity|exact Hr|exact Lr].
    cbn [bind set_nth].
    erewrite (copy_ints_appended h0 _ (jCol_ cp) 1%nat (jCol_ M));
      [|lia|reflexivity|exact Hc|exact Lc].
    cbn [bind set_nth].
    erewrite (copy_dbls_appended h0 _ (values_ cp) 2%nat (values_ M));
      [|lia|reflexivity|exact Hv|exact Lv].
    cbn [bind set_nth].
    erewrite (copy_ints_appended h0 _ (iRow_host_ cp) 3%nat (iRow_host_ M));
      [|lia|reflexivity|exact Er|rewrite repeat_length; lia].
    cbn [bind set_nth].
    erewrite (copy_ints_appended h0 _ (jCol_host_ cp) 4%nat (jCol_host_ M));
      [|lia|reflexivity|exact Ec|rewrite repeat_length; lia].
    cbn [bind set_nth].
    erewrite (copy_dbls_appended h0 _ (values_host_ cp) 5%nat (values_host_ M));
      [|lia|reflexivity|exact Ev|rewrite repeat_length; lia].
    cbn [bind set_nth].
    do 2 eexists. split; [reflexivity|].
    repeat (split; [assumption || lia|]).
    split.
    { unfold stores. split; [lia|]. split; [|split].
      - eapply (ints_appended h0 _ _ 0%nat); [lia|reflexivity].
      - eapply (ints_appended h0 _ _ 1%nat); [lia|reflexivity].
      - eapply (dbls_appended h0 _ _ 2%nat); [lia|reflexivity]. }
    split; [apply stores_app_l; exact Hst|].
    split; [lia|].
    intros q Hq. apply lookup_app_l. exact Hq.
  - destruct Hrest as (Hi' & Hj' & Hv' & ->).
    destruct Hm as (A1 & A2 & A3). rewrite Hi', Hj', Hv', A1, A2, A3, Hi, Hj, Hvp.
    erewrite (copy_ints_appended h0 _ _ 0%nat (iRow_ M));
      [|lia|reflexivity|exact Hr|exact Lr].
    cbn [bind set_nth].
    erewrite (copy_ints_appended h0 _ _ 1%nat (jCol_ M));
      [|lia|reflexivity|exact Hc|exact Lc].
    cbn [bind set_nth].
    erewrite (copy_dbls_appended h0 _ _ 2%nat (values_ M));
      [|lia|reflexivity|exact Hv|exact Lv].
    cbn [bind set_nth].
    erewrite (copy_ints_appended h0 _ _ 0%nat (iRow_ M));
      [|lia|reflexivity|exact Hr|reflexivity].
    cbn [bind set_nth].
    erewrite (copy_ints_appended h0 _ _ 1%nat (jCol_ M));
      [|lia|reflexivity|exact Hc|reflexivity].
    cbn [bind set_nth].
    erewrite (copy_dbls_appended h0 _ _ 2%nat (values_ M));
      [|lia|reflexivity|exact Hv|reflexivity].
    cbn [bind set_nth].
    do 2 eexists. split; [reflexivity|].
    repeat (split; [assumption || lia|]).
    split.
    { unfold stores. split; [lia|]. split; [|split].
      - eapply (ints_appended h0 _ _ 0%nat); [lia|reflexivity].
      - eapply (ints_appended h0 _ _ 1%nat); [lia|reflexivity].
      - eapply (dbls_appended h0 _ _ 2%nat); [lia|reflexivity]. }
    split; [apply stores_app_l; exact Hst|].
    split; [lia|].
    intros q Hq. apply lookup_app_l. exact Hq.
Qed.

Lemma new_copy_check_passes cfg M h ts :
  stores h M ts -> mirror_ok h M ->
  (HIOP_DEEPCHECKS cfg = true -> NDEBUG cfg = false -> row_major_ordered ts) ->
  exists h0,
    (if HIOP_DEEPCHECKS cfg then
       if NDEBUG cfg then Ok h
       else '(b, h') <- checkIndexesAreOrdered M h ;; _ <- assert_ cfg b ;; Ok h'
     else Ok h) = Ok h0 /\
    stores h0 M ts /\ mirror_ok h0 M /\ length h0 = length h.
Proof.
  intros Hst Hm Hord.
  destruct (HIOP_DEEPCHECKS cfg); [|exists h; auto].
  destruct (NDEBUG cfg) eqn:Hnd; [exists h; auto|].
  destruct (checkIndexesAreOrdered_run M h ts Hst Hm)
    as (h' & E & Hst' & _ & _ & Hm' & Hl).
  exists h'. rewrite E. cbn [bind].
  rewrite (proj2 (ordered_b_spec ts) (Hord eq_refl eq_refl)), assert_true.
  auto.
Qed.

(** X7. [new_copy] returns a matrix of the same sizes and memory space,
    without cached row starts, whose arrays are new allocations holding the
    triplets of the original; the original still holds them, and setting the
    values of the copy afterwards does not change the original.  A build
    with deep checks and assertions needs the triplets in row-major order
    (repeated positions allowed). *)
Theorem new_copy_is_a_deep_copy :
  forall cfg M h ts,
    stores h M ts -> mirror_ok h M ->
    mem_space_ M = effective_space cfg (mem_space_ M) ->
    (nrows M = 0 \/ ncols M = 0 -> nnz M = 0) ->
    (HIOP_DEEPCHECKS cfg = true -> NDEBUG cfg = false -> row_major_ordered ts) ->
    exists M' h',
      new_copy cfg M h = Ok (M', h') /\
      nrows M' = nrows M /\ ncols M' = ncols M /\ nnz M' = nnz M /\
      mem_space_ M' = mem_space_ M /\ row_starts_host M' = None /\
      stores h' M' ts /\ stores h' M ts /\
      (forall c, exists h'', setToConstant M' c h' = Ok h'' /\ stores h'' M ts).
Proof.
  intros cfg M h ts Hst Hm Hms Hz Hord.
  destruct (new_copy_check_passes cfg M h ts Hst Hm Hord) as (h0 & E0 & Hst0 & Hm0 & Hl0).
  destruct (new_copy_copies cfg M h0 ts Hst0 Hm0 Hms Hz)
    as (M' & h' & E & H1 & H2 & H3 & H4 & H5 & Hst' & HstM & Hfresh & Hold).
  exists M', h'. split.
  { unfold new_copy. rewrite E0. cbn [bind]. exact E. }
  repeat (split; [assumption|]).
  intros c. pose proof Hst' as (Hn & _ & _ & Hv).
  destruct (setToConstant_run M' c h' _ Hv) as (h'' & Es & _ & _ & Hf).
  { rewrite !length_map. lia. }
  exists h''. split; [exact Es|].
  pose proof Hst0 as (_ & Hr0 & Hc0 & Hv0).
  apply ints_lt in Hr0. apply ints_lt in Hc0. apply dbls_lt in Hv0.
  apply (stores_frame h' h'' M ts); try (apply Hf; lia). exact HstM.
Qed.

(** X7 on the host matrix of the 2x3 scenario, in the debug build. *)
Lemma new_copy_is_a_deep_copy_witness :
  exists M' h',
    new_copy debug_build (host_matrix 2 3 A23) (host_heap A23) = Ok (M', h') /\
    nrows M' = 2 /\ ncols M' = 3 /\ nnz M' = 3 /\
    mem_space_ M' = "HOST"%string /\ row_starts_host M' = None /\
    stores h' M' A23 /\ stores h' (host_matrix 2 3 A23) A23 /\
    (forall c, exists h'',
        setToConstant M' c h' = Ok h'' /\ stores h'' (host_matrix 2 3 A23) A23).
Proof.
  apply (new_copy_is_a_deep_copy debug_build (host_matrix 2 3 A23) (host_heap A23) A23).
  - apply host_matrix_stores.
  - unfold mirror_ok. simpl. repeat split.
  - reflexivity.
  - simpl. lia.
  - intros _ _. unfold row_major_ordered, A23, lex_le.
    repeat (constructor; try (unfold t_row, t_col; simpl; lia)).
Defined.

(** X8. In a build with deep checks and assertions, [new_copy] of a matrix
    whose triplets are not in row-major order stops at its assertion. *)
Theorem new_copy_refuses_unordered_triplets :
  forall cfg M h ts,
    HIOP_DEEPCHECKS cfg = true -> NDEBUG cfg = false ->
    stores h M ts -> mirror_ok h M -> ~ row_major_ordered ts ->
    new_copy cfg M h = AssertFailed.
Proof.
  intros cfg M h ts Hd Hn Hst Hm Hord.
  destruct (checkIndexesAreOrdered_run M h ts Hst Hm) as (h' & E & _).
  unfold new_copy. rewrite Hd, Hn, E. cbn [bind].
  destruct (ordered_b ts) eqn:Eb; [apply ordered_b_spec in Eb; contradiction|].
  unfold assert_. rewrite Hn. reflexivity.
Qed.

(** X8 on a 2x2 matrix that stores its bottom row first. *)
Lemma new_copy_refuses_unordered_triplets_witness :
  new_copy debug_build (host_matrix 2 2 U22) (host_heap U22) = AssertFailed.
Proof.
  apply (new_copy_refuses_unordered_triplets debug_build (host_matrix 2 2 U22)
           (host_heap U22) U22).
  - reflexivity.
  - reflexivity.
  - apply host_matrix_stores.
  - unfold mirror_ok. simpl. repeat split.
  - intros H. apply ordered_b_spec in H. discriminate H.
Defined.

(** ** Adding the matrix to a dense block *)

Lemma nth_error_with_values (ts : list triplet) (vs : list R) (k : nat) (t' : triplet) :
  nth_error (with_values ts vs) k = Some t' ->
  exists t v, nth_error ts k = Some t /\ nth_error vs k = Some v /\
              t' = (t_row t, t_col t, v).
Proof.
  unfold with_values. revert vs k.
  induction ts as [|t ts IH]; intros [|v vs] [|k] E; simpl in E; try discriminate.
  - inversion E. exists t, v. repeat split.
  - apply (IH vs k E).
Qed.

Lemma with_values_length (ts : list triplet) (vs : list R) :
  length vs = length ts -> length (with_values ts vs) = length ts.
Proof.
  intros H. unfold with_values. rewrite length_map, length_combine. lia.
Qed.


Lemma with_values_positions (P : Z -> Z -> Prop) (ts : list triplet) (vs : list R) :
  Forall (fun t => P (t_row t) (t_col t)) ts ->
  Forall (fun t => P (t_row t) (t_col t)) (with_values ts vs).
Proof.
  intros H. apply Forall_forall. intros t' Hin.
  apply In_nth_error in Hin. destruct Hin as (k & Ek).
  apply nth_error_with_values in Ek. destruct Ek as (t & v & Et & _ & ->).
  rewrite Forall_forall in H. apply (H t). eapply nth_error_In. exact Et.
Qed.

Lemma load_host_value h M (hv : list R) (k : nat) (v : R) :
  dbls h (values_host_ M) = Ok (map Some hv) -> nth_error hv k = Some v ->
  load_dbl h (values_host_ M) (Z.of_nat k) = Ok v.
Proof.
  intros E Ek. unfold load_dbl. rewrite E. cbn [bind].
  apply rd_cell_map_Some. exact Ek.
Qed.







(** X10. The symmetric [addToSymDenseMatrixUpperTriangle], on a dense
    matrix that is not distributed, adds [alpha * v] of every stored triplet
    [(r, c, v)] to the entry [(r + row_start, c + col_start)] of [W] and
    changes no other entry; the values are those of the device array. *)
Theorem Sym_addToSymDense_places_the_upper_triangle :
  forall (get_local_size_n : hiopMatrixDense -> Z)
         cfg h M ts row_start col_start alpha W,
    get_local_size_n W = W_n W ->
    stores h M ts -> in_shape M ts -> dense_ok W -> W_n W = W_m W ->
    0 <= row_start -> row_start + nrows M <= W_m W ->
    0 <= col_start -> col_start + ncols M <= W_n W ->
    Forall (fun t => t_row t <= t_col t /\
                     t_row t + row_start <= t_col t + col_start) ts ->
    exists W',
      Sym.addToSymDenseMatrixUpperTriangle get_local_size_n cfg h M
        row_start col_start alpha W = Ok W' /\
      W_m W' = W_m W /\ W_n W' = W_n W /\
      updated W
        (placed (fun t => (t_row t + row_start, t_col t + col_start)) alpha ts)
        (local_buffer W').
Proof.
  intros gln cfg h M ts rs cs alpha W Hloc Hst Hsh HW Hnm Hrs Hrs' Hcs Hcs' Hup.
  assert (Hinit : updated W (fun _ _ => 0%R) (local_buffer W))
    by (apply updated_init; reflexivity).
  unfold in_shape in Hsh. rewrite Forall_forall in Hsh.
  rewrite Forall_forall in Hup.
  destruct (place_triplets W alpha
              (fun t => (t_row t + rs, t_col t + cs)) ts HW) with
    (f := fun _ _ : Z => 0%R) (buf := local_buffer W) as (buf' & E & Hbuf');
    [|exact Hinit|].
  { apply Forall_forall. intros t Ht. specialize (Hsh t Ht). cbn [fst snd]. lia. }
  exists (set_buffer W buf'). split; [|split; [reflexivity|split; [reflexivity|]]].
  - unfold Sym.addToSymDenseMatrixUpperTriangle. rewrite Hloc.
    rewrite !assert_holds by
      (try (apply andb_true_intro; split); try apply Z.leb_le;
       try apply Z.eqb_eq; lia).
    cbn [bind].
    rewrite (for_range_foldM _
               (fun t buf =>
                  _ <- assert_ cfg (t_row t <=? t_col t) ;;
                  _ <- assert_ cfg ((t_row t + rs <? W_m W) && (t_col t + cs <? W_n W)) ;;
                  _ <- assert_ cfg ((0 <=? t_row t + rs) && (0 <=? t_col t + cs)) ;;
                  _ <- assert_ cfg (t_row t + rs <=? t_col t + cs) ;;
                  View_add (W_n W) buf (t_row t + rs) (t_col t + cs)
                    (alpha * t_val t)%R) ts);
      [|apply Hst|].
    + rewrite (foldM_ext _
                 (fun t buf =>
                    View_add (W_n W) buf (t_row t + rs) (t_col t + cs)
                      (alpha * t_val t)%R)).
      * cbn [fst snd] in E. rewrite E. reflexivity.
      * intros t buf Ht. specialize (Hsh t Ht). specialize (Hup t Ht).
        rewrite !assert_holds by
          (try (apply andb_true_intro; split); try apply Z.leb_le;
           try apply Z.ltb_lt; lia).
        reflexivity.
    + intros k t buf E'.
      rewrite (load_row h M ts Hst k t E'), (load_col h M ts Hst k t E'),
        (load_val h M ts Hst k t E').
      reflexivity.
  - eapply updated_ext; [|exact Hbuf']. intros a b _ _. simpl. lra.
Qed.

(** X10 at the symmetric 2x2 scenario, into the whole of a 2x2 matrix. *)
Lemma Sym_addToSymDense_places_the_upper_triangle_witness :
  exists W',
    Sym.addToSymDenseMatrixUpperTriangle W_n debug_build (host_heap S22)
      (host_matrix 2 2 S22) 0 0 1 W22 = Ok W' /\
    W_m W' = 2 /\ W_n W' = 2 /\
    updated W22 (placed (fun t => (t_row t + 0, t_col t + 0)) 1 S22) (local_buffer W').
Proof.
  apply (Sym_addToSymDense_places_the_upper_triangle W_n debug_build
           (host_heap S22) (host_matrix 2 2 S22) S22 0 0 1%R W22).
  - reflexivity.
  - apply host_matrix_stores.
  - check_shape.
  - repeat split; simpl; lia.
  - reflexivity.
  - lia.
  - simpl. lia.
  - lia.
  - simpl. lia.
  - unfold S22. repeat (constructor; [unfold t_row, t_col; simpl; lia|]). constructor.
Defined.

(** ** The diagonal of the symmetric matrix *)













(** ** The counts of the test helpers *)

Lemma bump_length (sp : list Z) (i : Z) : length (bump sp i) = length sp.
Proof. apply set_nth_length. Qed.

Lemma bump_fold (key : triplet -> Z) (ts : list triplet) :
  forall sp,
    Forall (fun t => 0 <= key t < Z.of_nat (length sp)) ts ->
    foldM (fun t sp => cur <- rd sp (key t) ;; wr sp (key t) (cur + 1)) ts sp
    = Ok (fold_left (fun sp t => bump sp (key t)) ts sp).
Proof.
  induction ts as [|t ts IH]; intros sp Hin; [reflexivity|].
  inversion Hin as [|? ? Ht Hts]; subst.
  cbn [foldM fold_left].
  rewrite (rd_nth sp _ 0) by exact Ht. cbn [bind].
  rewrite wr_set_nth by exact Ht. cbn [bind].
  apply IH. eapply Forall_impl; [|exact Hts]. cbv beta. intros u Hu.
  first [rewrite bump_length|rewrite set_nth_length]. exact Hu.
Qed.

Lemma bump_fold_length (key : triplet -> Z) (ts : list triplet) :
  forall sp, length (fold_left (fun sp t => bump sp (key t)) ts sp) = length sp.
Proof.
  induction ts as [|t ts IH]; intros sp; [reflexivity|].
  cbn [fold_left]. rewrite IH. apply bump_length.
Qed.

Lemma nth_bump_fold (key : triplet -> Z) (ts : list triplet) (i : Z) :
  0 <= i ->
  forall sp,
    Forall (fun t => 0 <= key t < Z.of_nat (length sp)) ts ->
    nth (Z.to_nat i) (fold_left (fun sp t => bump sp (key t)) ts sp) 0
    = nth (Z.to_nat i) sp 0 + count_key key ts i.
Proof.
  intros Hi. unfold count_key.
  induction ts as [|t ts IH]; intros sp Hin; [simpl; lia|].
  inversion Hin as [|? ? Ht Hts]; subst.
  cbn [fold_left filter]. rewrite IH.
  - unfold bump.
    destruct (Z.eqb_spec (key t) i) as [E|Hne]; cbn [length].
    + rewrite E in *. rewrite nth_set_nth_same by lia. lia.
    + rewrite nth_set_nth_other by lia. lia.
  - eapply Forall_impl; [|exact Hts]. cbv beta. intros u Hu.
    rewrite bump_length. exact Hu.
Qed.

Lemma nth_repeat_zero (n k : nat) : nth k (repeat 0 n) 0 = 0.
Proof.
  revert k. induction n as [|n IH]; intros [|k]; simpl; auto.
Qed.

Lemma numNonzerosPerRow_run A h ts :
  stores h A ts -> mirror_ok h A -> in_shape A ts -> 0 <= nrows A ->
  exists sp h',
    MatrixTestsRajaSparseTriplet.numNonzerosPerRow A h = Ok (sp, h') /\
    Z.of_nat (length sp) = nrows A /\
    forall i, 0 <= i < nrows A ->
      nth (Z.to_nat i) sp 0 = Z.of_nat (length (row_of ts i)).
Proof.
  intros Hst Hm Hsh Hr.
  destruct (copyFromDev_syncs A h ts Hst Hm) as (h' & E & _ & Hh & _).
  pose proof Hh as (Hn & _).
  exists (fold_left (fun sp t => bump sp (t_row t)) ts (repeat 0 (Z.to_nat (nrows A)))), h'.
  assert (Hin : Forall (fun t => 0 <= t_row t
                   < Z.of_nat (length (repeat 0 (Z.to_nat (nrows A))))) ts).
  { rewrite repeat_length. eapply Forall_impl; [|exact Hsh].
    cbv beta. intros t (? & _). lia. }
  split; [|split].
  - unfold MatrixTestsRajaSparseTriplet.numNonzerosPerRow,
      MatrixTestsRajaSparseTriplet.new_zeroed.
    rewrite E. cbn [bind].
    destruct (Z.ltb_spec (nrows A) 0); [lia|]. cbn [bind].
    rewrite (for_range_foldM _
               (fun t sp => cur <- rd sp (t_row t) ;; wr sp (t_row t) (cur + 1)) ts);
      [|exact Hn|].
    + rewrite bump_fold by exact Hin. reflexivity.
    + intros k t sp Ek. rewrite (load_row_host h' A ts Hh k t Ek). reflexivity.
  - rewrite bump_fold_length, repeat_length. lia.
  - intros i Hi. rewrite nth_bump_fold by (lia || exact Hin).
    rewrite nth_repeat_zero. reflexivity.
Qed.

Lemma numNonzerosPerCol_run A h ts :
  stores h A ts -> mirror_ok h A -> in_shape A ts -> 0 <= ncols A ->
  exists sp h',
    MatrixTestsRajaSparseTriplet.numNonzerosPerCol A h = Ok (sp, h') /\
    Z.of_nat (length sp) = ncols A /\
    forall j, 0 <= j < ncols A ->
      nth (Z.to_nat j) sp 0 = count_key t_col ts j.
Proof.
  intros Hst Hm Hsh Hc.
  destruct (copyFromDev_syncs A h ts Hst Hm) as (h' & E & _ & Hh & _).
  pose proof Hh as (Hn & _).
  exists (fold_left (fun sp t => bump sp (t_col t)) ts (repeat 0 (Z.to_nat (ncols A)))), h'.
  assert (Hin : Forall (fun t => 0 <= t_col t
                   < Z.of_nat (length (repeat 0 (Z.to_nat (ncols A))))) ts).
  { rewrite repeat_length. eapply Forall_impl; [|exact Hsh].
    cbv beta. intros t (_ & ?). lia. }
  split; [|split].
  - unfold MatrixTestsRajaSparseTriplet.numNonzerosPerCol,
      MatrixTestsRajaSparseTriplet.new_zeroed.
    rewrite E. cbn [bind].
    destruct (Z.ltb_spec (ncols A) 0); [lia|]. cbn [bind].
    rewrite (for_range_foldM _
               (fun t sp => cur <- rd sp (t_col t) ;; wr sp (t_col t) (cur + 1)) ts);
      [|exact Hn|].
    + rewrite bump_fold by exact Hin. reflexivity.
    + intros k t sp Ek. rewrite (load_col_host h' A ts Hh k t Ek). reflexivity.
  - rewrite bump_fold_length, repeat_length. lia.
  - intros j Hj. rewrite nth_bump_fold by (lia || exact Hin).
    rewrite nth_repeat_zero. reflexivity.
Qed.

(** X13. On a matrix with its [nnz] triplets inside the shape,
    [numNonzerosPerRow] returns an array of [nrows] counts whose entry [i]
    is the number of stored triplets of row [i], and [numNonzerosPerCol] an
    array of [ncols] counts whose entry [j] is the number of stored
    triplets of column [j]; both read the host mirror after bringing it up
    to date. *)
Theorem numNonzerosPerRow_and_PerCol_count :
  forall A h ts,
    stores h A ts -> mirror_ok h A -> in_shape A ts ->
    0 <= nrows A -> 0 <= ncols A ->
    (exists sp h',
        MatrixTestsRajaSparseTriplet.numNonzerosPerRow A h = Ok (sp, h') /\
        Z.of_nat (length sp) = nrows A /\
        forall i, 0 <= i < nrows A ->
          nth (Z.to_nat i) sp 0 = Z.of_nat (length (row_of ts i))) /\
    (exists sp h',
        MatrixTestsRajaSparseTriplet.numNonzerosPerCol A h = Ok (sp, h') /\
        Z.of_nat (length sp) = ncols A /\
        forall j, 0 <= j < ncols A ->
          nth (Z.to_nat j) sp 0 = count_key t_col ts j).
Proof.
  intros A h ts Hst Hm Hsh Hr Hc. split.
  - apply numNonzerosPerRow_run; assumption.
  - apply numNonzerosPerCol_run; assumption.
Qed.

(** X13 on the 2x3 scenario. *)
Lemma numNonzerosPerRow_and_PerCol_count_witness :
  (exists sp h',
      MatrixTestsRajaSparseTriplet.numNonzerosPerRow (host_matrix 2 3 A23)
        (host_heap A23) = Ok (sp, h') /\
      Z.of_nat (length sp) = 2 /\
      forall i, 0 <= i < 2 ->
        nth (Z.to_nat i) sp 0 = Z.of_nat (length (row_of A23 i))) /\
  (exists sp h',
      MatrixTestsRajaSparseTriplet.numNonzerosPerCol (host_matrix 2 3 A23)
        (host_heap A23) = Ok (sp, h') /\
      Z.of_nat (length sp) = 3 /\
      forall j, 0 <= j < 3 ->
        nth (Z.to_nat j) sp 0 = count_key t_col A23 j).
Proof.
  apply (numNonzerosPerRow_and_PerCol_count (host_matrix 2 3 A23) (host_heap A23) A23).
  - apply host_matrix_stores.
  - unfold mirror_ok. simpl. repeat split.
  - check_shape.
  - simpl. lia.
  - simpl. lia.
Defined.

(** X14. The row-start index and the per-row counts agree: on a
    row-major-sorted matrix with at least one row, the offsets that
    [allocAndBuildRowStarts] builds increase from each row to the next by
    the count that [numNonzerosPerRow] returns for the row. *)
Theorem row_starts_are_sums_of_the_row_counts :
  forall cfg A h ts,
    stores h A ts -> mirror_ok h A -> host_stores h A ts ->
    row_major_sorted ts -> in_shape A ts -> 1 <= nrows A ->
    exists rsi h1 offs sp h2,
      allocAndBuildRowStarts cfg A h = Ok (rsi, h1) /\
      ints h1 (idx_start_ rsi) = Ok (map Some offs) /\
      MatrixTestsRajaSparseTriplet.numNonzerosPerRow A h = Ok (sp, h2) /\
      forall i, 0 <= i < nrows A ->
        nth (Z.to_nat (i + 1)) offs 0 = nth (Z.to_nat i) offs 0 + nth (Z.to_nat i) sp 0.
Proof.
  intros cfg A h ts Hst Hm Hh Hs Hsh Hn.
  destruct (numNonzerosPerRow_run A h ts Hst Hm Hsh) as (sp & h2 & E2 & _ & Hsp);
    [lia|].
  do 2 eexists. exists (row_offsets ts (Z.to_nat (nrows A))), sp, h2.
  split; [apply (allocAndBuildRowStarts_run cfg h A ts); try assumption;
          apply in_shape_row_bounds; exact Hsh|].
  split.
  { cbn [idx_start_]. unfold ints, index_block. rewrite lookup_end1. reflexivity. }
  split; [exact E2|].
  intros i Hi. rewrite !nth_row_offsets by lia.
  rewrite Hsp by exact Hi.
  replace (Z.of_nat (Z.to_nat (i + 1))) with (i + 1) by lia.
  replace (Z.of_nat (Z.to_nat i)) with i by lia.
  apply count_lt_succ.
Qed.

(** X14 on the 3-row scenario. *)
Lemma row_starts_are_sums_of_the_row_counts_witness :
  let ts := P34 1 1 1 1 in
  exists rsi h1 offs sp h2,
    allocAndBuildRowStarts debug_build (host_matrix 3 3 ts) (host_heap ts) = Ok (rsi, h1) /\
    ints h1 (idx_start_ rsi) = Ok (map Some offs) /\
    MatrixTestsRajaSparseTriplet.numNonzerosPerRow (host_matrix 3 3 ts) (host_heap ts)
    = Ok (sp, h2) /\
    forall i, 0 <= i < 3 ->
      nth (Z.to_nat (i + 1)) offs 0 = nth (Z.to_nat i) offs 0 + nth (Z.to_nat i) sp 0.
Proof.
  apply (row_starts_are_sums_of_the_row_counts debug_build (host_matrix 3 3 (P34 1 1 1 1))
           (host_heap (P34 1 1 1 1)) (P34 1 1 1 1)).
  - apply host_matrix_stores.
  - unfold mirror_ok. simpl. repeat split.
  - repeat split.
  - unfold row_major_sorted, P34, lex_lt.
    repeat (constructor; try (unfold t_row, t_col; simpl; lia)).
  - check_shape.
  - simpl. lia.
Defined.

(** ** Printing *)

Lemma print_items_run (file : FILE) (fmt : string) (item : Z -> outcome fprintf_arg)
    (g : triplet -> fprintf_arg) (ts : list triplet) :
  (forall k t, nth_error ts k = Some t -> item (Z.of_nat k) = Ok (g t)) ->
  forall (n i : nat) (out : list fprintf_call),
    (i + n <= length ts)%nat ->
    print_items file fmt item n (Z.of_nat i) out
    = (out ++ map (fun t => (file, fmt, [g t])) (firstn n (skipn i ts)), Ok tt).
Proof.
  intros Hitem. induction n as [|n IH]; intros i out Hlen.
  - cbn [print_items firstn map]. rewrite app_nil_r. reflexivity.
  - destruct (nth_error ts i) as [t|] eqn:Et;
      [|apply nth_error_None in Et; lia].
    cbn [print_items]. unfold fio_bind at 1, fio_lift at 1.
    rewrite (Hitem i t Et).
    unfold fio_bind at 1, fprintf at 1.
    replace (Z.of_nat i + 1) with (Z.of_nat (S i)) by lia.
    rewrite IH by lia.
    rewrite (skipn_nth_error ts i t Et). cbn [firstn map].
    rewrite <- app_assoc. reflexivity.
Qed.

Lemma load_host_value_of h M ts (k : nat) (t : triplet) :
  host_values h M ts -> nth_error ts k = Some t ->
  load_dbl h (values_host_ M) (Z.of_nat k) = Ok (t_val t).
Proof.
  intros Hv Ek. apply (load_host_value h M (map t_val ts)); [exact Hv|].
  rewrite nth_error_map, Ek. reflexivity.
Qed.

(** X15. [print] on rank 0 or -1 writes, to the given stream or to the
    standard output when there is none: the sizes (or the message), then
    the row indices, the column indices and the values of the first
    [min(maxRows, nnz)] stored triplets (of all of them when [maxRows] is
    negative), the indices one more than stored; what it shows is the
    contents of the device arrays, which it first copies to the host
    mirror.  On any other rank it writes nothing.  [maxCols] is not
    used. *)
Theorem print_shows_the_first_entries :
  forall M file msg maxRows maxCols rank h ts out,
    stores h M ts -> mirror_ok h M ->
    exists h',
      copyFromDev M h = Ok h' /\
      print M file msg maxRows maxCols rank h out
      = (if (rank =? 0) || (rank =? -1)
         then out ++ printed M (stream_of file) msg maxRows ts
         else out,
         Ok h').
Proof.
  intros M file msg maxRows maxCols rank h ts out Hst Hm.
  destruct (copyFromDev_syncs M h ts Hst Hm) as (h' & E & _ & Hh & Hv & _).
  exists h'. split; [exact E|].
  unfold print. unfold fio_bind at 1, fio_lift at 1. rewrite E.
  cbv zeta. fold (stream_of file). fold (shown M maxRows).
  rewrite (Z.eqb_sym 0 rank).
  destruct ((rank =? 0) || (rank =? -1)); [|reflexivity].
  set (f := stream_of file). set (k := Z.to_nat (shown M maxRows)).
  assert (Hk : (0 + k <= length ts)%nat).
  { pose proof Hst as (Hn & _). unfold k, shown. lia. }
  unfold fio_bind at 1.
  assert (Hhead : (match msg with
                   | Some s => fprintf f "%s " [arg_string s]
                   | None =>
                       if 1 <? 1
                       then fprintf f
                              ("matrix of size %lld %lld and nonzeros %lld, printing %d elems (on rank=%d)"
                                 ++ newline)
                              [arg_int (nrows M); arg_int (ncols M); arg_int (nnz M);
                               arg_int (shown M maxRows); arg_int 0]
                       else fprintf f
                              ("matrix of size %lld %lld and nonzeros %lld, printing %d elems"
                                 ++ newline)
                              [arg_int (nrows M); arg_int (ncols M); arg_int (nnz M);
                               arg_int (shown M maxRows)]
                   end) out = (out ++ [print_header M f msg maxRows], Ok tt)).
  { destruct msg; reflexivity. }
  rewrite Hhead.
  unfold fio_bind at 1, fprintf at 1.
  unfold fio_bind at 1. change 0 with (Z.of_nat 0).
  rewrite (print_items_run f "%d; " _ (fun t => arg_int (t_row t + 1)) ts)
    by (exact Hk ||
        (intros i t Et; rewrite (load_row_host h' M ts Hh i t Et); reflexivity)).
  unfold fio_bind at 1, fprintf at 1.
  unfold fio_bind at 1, fprintf at 1.
  unfold fio_bind at 1.
  rewrite (print_items_run f "%d; " _ (fun t => arg_int (t_col t + 1)) ts)
    by (exact Hk ||
        (intros i t Et; rewrite (load_col_host h' M ts Hh i t Et); reflexivity)).
  unfold fio_bind at 1, fprintf at 1.
  unfold fio_bind at 1, fprintf at 1.
  unfold fio_bind at 1.
  rewrite (print_items_run f "%22.16e; " _ (fun t => arg_double (t_val t)) ts)
    by (exact Hk ||
        (intros i t Et; rewrite (load_host_value_of h' M ts i t Hv Et); reflexivity)).
  unfold fio_bind at 1, fprintf at 1. unfold fio_lift.
  unfold printed, print_array. cbn [skipn]. fold k.
  rewrite <- !app_assoc. reflexivity.
Qed.

(** X15 on the 2x3 scenario, the first two entries, to the standard
    output. *)
Lemma print_shows_the_first_entries_witness :
  exists h',
    copyFromDev (host_matrix 2 3 A23) (host_heap A23) = Ok h' /\
    print (host_matrix 2 3 A23) None None 2 (-1) (-1) (host_heap A23) []
    = (if (-1 =? 0) || (-1 =? -1)
       then [] ++ printed (host_matrix 2 3 A23) (stream_of None) None 2 A23
       else [],
       Ok h').
Proof.
  apply (print_shows_the_first_entries (host_matrix 2 3 A23) None None 2 (-1) (-1)
           (host_heap A23) A23 []).
  - apply host_matrix_stores.
  - unfold mirror_ok. simpl. repeat split.
Defined.

(** ** The products on vectors, and their assertions *)

(** X16. In a build with assertions, [timesVec] on vectors returns exactly
    when [x] has [ncols] entries and [y] has [nrows] entries, with [y]
    scaled by [beta] and every triplet added; otherwise it stops at an
    assertion.  [transTimesVec] does the same with the two sizes
    exchanged, and the symmetric [timesVec] also needs a square matrix. *)
Theorem products_on_vectors_check_the_sizes :
  forall cfg h M ts beta y alpha x,
    NDEBUG cfg = false -> stores h M ts -> in_shape M ts ->
    OnVectors.timesVec cfg h M beta y alpha x
    = (if (get_size x =? ncols M) && (get_size y =? nrows M)
       then Ok (scatter_add t_row t_col alpha x ts (scale_prefix (nrows M) beta y))
       else AssertFailed) /\
    OnVectors.transTimesVec cfg h M beta y alpha x
    = (if (get_size x =? nrows M) && (get_size y =? ncols M)
       then Ok (scatter_add t_col t_row alpha x ts (scale_prefix (ncols M) beta y))
       else AssertFailed) /\
    Sym.OnVectors.timesVec cfg h M beta y alpha x
    = (if (ncols M =? nrows M) && ((get_size x =? ncols M) && (get_size y =? nrows M))
       then Ok (sym_scatter_add alpha x ts (scale_prefix (nrows M) beta y))
       else AssertFailed).
Proof.
  intros cfg h M ts beta y alpha x Hnd Hst Hsh.
  unfold OnVectors.timesVec, OnVectors.transTimesVec, Sym.OnVectors.timesVec,
    get_size.
  split; [|split].
  - unfold assert_. rewrite Hnd.
    destruct (Z.eqb_spec (Z.of_nat (length x)) (ncols M)); [|reflexivity].
    destruct (Z.eqb_spec (Z.of_nat (length y)) (nrows M)); [|reflexivity].
    cbn [bind andb]. apply timesVec_run; try assumption; lia.
  - unfold assert_. rewrite Hnd.
    destruct (Z.eqb_spec (Z.of_nat (length x)) (nrows M)); [|reflexivity].
    destruct (Z.eqb_spec (Z.of_nat (length y)) (ncols M)); [|reflexivity].
    cbn [bind andb]. apply transTimesVec_run; try assumption; lia.
  - unfold assert_ at 1 2 3. rewrite Hnd.
    destruct (Z.eqb_spec (ncols M) (nrows M)) as [Hsq|]; [|reflexivity].
    destruct (Z.eqb_spec (Z.of_nat (length x)) (ncols M)); [|reflexivity].
    destruct (Z.eqb_spec (Z.of_nat (length y)) (nrows M)); [|reflexivity].
    cbn [bind andb]. unfold Sym.timesVec.
    rewrite assert_holds by (apply Z.eqb_eq; exact Hsq). cbn [bind].
    rewrite scale_loop by lia. cbn [bind].
    apply sym_scatter_fold; try assumption; rewrite ?scale_prefix_length; lia.
Qed.

(** X16 on the symmetric 2x2 scenario in the debug build. *)
Lemma products_on_vectors_check_the_sizes_witness :
  let h := host_heap S22 in
  let M := host_matrix 2 2 S22 in
  OnVectors.timesVec debug_build h M 0 [0; 0]%R 1 [1; 1]%R
  = (if (get_size [1; 1]%R =? 2) && (get_size [0; 0]%R =? 2)
     then Ok (scatter_add t_row t_col 1 [1; 1]%R S22 (scale_prefix 2 0 [0; 0]%R))
     else AssertFailed) /\
  OnVectors.transTimesVec debug_build h M 0 [0; 0]%R 1 [1; 1]%R
  = (if (get_size [1; 1]%R =? 2) && (get_size [0; 0]%R =? 2)
     then Ok (scatter_add t_col t_row 1 [1; 1]%R S22 (scale_prefix 2 0 [0; 0]%R))
     else AssertFailed) /\
  Sym.OnVectors.timesVec debug_build h M 0 [0; 0]%R 1 [1; 1]%R
  = (if (2 =? 2) && ((get_size [1; 1]%R =? 2) && (get_size [0; 0]%R =? 2))
     then Ok (sym_scatter_add 1 [1; 1]%R S22 (scale_prefix 2 0 [0; 0]%R))
     else AssertFailed).
Proof.
  apply (products_on_vectors_check_the_sizes debug_build (host_heap S22)
           (host_matrix 2 2 S22) S22 0%R [0; 0]%R 1%R [1; 1]%R).
  - reflexivity.
  - apply host_matrix_stores.
  - check_shape.
Defined.





(** ** The symmetric product on a diagonal matrix *)

Lemma sym_scatter_add_diagonal alpha x (ts : list triplet) :
  Forall (fun t => t_row t = t_col t) ts ->
  forall y, sym_scatter_add alpha x ts y = scatter_add t_row t_col alpha x ts y.
Proof.
  unfold sym_scatter_add, scatter_add.
  induction ts as [|t ts IH]; intros Hd y; [reflexivity|].
  inversion Hd as [|? ? Ht Hts]; subst. cbn [fold_left].
  rewrite Ht at 1 2. rewrite Z.eqb_refl. cbn [negb]. rewrite <- Ht.
  apply IH. exact Hts.
Qed.

(** X18. On a symmetric matrix that stores diagonal entries only, the
    symmetric [timesVec] returns what the general [timesVec] returns:
    [y] scaled by [beta] plus [alpha * v * x[r]] for every stored
    [(r, r, v)]. *)
Theorem Sym_timesVec_on_a_diagonal_matrix :
  forall cfg h M ts beta y alpha x,
    stores h M ts -> in_shape M ts -> ncols M = nrows M ->
    Z.of_nat (length x) = ncols M -> Z.of_nat (length y) = nrows M ->
    Forall (fun t => t_row t = t_col t) ts ->
    Sym.timesVec cfg h M beta y alpha x = timesVec cfg h M beta y alpha x /\
    timesVec cfg h M beta y alpha x
    = Ok (scatter_add t_row t_col alpha x ts (scale_prefix (nrows M) beta y)).
Proof.
  intros cfg h M ts beta y alpha x Hst Hsh Hsq Hx Hy Hd.
  assert (E : timesVec cfg h M beta y alpha x
              = Ok (scatter_add t_row t_col alpha x ts (scale_prefix (nrows M) beta y)))
    by (apply timesVec_run; try assumption; lia).
  split; [|exact E]. rewrite E.
  unfold Sym.timesVec.
  rewrite assert_holds by (apply Z.eqb_eq; exact Hsq). cbn [bind].
  rewrite scale_loop by lia. cbn [bind].
  rewrite (sym_scatter_fold cfg h M ts alpha x) by
    (try assumption; rewrite ?scale_prefix_length; lia).
  rewrite sym_scatter_add_diagonal by exact Hd. reflexivity.
Qed.

(** X18 on [diag(2, 3)]. *)
Lemma Sym_timesVec_on_a_diagonal_matrix_witness :
  Sym.timesVec debug_build (host_heap D22) (host_matrix 2 2 D22) 0 [0; 0]%R 1 [1; 1]%R
  = timesVec debug_build (host_heap D22) (host_matrix 2 2 D22) 0 [0; 0]%R 1 [1; 1]%R /\
  timesVec debug_build (host_heap D22) (host_matrix 2 2 D22) 0 [0; 0]%R 1 [1; 1]%R
  = Ok (scatter_add t_row t_col 1 [1; 1]%R D22 (scale_prefix 2 0 [0; 0]%R)).
Proof.
  apply (Sym_timesVec_on_a_diagonal_matrix debug_build (host_heap D22)
           (host_matrix 2 2 D22) D22 0%R [0; 0]%R 1%R [1; 1]%R).
  - apply host_matrix_stores.
  - check_shape.
  - reflexivity.
  - reflexivity.
  - reflexivity.
  - unfold D22. repeat (constructor; [reflexivity|]). constructor.
Defined.

(** ** The life of the cached row starts *)

(** The first [prepareRowStarts] of a matrix: one released block and the
    index behind it. *)
Lemma prepareRowStarts_first cfg h M ts :
  host_stores h M ts -> row_major_sorted ts -> in_shape M ts ->
  0 <= nrows M -> row_starts_host M = None ->
  exists blk,
    let rsi := {| num_rows_ := nrows M; rs_mem_space_ := mem_space_ M;
                  idx_start_ := S (length h) |} in
    prepareRowStarts cfg M h
    = Ok (set_row_starts_host M rsi, rsi, h ++ [None; Some blk]) /\
    (1 <= nrows M ->
     blk_cells blk = IntCells (map Some (row_offsets ts (Z.to_nat (nrows M))))).
Proof.
  intros Hh Hs Hsh Hn Hnone. unfold prepareRowStarts. rewrite Hnone.
  destruct (Z.eq_dec (nrows M) 0) as [H0|Hpos].
  - rewrite allocAndBuildRowStarts_no_rows by exact H0. cbn [bind].
    eexists. cbv zeta. rewrite H0. split; [reflexivity|]. lia.
  - rewrite (allocAndBuildRowStarts_run cfg h M ts)
      by (try assumption; try lia; apply in_shape_row_bounds; assumption).
    cbn [bind]. eexists. cbv zeta. split; [reflexivity|].
    intros _. reflexivity.
Qed.

(** The object and the memory that [addMDinvMtransToDiagBlockOfSymDeMatUTri]
    returns are those its [prepareRowStarts] leaves. *)
Lemma addMDinvMtrans_result cfg M d alpha D W h M' h' W' M1 rsi1 h1 :
  addMDinvMtransToDiagBlockOfSymDeMatUTri cfg M d alpha D W h = Ok (M', h', W') ->
  prepareRowStarts cfg M h = Ok (M1, rsi1, h1) ->
  M' = M1 /\ h' = h1.
Proof.
  unfold addMDinvMtransToDiagBlockOfSymDeMatUTri. cbv zeta. intros E Hp.
  apply bind_inv in E. destruct E as (_ & _ & E).
  apply bind_inv in E. destruct E as (_ & _ & E).
  apply bind_inv in E. destruct E as (_ & _ & E).
  rewrite Hp in E. cbn [bind] in E.
  apply bind_inv in E. destruct E as (buf & _ & E).
  inversion E. split; reflexivity.
Qed.

(** X19. The row-start index is built once.  The first
    [addMDinvMtransToDiagBlockOfSymDeMatUTri] on a matrix without cached
    row starts allocates two blocks, the temporary host index, which it
    releases, and the index it caches in the object; a second call on the
    object returns the same object and the same memory: it allocates
    nothing. *)
Theorem row_starts_are_built_once :
  forall cfg h M ts d alpha D W,
    stores h M ts -> host_stores h M ts -> row_major_sorted ts ->
    in_shape M ts -> 0 <= nrows M -> row_starts_host M = None ->
    Z.of_nat (length D) = ncols M ->
    dense_ok W -> 0 <= d -> d + nrows M <= W_m W -> d + nrows M <= W_n W ->
    exists M' h' W',
      addMDinvMtransToDiagBlockOfSymDeMatUTri cfg M d alpha D W h = Ok (M', h', W') /\
      (exists rsi, row_starts_host M' = Some rsi /\ idx_start_ rsi = S (length h)) /\
      length h' = (length h + 2)%nat /\
      lookup h' (length h) = Fault /\
      exists W'',
        addMDinvMtransToDiagBlockOfSymDeMatUTri cfg M' d alpha D W' h'
        = Ok (M', h', W'').
Proof.
  intros cfg h M ts d alpha D W Hst Hh Hs Hsh Hn Hnone HD HW Hd Hdm Hdn.
  destruct (prepareRowStarts_first cfg h M ts Hh Hs Hsh Hn Hnone) as (blk & Hp & Hblk).
  cbv zeta in Hp.
  set (rsi0 := {| num_rows_ := nrows M; rs_mem_space_ := mem_space_ M;
                  idx_start_ := S (length h) |}) in *.
  destruct (addMDinvMtrans_run cfg h M ts d alpha D W) as (rsi & ext & buf & E & Hl & Hf);
    try assumption; [unfold cache_valid; rewrite Hnone; exact I|].
  destruct (addMDinvMtrans_result _ _ _ _ _ _ _ _ _ _ _ _ _ E Hp) as (EM & Eh).
  rewrite EM, Eh in E. clear EM Eh rsi ext.
  set (M' := set_row_starts_host M rsi0) in *.
  set (h' := h ++ [None; Some blk]) in *.
  exists M', h', (set_buffer W buf). split; [exact E|].
  split; [exists rsi0; split; reflexivity|].
  split; [unfold h'; rewrite length_app; reflexivity|].
  split.
  { unfold h', lookup. rewrite nth_error_app2, Nat.sub_diag by lia. reflexivity. }
  assert (Hp' : prepareRowStarts cfg M' h' = Ok (M', rsi0, h')) by reflexivity.
  destruct (addMDinvMtrans_run cfg h' M' ts d alpha D (set_buffer W buf))
    as (rsi2 & ext2 & buf2 & E2 & _); try assumption.
  - apply stores_app_l. exact Hst.
  - apply host_stores_app_l. exact Hh.
  - unfold cache_valid. cbn [M' row_starts_host set_row_starts_host nrows].
    intros H1. unfold ints, h'. cbn [rsi0 idx_start_]. rewrite lookup_end1.
    cbn [bind]. rewrite (Hblk H1). reflexivity.
  - destruct HW as (? & ? & HWl). repeat split; try assumption.
    cbn [set_buffer local_buffer W_m W_n]. rewrite Hl. exact HWl.
  - destruct (addMDinvMtrans_result _ _ _ _ _ _ _ _ _ _ _ _ _ E2 Hp') as (EM & Eh).
    rewrite EM, Eh in E2. eexists. exact E2.
Qed.

(** X19 on [diag(2, 3)], with [D = [4, 5]], into the lower right block of
    a 3x3 matrix. *)
Lemma row_starts_are_built_once_witness :
  let W := {| W_m := 3; W_n := 3;
              local_buffer := [0; 0; 0; 0; 0; 0; 0; 0; 0]%R |} in
  exists M' h' W',
    addMDinvMtransToDiagBlockOfSymDeMatUTri debug_build (host_matrix 2 2 D22) 1 1
      [4; 5]%R W (host_heap D22) = Ok (M', h', W') /\
    (exists rsi, row_starts_host M' = Some rsi /\ idx_start_ rsi = 4%nat) /\
    length h' = 5%nat /\
    lookup h' 3%nat = Fault /\
    exists W'',
      addMDinvMtransToDiagBlockOfSymDeMatUTri debug_build M' 1 1 [4; 5]%R W' h'
      = Ok (M', h', W'').
Proof.
  apply (row_starts_are_built_once debug_build (host_heap D22) (host_matrix 2 2 D22)
           D22 1 1%R [4; 5]%R).
  - apply host_matrix_stores.
  - repeat split.
  - unfold row_major_sorted, D22, lex_lt.
    repeat (constructor; try (unfold t_row, t_col; simpl; lia)).
  - check_shape.
  - simpl. lia.
  - reflexivity.
  - reflexivity.
  - repeat split; simpl; lia.
  - lia.
  - simpl. lia.
  - simpl. lia.
Defined.

(** X20. Nothing that the kernel allocates outlives the object.  After
    [addMDinvMtransToDiagBlockOfSymDeMatUTri] on a matrix without cached
    row starts, the destructor of the returned object returns and releases
    the arrays of the matrix and the cached index: every block from the
    two the kernel has allocated on is released, and the blocks of other
    owners are as before the kernel. *)
Theorem cached_row_starts_are_released :
  forall cfg h M ts d alpha D W,
    stores h M ts -> host_stores h M ts -> row_major_sorted ts ->
    in_shape M ts -> 0 <= nrows M -> row_starts_host M = None ->
    Z.of_nat (length D) = ncols M ->
    dense_ok W -> 0 <= d -> d + nrows M <= W_m W -> d + nrows M <= W_n W ->
    NoDup (owned M) -> Forall (live h) (owned M) ->
    exists M' h' W' h'',
      addMDinvMtransToDiagBlockOfSymDeMatUTri cfg M d alpha D W h = Ok (M', h', W') /\
      delete_hiopMatrixRajaSparseTriplet M' h' = Ok h'' /\
      (forall q, In q (owned M) -> lookup h'' q = Fault) /\
      (forall q, (length h <= q)%nat -> lookup h'' q = Fault) /\
      (forall q, (q < length h)%nat -> ~ In q (owned M) -> lookup h'' q = lookup h q).
Proof.
  intros cfg h M ts d alpha D W Hst Hh Hs Hsh Hn Hnone HD HW Hd Hdm Hdn Hnd Hlive.
  destruct (prepareRowStarts_first cfg h M ts Hh Hs Hsh Hn Hnone) as (blk & Hp & _).
  cbv zeta in Hp.
  set (rsi0 := {| num_rows_ := nrows M; rs_mem_space_ := mem_space_ M;
                  idx_start_ := S (length h) |}) in *.
  destruct (addMDinvMtrans_run cfg h M ts d alpha D W) as (rsi & ext & buf & E & _);
    try assumption; [unfold cache_valid; rewrite Hnone; exact I|].
  destruct (addMDinvMtrans_result _ _ _ _ _ _ _ _ _ _ _ _ _ E Hp) as (EM & Eh).
  rewrite EM, Eh in E. clear EM Eh rsi ext.
  set (M' := set_row_starts_host M rsi0) in *.
  set (h' := h ++ [None; Some blk]) in *.
  assert (Hown : owned M' = S (length h) :: owned M).
  { unfold owned. cbn [M' set_row_starts_host row_starts_host iRow_ jCol_ values_
                       iRow_host_ jCol_host_ values_host_ mem_space_ rsi0 idx_start_].
    rewrite Hnone. reflexivity. }
  assert (Hlt : forall q, In q (owned M) -> (q < length h)%nat).
  { intros q Hq. rewrite Forall_forall in Hlive. apply live_lt. apply Hlive. exact Hq. }
  destruct (release_all (owned M') h') as (h'' & Edel & Hlen & Hq).
  { rewrite Hown. constructor; [|exact Hnd].
    intros Hin. apply Hlt in Hin. lia. }
  { rewrite Hown. constructor.
    - exists blk. unfold h'. apply lookup_end1.
    - rewrite Forall_forall in *. intros q Hin. destruct (Hlive q Hin) as (b & Eb).
      exists b. unfold h'. rewrite lookup_app_l by (apply Hlt; exact Hin). exact Eb. }
  exists M', h', (set_buffer W buf), h''. split; [exact E|].
  split; [rewrite destructor_is_release; exact Edel|].
  split; [|split].
  - intros q Hin. apply (proj1 (Hq q)). rewrite Hown. right. exact Hin.
  - intros q Hge.
    destruct (Nat.eq_dec q (S (length h))) as [->|Hne].
    + apply (proj1 (Hq _)). rewrite Hown. left. reflexivity.
    + rewrite (proj2 (Hq q)).
      * unfold h', lookup. rewrite nth_error_app2 by exact Hge.
        destruct (q - length h)%nat as [|[|k]] eqn:Ek; [reflexivity|lia|].
        cbn [nth_error]. destruct k; reflexivity.
      * rewrite Hown. intros [Hin|Hin]; [lia|]. apply Hlt in Hin. lia.
  - intros q Hq' Hnin. rewrite (proj2 (Hq q)).
    + unfold h'. apply lookup_app_l. exact Hq'.
    + rewrite Hown. intros [Hin|Hin]; [lia|contradiction].
Qed.

(** X20 on [diag(2, 3)], with [D = [4, 5]], into the lower right block of
    a 3x3 matrix. *)
Lemma cached_row_starts_are_released_witness :
  let W := {| W_m := 3; W_n := 3;
              local_buffer := [0; 0; 0; 0; 0; 0; 0; 0; 0]%R |} in
  let M := host_matrix 2 2 D22 in
  exists M' h' W' h'',
    addMDinvMtransToDiagBlockOfSymDeMatUTri debug_build M 1 1 [4; 5]%R W (host_heap D22)
    = Ok (M', h', W') /\
    delete_hiopMatrixRajaSparseTriplet M' h' = Ok h'' /\
    (forall q, In q (owned M) -> lookup h'' q = Fault) /\
    (forall q, (3 <= q)%nat -> lookup h'' q = Fault) /\
    (forall q, (q < 3)%nat -> ~ In q (owned M) ->
               lookup h'' q = lookup (host_heap D22) q).
Proof.
  apply (cached_row_starts_are_released debug_build (host_heap D22)
           (host_matrix 2 2 D22) D22 1 1%R [4; 5]%R).
  - apply host_matrix_stores.
  - repeat split.
  - unfold row_major_sorted, D22, lex_lt.
    repeat (constructor; try (unfold t_row, t_col; simpl; lia)).
  - check_shape.
  - simpl. lia.
  - reflexivity.
  - reflexivity.
  - repeat split; simpl; lia.
  - lia.
  - simpl. lia.
  - simpl. lia.
  - unfold owned. simpl. repeat (constructor; [simpl; intuition lia|]). constructor.
  - unfold owned. simpl. repeat (constructor; [eexists; reflexivity|]). constructor.
Defined.

(** ** The sign of the diagonal of [A D^-1 A^T] *)

Local Open Scope R_scope.

Lemma Rsum_nonneg (n : nat) (f : Z -> R) :
  (forall k, (0 <= k < Z.of_nat n)%Z -> 0 <= f k) -> 0 <= Rsum n f.
Proof.
  induction n as [|n IH]; intros H; cbn [Rsum]; [lra|].
  assert (0 <= Rsum n f) by (apply IH; intros k Hk; apply H; lia).
  assert (0 <= f (Z.of_nat n)) by (apply H; lia).
  lra.
Qed.

Lemma weighted_product_diagonal_nonneg (ts : list triplet) (D : list R) (n i : Z) :
  (n <= Z.of_nat (length D))%Z -> Forall (fun x => 0 < x) D ->
  0 <= weighted_product ts ts D n i i.
Proof.
  intros Hn HD. unfold weighted_product. apply Rsum_nonneg. intros k Hk.
  assert (Hpos : 0 < nth (Z.to_nat k) D 0).
  { rewrite Forall_forall in HD. apply HD. apply nth_In. lia. }
  replace (entry ts i k / nth (Z.to_nat k) D 0 * entry ts i k)
    with ((entry ts i k * entry ts i k) * / nth (Z.to_nat k) D 0)
    by (field; lra).
  apply Rmult_le_pos; [apply Rle_0_sqr|].
  left. apply Rinv_0_lt_compat. exact Hpos.
Qed.

Local Open Scope Z_scope.

(** X21. With positive weights [D] and [alpha >= 0],
    [addMDinvMtransToDiagBlockOfSymDeMatUTri] does not decrease any
    diagonal entry of [W]: what it adds to a diagonal entry of the block
    is [alpha] times a sum of squares over positive weights. *)
Theorem addMDinvMtrans_does_not_decrease_the_diagonal :
  forall cfg h M ts d alpha D W,
    stores h M ts -> host_stores h M ts -> row_major_sorted ts ->
    in_shape M ts -> 0 <= nrows M -> cache_valid h M ts ->
    Z.of_nat (length D) = ncols M -> Forall (fun x => (0 < x)%R) D ->
    (0 <= alpha)%R ->
    dense_ok W -> 0 <= d -> d + nrows M <= W_m W -> d + nrows M <= W_n W ->
    exists M' h' W',
      addMDinvMtransToDiagBlockOfSymDeMatUTri cfg M d alpha D W h = Ok (M', h', W') /\
      forall a, 0 <= a < W_m W -> a < W_n W ->
        (nth (Z.to_nat (View (W_n W) a a)) (local_buffer W) 0
         <= nth (Z.to_nat (View (W_n W) a a)) (local_buffer W') 0)%R.
Proof.
  intros cfg h M ts d alpha D W Hst Hh Hs Hsh Hn Hc HD Hpos Ha HW Hd Hdm Hdn.
  destruct (addMDinvMtrans_run cfg h M ts d alpha D W) as (rsi & ext & buf & E & Hl & Hf);
    try assumption.
  do 3 eexists. split; [exact E|].
  intros a Ha1 Ha2. cbn [set_buffer local_buffer].
  rewrite Hf by lia.
  destruct (in_upper_block d (nrows M) a a); [|lra].
  pose proof (weighted_product_diagonal_nonneg ts D (ncols M) (a - d)
                ltac:(lia) Hpos) as Hw.
  assert (0 <= alpha * weighted_product ts ts D (ncols M) (a - d) (a - d))%R
    by (apply Rmult_le_pos; assumption).
  lra.
Qed.

(** X21 on [diag(2, 3)], with [D = [4, 5]], into the lower right block of
    a 3x3 matrix. *)
Lemma addMDinvMtrans_does_not_decrease_the_diagonal_witness :
  let W := {| W_m := 3; W_n := 3;
              local_buffer := [0; 0; 0; 0; 0; 0; 0; 0; 0]%R |} in
  exists M' h' W',
    addMDinvMtransToDiagBlockOfSymDeMatUTri debug_build (host_matrix 2 2 D22) 1 1
      [4; 5]%R W (host_heap D22) = Ok (M', h', W') /\
    forall a, 0 <= a < 3 -> a < 3 ->
      (nth (Z.to_nat (View 3 a a)) (local_buffer W) 0
       <= nth (Z.to_nat (View 3 a a)) (local_buffer W') 0)%R.
Proof.
  apply (addMDinvMtrans_does_not_decrease_the_diagonal debug_build (host_heap D22)
           (host_matrix 2 2 D22) D22 1 1%R [4; 5]%R).
  - apply host_matrix_stores.
  - repeat split.
  - unfold row_major_sorted, D22, lex_lt.
    repeat (constructor; try (unfold t_row, t_col; simpl; lia)).
  - check_shape.
  - simpl. lia.
  - exact I.
  - reflexivity.
  - repeat (constructor; try lra).
  - lra.
  - repeat split; simpl; lia.
  - lia.
  - simpl. lia.
  - simpl. lia.
Defined.

(** ** A stale host mirror *)




(** ** The accessors of the tests *)

(** X23. [getMatrixData], [getRowIndices] and [getColumnIndices] return
    the host pointers of the matrix after a [copyFromDev]: in every memory
    space the arrays they give access to hold the values, rows and columns
    of the device arrays. *)
Theorem test_accessors_return_the_refreshed_mirror :
  forall A h ts,
    stores h A ts -> mirror_ok h A ->
    exists h',
      MatrixTestsRajaSparseTriplet.getMatrixData A h = Ok (values_host_ A, h') /\
      MatrixTestsRajaSparseTriplet.getRowIndices A h = Ok (iRow_host_ A, h') /\
      MatrixTestsRajaSparseTriplet.getColumnIndices A h = Ok (jCol_host_ A, h') /\
      dbls h' (values_host_ A) = Ok (map Some (map t_val ts)) /\
      ints h' (iRow_host_ A) = Ok (map Some (map t_row ts)) /\
      ints h' (jCol_host_ A) = Ok (map Some (map t_col ts)) /\
      stores h' A ts.
Proof.
  intros A h ts Hst Hm.
  destruct (copyFromDev_syncs A h ts Hst Hm) as (h' & E & Hst' & (_ & Hr & Hc) & Hv & _).
  exists h'.
  unfold MatrixTestsRajaSparseTriplet.getMatrixData,
    MatrixTestsRajaSparseTriplet.getRowIndices,
    MatrixTestsRajaSparseTriplet.getColumnIndices.
  rewrite E. cbn [bind]. repeat (split; [reflexivity || assumption|]). exact Hst'.
Qed.

(** X23 on a 1x1 matrix in the space DEVICE whose mirror holds another
    value. *)
Lemma test_accessors_return_the_refreshed_mirror_witness :
  let A := device_matrix 1 1 S11 in
  exists h',
    MatrixTestsRajaSparseTriplet.getMatrixData A (mirrored_heap S11 [7%R])
    = Ok (values_host_ A, h') /\
    MatrixTestsRajaSparseTriplet.getRowIndices A (mirrored_heap S11 [7%R])
    = Ok (iRow_host_ A, h') /\
    MatrixTestsRajaSparseTriplet.getColumnIndices A (mirrored_heap S11 [7%R])
    = Ok (jCol_host_ A, h') /\
    dbls h' (values_host_ A) = Ok (map Some (map t_val S11)) /\
    ints h' (iRow_host_ A) = Ok (map Some (map t_row S11)) /\
    ints h' (jCol_host_ A) = Ok (map Some (map t_col S11)) /\
    stores h' A S11.
Proof.
  apply (test_accessors_return_the_refreshed_mirror (device_matrix 1 1 S11)
           (mirrored_heap S11 [7%R]) S11).
  - repeat split.
  - unfold mirror_ok. simpl. split.
    + unfold independent_mirror. simpl.
      repeat (constructor; [simpl; intuition lia|]). constructor.
    + do 3 eexists. repeat split.
Defined.

(** ** [addMDinvNtransToSymDeMatUTri] above the diagonal *)

Lemma lower_in_rows_none rs cs (m2 m1 : nat) :
  (forall i j, 0 <= i < Z.of_nat m1 -> 0 <= j < Z.of_nat m2 ->
               lower rs cs i j = false) ->
  lower_in_rows rs cs m2 m1 = 0%nat.
Proof.
  induction m1 as [|m1 IH]; intros H; [reflexivity|]. cbn [lower_in_rows].
  rewrite IH by (intros i j Hi Hj; apply H; lia).
  rewrite lower_in_row_none by (intros j Hj; apply H; lia).
  reflexivity.
Qed.

(** The call when every pair gets past the deep check. *)
Lemma addMDinvNtrans_quiet_run :
  forall cfg h M1 ts1 M2 ts2 D W rs cs alpha out,
    operands_ok h M1 ts1 M2 ts2 D W rs cs ->
    (HIOP_DEEPCHECKS cfg = true ->
     forall i j, 0 <= i < nrows M1 -> 0 <= j < nrows M2 -> i + rs <= j + cs) ->
    exists M1' M2' h' W',
      addMDinvNtransToSymDeMatUTri cfg M1 rs cs alpha D M2 W h out
      = (out, Ok (M1', M2', h', W')) /\
      W_m W' = W_m W /\ W_n W' = W_n W /\
      length (local_buffer W') = length (local_buffer W) /\
      forall a b, 0 <= a < W_m W -> 0 <= b < W_n W ->
        nth (Z.to_nat (View (W_n W) a b)) (local_buffer W') 0%R
        = (nth (Z.to_nat (View (W_n W) a b)) (local_buffer W) 0
           + (if in_block rs cs (nrows M1) (nrows M2) a b
              then alpha * weighted_product ts1 ts2 D (ncols M1) (a - rs) (b - cs)
              else 0))%R.
Proof.
  intros cfg h M1 ts1 M2 ts2 D W rs cs alpha out Hok Habove.
  destruct (addMDinvNtrans_prepare cfg h M1 ts1 M2 ts2 D W rs cs Hok)
    as (rsi1 & rsi2 & ext & Eprep & Hst1 & Hst2 & Hidx1 & Hidx2).
  destruct Hok as ((_ & _ & Hs1 & Hsh1 & Hn1 & _) & (_ & _ & Hs2 & _ & Hn2 & _)
                   & _ & HD & HW & Hrs & Hcs).
  unfold addMDinvNtransToSymDeMatUTri. cbv zeta.
  rewrite Eprep, io_bind_lift_Ok.
  destruct (block_run cfg (h ++ ext) D M1 M2 ts1 ts2 rsi1 rsi2 W rs cs alpha
              Hst1 Hst2 Hs1 Hs2 Hsh1 HD Hidx1 Hidx2 HW Hrs Hcs out)
    as (buf & E & Hl & Hf).
  { intros i j Hi Hj. unfold pair_passes.
    destruct (HIOP_DEEPCHECKS cfg) eqn:Hdeep; [|auto].
    right. right. unfold lower. apply Z.ltb_ge.
    specialize (Habove eq_refl i j Hi Hj). lia. }
  assert (Hquiet : warnings cfg
                     (lower_in_rows rs cs (Z.to_nat (nrows M2)) (Z.to_nat (nrows M1)))
                   = []).
  { unfold warnings. destruct (HIOP_DEEPCHECKS cfg) eqn:Hdeep; [|reflexivity].
    rewrite lower_in_rows_none; [reflexivity|].
    intros i j Hi Hj. unfold lower. apply Z.ltb_ge.
    specialize (Habove eq_refl i j ltac:(lia) ltac:(lia)). lia. }
  rewrite Hquiet, app_nil_r in E.
  unfold io_bind. rewrite E. unfold lift.
  do 4 eexists. split; [reflexivity|].
  split; [reflexivity|]. split; [reflexivity|]. split; [exact Hl|exact Hf].
Qed.

(** X24. When no deep check is compiled in, or the block lies on or above
    the diagonal, [addMDinvNtransToSymDeMatUTri] prints nothing, returns,
    and has added [alpha * (M1 D^-1 M2^T)[i, j]], the sum over the columns
    [k] of [M1[i,k] / D[k] * M2[j,k]], to the entry
    [(row_dest_start + i, col_dest_start + j)] of [W] for every row [i] of
    [M1] and every row [j] of [M2], leaving the other entries as they
    were. *)
Theorem addMDinvNtrans_adds_the_weighted_product_block :
  forall cfg h M1 ts1 M2 ts2 D W rs cs alpha out,
    operands_ok h M1 ts1 M2 ts2 D W rs cs ->
    (HIOP_DEEPCHECKS cfg = true ->
     forall i j, 0 <= i < nrows M1 -> 0 <= j < nrows M2 -> i + rs <= j + cs) ->
    exists M1' M2' h' W',
      addMDinvNtransToSymDeMatUTri cfg M1 rs cs alpha D M2 W h out
      = (out, Ok (M1', M2', h', W')) /\
      W_m W' = W_m W /\ W_n W' = W_n W /\
      length (local_buffer W') = length (local_buffer W) /\
      forall a b, 0 <= a < W_m W -> 0 <= b < W_n W ->
        nth (Z.to_nat (View (W_n W) a b)) (local_buffer W') 0%R
        = (nth (Z.to_nat (View (W_n W) a b)) (local_buffer W) 0
           + (if in_block rs cs (nrows M1) (nrows M2) a b
              then alpha * weighted_product ts1 ts2 D (ncols M1) (a - rs) (b - cs)
              else 0))%R.
Proof. exact addMDinvNtrans_quiet_run. Qed.

(** X24 on the two one-row matrices [[1]], with [D = [1]], at row 0 and
    column 1 of a 2x2 matrix. *)
Lemma addMDinvNtrans_adds_the_weighted_product_block_witness :
  let M1 := host_matrix 1 1 (A11 1) in
  let M2 := second_host_matrix 1 1 (A11 1) in
  let h := host_heap (A11 1) ++ host_heap (A11 1) in
  exists M1' M2' h' W',
    addMDinvNtransToSymDeMatUTri debug_build M1 0 1 1 [1%R] M2 W22 h []
    = ([], Ok (M1', M2', h', W')) /\
    W_m W' = 2 /\ W_n W' = 2 /\
    length (local_buffer W') = 4%nat /\
    forall a b, 0 <= a < 2 -> 0 <= b < 2 ->
      nth (Z.to_nat (View 2 a b)) (local_buffer W') 0%R
      = (nth (Z.to_nat (View 2 a b)) (local_buffer W22) 0
         + (if in_block 0 1 1 1 a b
            then 1 * weighted_product (A11 1) (A11 1) [1] 1 (a - 0) (b - 1)
            else 0))%R.
Proof.
  apply (addMDinvNtrans_adds_the_weighted_product_block debug_build
           (host_heap (A11 1) ++ host_heap (A11 1))
           (host_matrix 1 1 (A11 1)) (A11 1)
           (second_host_matrix 1 1 (A11 1)) (A11 1) [1%R] W22 0 1 1%R []).
  - unfold operands_ok. repeat split; simpl; try lia;
      try (unfold row_major_sorted, A11; repeat constructor);
      try (unfold t_row, t_col; simpl; lia).
  - intros _ i j Hi Hj. simpl in Hi, Hj. lia.
Defined.

(** ** Row starts of triplets that are not sorted *)

Lemma iter_range_Ok_inv {St : Type} (P : Z -> St -> Prop)
    (body : Z -> St -> outcome St) :
  forall (n : nat) (lo : Z) (s s' : St),
    P lo s ->
    (forall i s s1, lo <= i < lo + Z.of_nat n -> P i s -> body i s = Ok s1 ->
                    P (i + 1) s1) ->
    iter_range n lo body s = Ok s' -> P (lo + Z.of_nat n) s'.
Proof.
  induction n as [|n IH]; intros lo s s' Hs Hbody E.
  - cbn [iter_range] in E. inversion E; subst.
    replace (lo + Z.of_nat 0) with lo by lia. exact Hs.
  - cbn [iter_range] in E. apply bind_inv in E. destruct E as (s1 & E1 & E).
    replace (lo + Z.of_nat (S n)) with (lo + 1 + Z.of_nat n) by lia.
    apply (IH (lo + 1) s1 s'); [| |exact E].
    + apply (Hbody lo s s1); [lia|exact Hs|exact E1].
    + intros i s0 s2 Hi. apply Hbody. lia.
Qed.

Lemma adjacent_sorted {T : Type} (Rel : T -> T -> Prop) (l : list T) :
  (forall k a b, nth_error l k = Some a -> nth_error l (S k) = Some b -> Rel a b) ->
  Sorted Rel l.
Proof.
  induction l as [|x l IH]; intros H; [constructor|].
  constructor.
  - apply IH. intros k a b Ha Hb. apply (H (S k) a b); assumption.
  - destruct l as [|y l]; constructor. apply (H 0%nat x y); reflexivity.
Qed.

Section Scan.
Variables (cfg : build) (h : heap) (M : hiopMatrixRajaSparseTriplet).
Variable ts : list triplet.
Hypothesis Hst : host_stores h M ts.
Hypothesis Hnd : NDEBUG cfg = false.

Lemma assert_Ok_inv (b : bool) : assert_ cfg b = Ok tt -> b = true.
Proof. unfold assert_. rewrite Hnd. destruct b; [reflexivity|discriminate]. Qed.

(** The deep check passes only on a pair in strict row-major order. *)
Lemma check_sorted_at_inv (k : nat) (a c : triplet) :
  HIOP_DEEPCHECKS cfg = true ->
  nth_error ts k = Some a -> nth_error ts (S k) = Some c ->
  check_sorted_at cfg h M (Z.of_nat (S k)) = Ok tt -> lex_lt a c.
Proof.
  intros Hdeep Ha Hc E. unfold check_sorted_at in E. rewrite Hdeep in E.
  destruct (Z.leb_spec 1 (Z.of_nat (S k))); [|lia].
  replace (Z.of_nat (S k) - 1) with (Z.of_nat k) in E by lia.
  unfold assert_m in E. rewrite Hnd in E.
  rewrite (load_row_host h M ts Hst k a Ha), (load_row_host h M ts Hst (S k) c Hc) in E.
  rewrite (load_col_host h M ts Hst k a Ha), (load_col_host h M ts Hst (S k) c Hc) in E.
  cbn [bind] in E.
  apply bind_inv in E. destruct E as ([] & E1 & E).
  apply assert_Ok_inv in E1. apply Z.leb_le in E1.
  unfold lex_lt.
  destruct (Z.eqb_spec (t_row a) (t_row c)) as [Heq|Hne]; [|lia].
  apply assert_Ok_inv in E. apply Z.ltb_lt in E. lia.
Qed.

(** What a returning scan of the row [i - 1] has consumed. *)
Lemma scan_row_inv (i : Z) :
  forall (fuel k : nat) (idx : list (option Z)) (it' : Z) (idx' : list (option Z)),
    (k + fuel = length ts)%nat ->
    scan_row cfg h M fuel i (Z.of_nat k) idx = Ok (it', idx') ->
    exists k' : nat,
      it' = Z.of_nat k' /\ (k <= k' <= length ts)%nat /\
      (forall j t, (k <= j < k')%nat -> nth_error ts j = Some t -> t_row t = i - 1) /\
      (HIOP_DEEPCHECKS cfg = true ->
       forall j a c, (k <= S j < k')%nat ->
         nth_error ts j = Some a -> nth_error ts (S j) = Some c -> lex_lt a c).
Proof.
  pose proof Hst as (Hn & _).
  induction fuel as [|fuel IH]; intros k idx it' idx' Hlen E.
  - cbn [scan_row] in E. inversion E; subst. exists k.
    split; [reflexivity|]. split; [lia|]. split; intros; lia.
  - cbn [scan_row] in E.
    destruct (Z.ltb_spec (Z.of_nat k) (nnz M)); [|lia].
    destruct (nth_error ts k) as [t|] eqn:Et;
      [|apply nth_error_None in Et; lia].
    rewrite (load_row_host h M ts Hst k t Et) in E. cbn [bind] in E.
    destruct (Z.eqb_spec (t_row t) (i - 1)) as [Hrow|Hrow].
    + apply bind_inv in E. destruct E as ([] & Echeck & E).
      apply bind_inv in E. destruct E as (cur & _ & E).
      apply bind_inv in E. destruct E as (idx1 & _ & E).
      replace (Z.of_nat k + 1) with (Z.of_nat (S k)) in E by lia.
      destruct (IH (S k) idx1 it' idx' ltac:(lia) E) as (k' & -> & Hk' & Hrows & Hdeep).
      exists k'. split; [reflexivity|]. split; [lia|]. split.
      * intros j u Hj Eu. destruct (Nat.eq_dec j k) as [->|Hne].
        -- rewrite Et in Eu. inversion Eu; subst. exact Hrow.
        -- apply (Hrows j u); [lia|exact Eu].
      * intros Hd j a c Hj Ea Ec. destruct (Nat.eq_dec (S j) k) as [Heq|Hne].
        -- subst k. apply (check_sorted_at_inv j a c Hd Ea Ec). exact Echeck.
        -- apply (Hdeep Hd j a c); [lia|exact Ea|exact Ec].
    + inversion E; subst. exists k.
      split; [reflexivity|]. split; [lia|]. split; intros; lia.
Qed.

(** One more row keeps the prefix ordered. *)
Lemma build_row_inv (i : Z) (st st1 : Z * list (option Z)) :
  1 <= i ->
  (exists k : nat, fst st = Z.of_nat k /\ (k <= length ts)%nat /\
                   prefix_ordered (HIOP_DEEPCHECKS cfg) ts (i - 1) k) ->
  build_row cfg h M i st = Ok st1 ->
  exists k : nat, fst st1 = Z.of_nat k /\ (k <= length ts)%nat /\
                  prefix_ordered (HIOP_DEEPCHECKS cfg) ts i k.
Proof.
  pose proof Hst as (Hn & _).
  intros Hi (k & Hit & Hk & Hrange & Hadj) E.
  destruct st as (it, idx). cbn [fst] in Hit. subst it.
  unfold build_row in E.
  apply bind_inv in E. destruct E as (prev & _ & E).
  apply bind_inv in E. destruct E as (idx1 & _ & E).
  apply bind_inv in E. destruct E as ((it' & idx2) & Escan & E).
  apply bind_inv in E. destruct E as (_ & _ & E). inversion E; subst st1.
  apply (scan_row_inv i) in Escan; [|lia].
  destruct Escan as (k' & -> & Hk' & Hrows & Hdeep).
  exists k'. cbn [fst]. split; [reflexivity|]. split; [lia|]. split.
  - intros j t Hj Et. destruct (Nat.lt_ge_cases j k) as [Hlt|Hge].
    + specialize (Hrange j t Hlt Et). lia.
    + rewrite (Hrows j t ltac:(lia) Et). lia.
  - intros j a c Hj Ea Ec. destruct (Nat.lt_ge_cases (S j) k) as [Hlt|Hge].
    + apply (Hadj j a c Hlt Ea Ec).
    + split.
      * rewrite (Hrows (S j) c ltac:(lia) Ec).
        destruct (Nat.lt_ge_cases j k) as [Hlt|Hge'].
        -- specialize (Hrange j a Hlt Ea). lia.
        -- rewrite (Hrows j a ltac:(lia) Ea). lia.
      * intros Hd. apply (Hdeep Hd j a c); [lia|exact Ea|exact Ec].
Qed.

End Scan.

(** X25. In a build with assertions, [allocAndBuildRowStarts] on a matrix
    with at least one row returns only when the rows of the triplets of the
    host mirror lie in [[0, nrows)] and do not decrease; in a build that
    also has the deep checks, only when the triplets are in strict
    row-major order.  On other triplets the call stops at an assertion. *)
Theorem row_starts_are_built_only_from_ordered_rows :
  forall cfg h M ts rsi h',
    NDEBUG cfg = false -> host_stores h M ts -> 1 <= nrows M ->
    allocAndBuildRowStarts cfg M h = Ok (rsi, h') ->
    Forall (fun t => 0 <= t_row t < nrows M) ts /\
    Sorted (fun t u => t_row t <= t_row u) ts /\
    (HIOP_DEEPCHECKS cfg = true -> row_major_sorted ts).
Proof.
  intros cfg h M ts rsi h' Hnd Hst Hn E.
  pose proof Hst as (Hnnz & _).
  unfold allocAndBuildRowStarts, new_RowStartsInfo, allocate_ints in E.
  apply bind_inv in E. destruct E as (_ & _ & E).
  destruct (Z.ltb_spec (nrows M + 1) 0); [lia|]. cbn [bind idx_start_] in E.
  destruct (Z.leb_spec (nrows M) 0); [lia|].
  rewrite <- !app_assoc in E. cbn [app] in E.
  apply bind_inv in E. destruct E as (idx0 & _ & E).
  apply bind_inv in E. destruct E as (idx1 & _ & E).
  apply bind_inv in E. destruct E as ((it & idx) & Eloop & E).
  apply bind_inv in E. destruct E as ([] & Efinal & E).
  apply (assert_Ok_inv cfg Hnd) in Efinal. apply Z.eqb_eq in Efinal.
  set (h2 := h ++ _) in Eloop.
  assert (Hst2 : host_stores h2 M ts) by (apply host_stores_app_l; exact Hst).
  unfold for_range in Eloop.
  apply (iter_range_Ok_inv
           (fun i st => exists k : nat,
                fst st = Z.of_nat k /\ (k <= length ts)%nat /\
                prefix_ordered (HIOP_DEEPCHECKS cfg) ts (i - 1) k)) in Eloop.
  - destruct Eloop as (k & Hit & Hk & Hrange & Hadj). cbn [fst] in Hit.
    assert (Hall : k = length ts) by lia. subst k.
    replace (1 + Z.of_nat (Z.to_nat (nrows M + 1 - 1)) - 1) with (nrows M) in Hrange by lia.
    split; [|split].
    + apply Forall_forall. intros t Hin.
      apply In_nth_error in Hin. destruct Hin as (j & Ej).
      apply (Hrange j t); [|exact Ej].
      apply nth_error_Some. congruence.
    + apply adjacent_sorted. intros j a c Ea Ec.
      apply (Hadj j a c); [|exact Ea|exact Ec].
      apply nth_error_Some. congruence.
    + intros Hd. apply adjacent_sorted. intros j a c Ea Ec.
      apply (Hadj j a c); [|exact Ea|exact Ec|exact Hd].
      apply nth_error_Some. congruence.
  - exists 0%nat. cbn [fst]. split; [reflexivity|]. split; [lia|].
    split; intros; lia.
  - intros i st st1 Hi HP Eb. cbv beta.
    replace (i + 1 - 1) with i by lia.
    apply (build_row_inv cfg h2 M ts Hst2 Hnd i st st1); [lia|exact HP|exact Eb].
Qed.

(** X25 on the 3-row scenario in the debug build. *)
Lemma row_starts_are_built_only_from_ordered_rows_witness :
  let ts := P34 1 1 1 1 in
  Forall (fun t => 0 <= t_row t < 3) ts /\
  Sorted (fun t u => t_row t <= t_row u) ts /\
  (HIOP_DEEPCHECKS debug_build = true -> row_major_sorted ts).
Proof.
  eapply (row_starts_are_built_only_from_ordered_rows debug_build
            (host_heap (P34 1 1 1 1)) (host_matrix 3 3 (P34 1 1 1 1)) (P34 1 1 1 1)).
  - reflexivity.
  - repeat split.
  - simpl. lia.
  - reflexivity.
Defined.

(** ** The two kernels of [A D^-1 B^T] on the same matrix *)

Lemma weighted_product_symmetric (ts : list triplet) (D : list R) (n i j : Z) :
  weighted_product ts ts D n i j = weighted_product ts ts D n j i.
Proof.
  unfold weighted_product. apply Rsum_ext. intros k _. unfold Rdiv. ring.
Qed.

(** X26. The two product kernels agree.  Without deep checks, for a matrix
    [M1] and a second matrix [M2] that stores the same triplets,
    [addMDinvNtransToSymDeMatUTri] with both offsets [d] adds to the upper
    triangle of the block what [addMDinvMtransToDiagBlockOfSymDeMatUTri]
    adds at [d], and what it adds to the whole block is symmetric. *)
Theorem the_two_product_kernels_agree :
  forall cfg h M1 M2 ts D W d alpha out,
    HIOP_DEEPCHECKS cfg = false ->
    operands_ok h M1 ts M2 ts D W d d -> nrows M2 = nrows M1 ->
    exists M1a h1 W1 M1b M2b h2 W2,
      addMDinvMtransToDiagBlockOfSymDeMatUTri cfg M1 d alpha D W h
      = Ok (M1a, h1, W1) /\
      addMDinvNtransToSymDeMatUTri cfg M1 d d alpha D M2 W h out
      = (out, Ok (M1b, M2b, h2, W2)) /\
      (forall a b, d <= a -> a <= b -> b < d + nrows M1 ->
         nth (Z.to_nat (View (W_n W) a b)) (local_buffer W2) 0%R
         = nth (Z.to_nat (View (W_n W) a b)) (local_buffer W1) 0%R) /\
      (forall a b, d <= a < d + nrows M1 -> d <= b < d + nrows M1 ->
         (nth (Z.to_nat (View (W_n W) a b)) (local_buffer W2) 0
          - nth (Z.to_nat (View (W_n W) a b)) (local_buffer W) 0
          = nth (Z.to_nat (View (W_n W) b a)) (local_buffer W2) 0
            - nth (Z.to_nat (View (W_n W) b a)) (local_buffer W) 0)%R).
Proof.
  intros cfg h M1 M2 ts D W d alpha out Hdeep Hok Hrows.
  pose proof Hok as ((Hst & Hh & Hs & Hsh & Hn & Hc) & _ & _ & HD & HW & (Hd & Hdm) & (_ & Hdn)).
  destruct (addMDinvMtrans_run cfg h M1 ts d alpha D W)
    as (rsi & ext & buf & E1 & _ & Hf1); try assumption; [lia|].
  destruct (addMDinvNtrans_quiet_run cfg h M1 ts M2 ts D W d d alpha out Hok)
    as (M1b & M2b & h2 & W2 & E2 & _ & _ & _ & Hf2).
  { rewrite Hdeep. discriminate. }
  do 7 eexists. split; [exact E1|]. split; [exact E2|].
  cbn [set_buffer local_buffer]. split.
  - intros a b Ha Hab Hb.
    rewrite Hf1, Hf2 by lia.
    unfold in_upper_block, in_block.
    destruct (Z.leb_spec d a); [|lia]. destruct (Z.leb_spec a b); [|lia].
    destruct (Z.ltb_spec b (d + nrows M1)); [|lia].
    destruct (Z.ltb_spec a (d + nrows M1)); [|lia].
    destruct (Z.leb_spec d b); [|lia].
    destruct (Z.ltb_spec b (d + nrows M2)); [|lia].
    reflexivity.
  - intros a b Ha Hb.
    rewrite (Hf2 a b), (Hf2 b a) by lia.
    unfold in_block.
    destruct (Z.leb_spec d a); [|lia]. destruct (Z.leb_spec d b); [|lia].
    destruct (Z.ltb_spec a (d + nrows M1)); [|lia].
    destruct (Z.ltb_spec b (d + nrows M1)); [|lia].
    destruct (Z.ltb_spec a (d + nrows M2)); [|lia].
    destruct (Z.ltb_spec b (d + nrows M2)); [|lia].
    cbn [andb].
    rewrite (weighted_product_symmetric ts D (ncols M1) (a - d) (b - d)). ring.
Qed.

(** X26 on the two one-row matrices [[1]], with [D = [1]], at the corner
    of a 2x2 matrix, in a release build. *)
Lemma the_two_product_kernels_agree_witness :
  let M1 := host_matrix 1 1 (A11 1) in
  let M2 := second_host_matrix 1 1 (A11 1) in
  let h := host_heap (A11 1) ++ host_heap (A11 1) in
  exists M1a h1 W1 M1b M2b h2 W2,
    addMDinvMtransToDiagBlockOfSymDeMatUTri gpu_build M1 0 1 [1%R] W22 h
    = Ok (M1a, h1, W1) /\
    addMDinvNtransToSymDeMatUTri gpu_build M1 0 0 1 [1%R] M2 W22 h []
    = ([], Ok (M1b, M2b, h2, W2)) /\
    (forall a b, 0 <= a -> a <= b -> b < 0 + 1 ->
       nth (Z.to_nat (View 2 a b)) (local_buffer W2) 0%R
       = nth (Z.to_nat (View 2 a b)) (local_buffer W1) 0%R) /\
    (forall a b, 0 <= a < 0 + 1 -> 0 <= b < 0 + 1 ->
       (nth (Z.to_nat (View 2 a b)) (local_buffer W2) 0
        - nth (Z.to_nat (View 2 a b)) (local_buffer W22) 0
        = nth (Z.to_nat (View 2 b a)) (local_buffer W2) 0
          - nth (Z.to_nat (View 2 b a)) (local_buffer W22) 0)%R).
Proof.
  apply (the_two_product_kernels_agree gpu_build
           (host_heap (A11 1) ++ host_heap (A11 1))
           (host_matrix 1 1 (A11 1)) (second_host_matrix 1 1 (A11 1)) (A11 1)
           [1%R] W22 0 1%R []).
  - reflexivity.
  - unfold operands_ok. repeat split; simpl; try lia;
      try (unfold row_major_sorted, A11; repeat constructor);
      try (unfold t_row, t_col; simpl; lia).
  - reflexivity.
Defined.

(** ** The constructor on an empty dimension *)

(** X27. When [rows] or [cols] is zero and the number of nonzeros asked for
    is not, the constructor stops at its assertion in a build with
    assertions; in a build without them it sets [nnz] to zero and returns
    the empty matrix of these dimensions. *)
Theorem constructor_with_an_empty_dimension :
  forall cfg rows cols nz memspace h,
    rows = 0 \/ cols = 0 -> nz <> 0 ->
    (NDEBUG cfg = false ->
     new_hiopMatrixRajaSparseTriplet cfg rows cols nz memspace h = AssertFailed) /\
    (NDEBUG cfg = true ->
     exists M h',
       new_hiopMatrixRajaSparseTriplet cfg rows cols nz memspace h = Ok (M, h') /\
       nnz M = 0 /\ nrows M = rows /\ ncols M = cols).
Proof.
  intros cfg rows cols nz memspace h Hdim Hnz.
  assert (Hz : (rows =? 0) || (cols =? 0) = true).
  { destruct Hdim as [->| ->]; [reflexivity|]. rewrite Z.eqb_refl. apply orb_true_r. }
  unfold new_hiopMatrixRajaSparseTriplet, assert_. rewrite Hz.
  destruct (Z.eqb_spec nz 0); [contradiction|].
  split; intros Hnd; rewrite Hnd; cbn [bind]; [reflexivity|].
  unfold allocate_ints, allocate_dbls. cbn [Z.ltb Z.compare bind].
  destruct (String.eqb _ "DEVICE"); cbn [bind]; do 2 eexists;
    (split; [reflexivity|repeat split]).
Qed.

(** X27 with no rows and three nonzeros asked for, in the debug build. *)
Lemma constructor_with_an_empty_dimension_witness :
  (NDEBUG debug_build = false ->
   new_hiopMatrixRajaSparseTriplet debug_build 0 3 3 "HOST" [] = AssertFailed) /\
  (NDEBUG debug_build = true ->
   exists M h',
     new_hiopMatrixRajaSparseTriplet debug_build 0 3 3 "HOST" [] = Ok (M, h') /\
     nnz M = 0 /\ nrows M = 0 /\ ncols M = 3).
Proof.
  apply (constructor_with_an_empty_dimension debug_build 0 3 3 "HOST" []).
  - left. reflexivity.
  - lia.
Defined.

(** ** The matrix set to zero *)

Local Open Scope R_scope.

Lemma set_nth_same {T : Type} (a : list T) (n : nat) (d : T) :
  set_nth a n (nth n a d) = a.
Proof.
  revert n. induction a as [|x a IH]; intros [|n]; simpl; try reflexivity.
  rewrite IH. reflexivity.
Qed.

Lemma scatter_add_zero tgt src alpha x (ts : list triplet) :
  Forall (fun t => t_val t = 0) ts ->
  forall y, scatter_add tgt src alpha x ts y = y.
Proof.
  unfold scatter_add. induction ts as [|t ts IH]; intros Hz y; [reflexivity|].
  inversion Hz as [|? ? Ht Hts]; subst. cbn [fold_left].
  unfold add_at at 2. rewrite Ht.
  replace (nth (Z.to_nat (tgt t)) y 0 + alpha * nth (Z.to_nat (src t)) x 0 * 0)
    with (nth (Z.to_nat (tgt t)) y 0) by ring.
  rewrite set_nth_same. apply IH. exact Hts.
Qed.

Local Open Scope Z_scope.

Lemma with_values_rows (ts : list triplet) (vs : list R) :
  length vs = length ts -> map t_row (with_values ts vs) = map t_row ts.
Proof.
  unfold with_values. revert vs.
  induction ts as [|t ts IH]; intros [|v vs] H; simpl in *; try lia; try reflexivity.
  f_equal. apply IH. lia.
Qed.

Lemma with_values_cols (ts : list triplet) (vs : list R) :
  length vs = length ts -> map t_col (with_values ts vs) = map t_col ts.
Proof.
  unfold with_values. revert vs.
  induction ts as [|t ts IH]; intros [|v vs] H; simpl in *; try lia; try reflexivity.
  f_equal. apply IH. lia.
Qed.

Lemma with_values_vals (ts : list triplet) (vs : list R) :
  length vs = length ts -> map t_val (with_values ts vs) = vs.
Proof.
  unfold with_values. revert vs.
  induction ts as [|t ts IH]; intros [|v vs] H; simpl in *; try lia; try reflexivity.
  f_equal. apply IH. lia.
Qed.

Lemma ints_not_dbls (h : heap) (p q : ptr) li ld :
  ints h p = Ok li -> dbls h q = Ok ld -> p <> q.
Proof.
  intros Hi Hd ->. unfold ints, dbls in *.
  destruct (lookup h q) as [b| |]; cbn [bind] in *; try discriminate.
  destruct (blk_cells b); discriminate.
Qed.

(** [setToConstant] keeps the positions and gives every entry the value. *)
Lemma setToConstant_stores M c h ts :
  stores h M ts ->
  exists h1,
    setToConstant M c h = Ok h1 /\
    stores h1 M (with_values ts (repeat c (length ts))).
Proof.
  intros Hst. pose proof Hst as (Hn & Hr & Hc & Hv).
  destruct (setToConstant_run M c h _ Hv) as (h1 & E1 & Hd1 & _ & F1).
  { rewrite !length_map. symmetry. exact Hn. }
  rewrite !length_map in Hd1.
  exists h1. split; [exact E1|].
  assert (Hlen : length (repeat c (length ts)) = length ts) by apply repeat_length.
  unfold stores.
  rewrite with_values_length, with_values_rows, with_values_cols, with_values_vals
    by exact Hlen.
  split; [exact Hn|]. split; [|split].
  - rewrite (ints_frame h h1); [exact Hr|].
    apply F1. apply (ints_not_dbls h _ _ _ _ Hr Hv).
  - rewrite (ints_frame h h1); [exact Hc|].
    apply F1. apply (ints_not_dbls h _ _ _ _ Hc Hv).
  - rewrite map_repeat. exact Hd1.
Qed.

(** X28. After [setToZero] the matrix multiplies to zero: [timesVec] only
    scales the first [nrows] entries of [y] by [beta], and [transTimesVec]
    the first [ncols] entries of its output, for every [alpha] and
    input. *)
Theorem the_matrix_set_to_zero_only_scales :
  forall cfg h M ts beta y alpha x w u,
    stores h M ts -> in_shape M ts ->
    ncols M <= Z.of_nat (length x) -> nrows M <= Z.of_nat (length y) ->
    nrows M <= Z.of_nat (length u) -> ncols M <= Z.of_nat (length w) ->
    exists h1,
      setToZero M h = Ok h1 /\
      timesVec cfg h1 M beta y alpha x = Ok (scale_prefix (nrows M) beta y) /\
      transTimesVec cfg h1 M beta w alpha u = Ok (scale_prefix (ncols M) beta w).
Proof.
  intros cfg h M ts beta y alpha x w u Hst Hsh Hx Hy Hu Hw.
  destruct (setToConstant_stores M 0%R h ts Hst) as (h1 & E & Hst1).
  exists h1. split; [exact E|].
  set (ts0 := with_values ts (repeat 0%R (length ts))) in *.
  assert (Hsh0 : in_shape M ts0).
  { apply (with_values_positions
             (fun r c => 0 <= r < nrows M /\ 0 <= c < ncols M)). exact Hsh. }
  assert (Hzero : Forall (fun t => t_val t = 0%R) ts0).
  { apply Forall_forall. intros t Hin.
    assert (Hv : In (t_val t) (map t_val ts0)) by (apply in_map; exact Hin).
    unfold ts0 in Hv. rewrite with_values_vals in Hv by apply repeat_length.
    apply repeat_spec in Hv. exact Hv. }
  split.
  - rewrite (timesVec_run cfg h1 M ts0) by assumption.
    rewrite scatter_add_zero by exact Hzero. reflexivity.
  - rewrite (transTimesVec_run cfg h1 M ts0) by assumption.
    rewrite scatter_add_zero by exact Hzero. reflexivity.
Qed.

(** X28 on the 2x3 scenario. *)
Lemma the_matrix_set_to_zero_only_scales_witness :
  exists h1,
    setToZero (host_matrix 2 3 A23) (host_heap A23) = Ok h1 /\
    timesVec debug_build h1 (host_matrix 2 3 A23) 2 [1; 1]%R 1 [1; 1; 1]%R
    = Ok (scale_prefix 2 2 [1; 1]%R) /\
    transTimesVec debug_build h1 (host_matrix 2 3 A23) 2 [1; 1; 1]%R 1 [1; 1]%R
    = Ok (scale_prefix 3 2 [1; 1; 1]%R).
Proof.
  apply (the_matrix_set_to_zero_only_scales debug_build (host_heap A23)
           (host_matrix 2 3 A23) A23 2%R [1; 1]%R 1%R [1; 1; 1]%R
           [1; 1; 1]%R [1; 1]%R).
  - apply host_matrix_stores.
  - check_shape.
  - simpl. lia.
  - simpl. lia.
  - simpl. lia.
  - simpl. lia.
Defined.
